(** * MantraAI: session, transcript and route logic

    A shallow embedding of the two chat pages ([ChatPage], which streams its
    replies, and [ChatPageWithHistory]), of the response post-processor
    [parseAIResponse], of the reset hook [useResetWithUndo], of the HTTP
    routes [/api/chat], [/api/chat/2min-concept], [/api/chat/weakness],
    [/api/career] and [/api/exam-planner], of the two form pages that call
    the last two, and of the history list of the profile, with the
    properties the specification states about them and further properties
    of the code.
    The definitions come first, the properties after them. *)

From Stdlib Require Import Ascii.
From stdpp Require Import base numbers option list gmap strings.

(** ** JavaScript strings

    A JavaScript string is a sequence of UTF-16 code units.  Code units are
    kept as [N]; no operation below depends on the 16-bit bound. *)

Module Js.
Local Open Scope N_scope.

Abbreviation jstring := (list N).

(** A literal of the source, written as a Rocq string. *)
Fixpoint js (s : string) : jstring :=
  match s with
  | EmptyString => []
  | String a s' => N_of_ascii a :: js s'
  end.

(** ECMAScript [LineTerminator]: LF, CR, LS, PS. *)
Definition isLineTerminator (c : N) : bool :=
  (c =? 0x0A) || (c =? 0x0D) || (c =? 0x2028) || (c =? 0x2029).

(** ECMAScript [WhiteSpace]: TAB, VT, FF, ZWNBSP and the category Zs. *)
Definition isWhiteSpace (c : N) : bool :=
  (c =? 0x09) || (c =? 0x0B) || (c =? 0x0C) || (c =? 0x20) || (c =? 0xA0)
  || (c =? 0xFEFF) || (c =? 0x1680) || ((0x2000 <=? c) && (c <=? 0x200A))
  || (c =? 0x202F) || (c =? 0x205F) || (c =? 0x3000).

(** The class [\s] of a regular expression, also what [trim] strips. *)
Definition isSpace (c : N) : bool := isWhiteSpace c || isLineTerminator c.

Fixpoint trimStart (s : jstring) : jstring :=
  match s with
  | c :: s' => if isSpace c then trimStart s' else s
  | [] => []
  end.

Definition trimEnd (s : jstring) : jstring := reverse (trimStart (reverse s)).

(** [String.prototype.trim] *)
Definition trim (s : jstring) : jstring := trimEnd (trimStart s).

(** [Canonicalize] of a regular expression with the [i] flag and without
    the [u] flag, on the code units below 128.  A code unit from 128 on is
    never mapped below 128 by it, so against the ASCII patterns of this
    program it is enough to leave those unchanged. *)
Definition canonicalize (c : N) : N :=
  if (0x61 <=? c) && (c <=? 0x7A) then c - 0x20 else c.

(** The lower case of a code unit.  In the Unicode tables the code points
    whose lower case holds a code unit below 128 are A-Z, U+0130 (capital I
    with dot above, to [i] and the combining dot U+0307) and U+212A (the
    Kelvin sign, to [k]); these are mapped as the tables map them.  Every
    other code point, and the code units of a surrogate pair, have a lower
    case of one or more code units from 128 on; such a code unit stands for
    its own lower case here. *)
Definition lowerUnit (c : N) : jstring :=
  if (0x41 <=? c) && (c <=? 0x5A) then [c + 0x20]
  else if c =? 0x130 then [0x69; 0x307]
  else if c =? 0x212A then [0x6B]
  else [c].

(** [String.prototype.toLowerCase].  The result is exact in its code units
    below 128 and in where they stand: between them, a run of code units
    from 128 on is a run of such code units in the result of the engine too
    (see [includes_skeleton]).  [parseAIResponse] applies it to a word of
    ASCII letters (see [confidence_capture_word]); [analyzeIntent] looks in
    its result for ASCII patterns only. *)
Definition toLowerCase (s : jstring) : jstring := s ≫= lowerUnit.

(** A JavaScript completion: a value, or a thrown error with its message. *)
Inductive completion (A : Type) :=
| Ret (a : A)
| Thrown (message : jstring).
Arguments Ret {A} a.
Arguments Thrown {A} message.

(** [s.includes(pattern)] *)
Fixpoint includes (s pattern : jstring) : bool :=
  bool_decide (pattern `prefix_of` s)
  || match s with
     | [] => false
     | _ :: s' => includes s' pattern
     end.

(** *** Regular expressions

    The fragment the program uses: pattern characters, the classes [\s] and
    [.], greedy [*] and [+] on a class, sequence, alternative, one capturing
    group and the assertion [$]; the flags [i] and [m]. *)

Inductive cclass := CSpace | CDot.

Inductive regex :=
| Eps
| Chr (c : N)
| Cls (k : cclass)
| Star (k : cclass)
| Plus (k : cclass)
| Seq (r1 r2 : regex)
| Alt (r1 r2 : regex)
| Group (r : regex)
| Eol.

Record flags := { ignoreCase : bool; multiline : bool }.

Definition inClass (k : cclass) (c : N) : bool :=
  match k with
  | CSpace => isSpace c
  | CDot => negb (isLineTerminator c)
  end.

Definition charEq (fl : flags) (x c : N) : bool :=
  if ignoreCase fl then canonicalize x =? canonicalize c else x =? c.

(** [$]: at the end of the input, or with [m] before a line terminator. *)
Definition atEol (fl : flags) (s : jstring) : bool :=
  match s with
  | [] => true
  | c :: _ => multiline fl && isLineTerminator c
  end.

Section Matcher.
Context {R : Type}.

(** Greedy repetition of a class: the longest run first, then shorter
    ones while the continuation fails. *)
Fixpoint starm (p : N → bool) (k : jstring → option R) (s : jstring)
  : option R :=
  match s with
  | c :: s' =>
      if p c then
        match starm p k s' with
        | Some r => Some r
        | None => k s
        end
      else k s
  | [] => k []
  end.

(** The backtracking matcher, in continuation-passing style as in
    ECMA-262: [s] is the input left, [cap] the capture of group 1. *)
Fixpoint matcher (fl : flags) (r : regex) (s : jstring)
    (cap : option jstring)
    (k : jstring → option jstring → option R) : option R :=
  match r with
  | Eps => k s cap
  | Chr c =>
      match s with
      | x :: s' => if charEq fl x c then k s' cap else None
      | [] => None
      end
  | Cls cs =>
      match s with
      | x :: s' => if inClass cs x then k s' cap else None
      | [] => None
      end
  | Star cs => starm (inClass cs) (λ s', k s' cap) s
  | Plus cs =>
      match s with
      | x :: s' =>
          if inClass cs x then starm (inClass cs) (λ s'', k s'' cap) s'
          else None
      | [] => None
      end
  | Seq r1 r2 =>
      matcher fl r1 s cap (λ s' cap', matcher fl r2 s' cap' k)
  | Alt r1 r2 =>
      match matcher fl r1 s cap k with
      | Some res => Some res
      | None => matcher fl r2 s cap k
      end
  | Group r' =>
      matcher fl r' s cap
        (λ s' _, k s' (Some (take (length s - length s') s)))
  | Eol => if atEol fl s then k s cap else None
  end.
End Matcher.

(** A match at the start of [s]: the input left and the capture. *)
Definition exec (fl : flags) (r : regex) (s : jstring)
  : option (jstring * option jstring) :=
  matcher fl r s None (λ rest cap, Some (rest, cap)).

Record MatchResult := {
  m_before : jstring;          (* the input before the match *)
  m_after : jstring;           (* the input after the match *)
  m_group1 : option jstring    (* [result[1]], [None] for undefined *)
}.

(** [RegExpBuiltinExec] without [g] and [y]: the first index, from 0 to the
    length of the input, at which the pattern matches. *)
Fixpoint search (fl : flags) (r : regex) (pre s : jstring)
  : option MatchResult :=
  match exec fl r s with
  | Some (rest, cap) =>
      Some {| m_before := pre; m_after := rest; m_group1 := cap |}
  | None =>
      match s with
      | [] => None
      | c :: s' => search fl r (pre ++ [c]) s'
      end
  end.

(** [text.match(re)] for a pattern without the [g] flag. *)
Definition str_match (fl : flags) (r : regex) (text : jstring)
  : option MatchResult := search fl r [] text.

(** [text.replace(re, '')] for a pattern without the [g] flag. *)
Definition str_replace_empty (fl : flags) (r : regex) (text : jstring)
  : jstring :=
  match search fl r [] text with
  | Some m => m_before m ++ m_after m
  | None => text
  end.

(** The pattern characters of a literal, in sequence. *)
Definition lit (w : jstring) : regex := foldr (λ c r, Seq (Chr c) r) Eps w.

(** What a pattern denotes: [Den fl r s cap s' cap'] when [r] matches a
    prefix of [s] and leaves [s'], taking the capture from [cap] to
    [cap']. *)
Inductive Den (fl : flags)
  : regex → jstring → option jstring → jstring → option jstring → Prop :=
| DenEps s cap : Den fl Eps s cap s cap
| DenChr c x s cap :
    charEq fl x c = true → Den fl (Chr c) (x :: s) cap s cap
| DenCls k x s cap :
    inClass k x = true → Den fl (Cls k) (x :: s) cap s cap
| DenStar k ws s cap :
    forallb (inClass k) ws = true → Den fl (Star k) (ws ++ s) cap s cap
| DenPlus k x ws s cap :
    inClass k x = true → forallb (inClass k) ws = true →
    Den fl (Plus k) (x :: ws ++ s) cap s cap
| DenSeq r1 r2 s cap s1 cap1 s2 cap2 :
    Den fl r1 s cap s1 cap1 → Den fl r2 s1 cap1 s2 cap2 →
    Den fl (Seq r1 r2) s cap s2 cap2
| DenAltL r1 r2 s cap s' cap' :
    Den fl r1 s cap s' cap' → Den fl (Alt r1 r2) s cap s' cap'
| DenAltR r1 r2 s cap s' cap' :
    Den fl r2 s cap s' cap' → Den fl (Alt r1 r2) s cap s' cap'
| DenGroup r s cap s' cap' :
    Den fl r s cap s' cap' →
    Den fl (Group r) s cap s' (Some (take (length s - length s') s))
| DenEol s cap : atEol fl s = true → Den fl Eol s cap s cap.

(** The pattern matches somewhere in the text. *)
Definition Occurs (fl : flags) (r : regex) (text : jstring) : Prop :=
  ∃ pre t rest cap, text = pre ++ t ∧ Den fl r t None rest cap.

End Js.

Import Js.

(** ** [parseAIResponse] (both chat pages carry the same function) *)

Module Parse.
Local Open Scope N_scope.

Definition flags_i : flags := {| ignoreCase := true; multiline := false |}.
Definition flags_im : flags := {| ignoreCase := true; multiline := true |}.

(** [/Confidence:\s*(High|Medium|Low)/i] *)
Definition reConfidence : regex :=
  Seq (lit (js "Confidence:"))
    (Seq (Star CSpace)
       (Group (Alt (lit (js "High")) (Alt (lit (js "Medium")) (lit (js "Low")))))).

(** [/Ask-Me-Back:\s*(.+)/i] *)
Definition reAskMeBack : regex :=
  Seq (lit (js "Ask-Me-Back:")) (Seq (Star CSpace) (Group (Plus CDot))).

(** [/Confidence:.*$/im] *)
Definition reConfidenceLine : regex :=
  Seq (lit (js "Confidence:")) (Seq (Star CDot) Eol).

(** [/Ask-Me-Back:.*$/im] *)
Definition reAskMeBackLine : regex :=
  Seq (lit (js "Ask-Me-Back:")) (Seq (Star CDot) Eol).

Record Parsed := {
  p_content : jstring;
  p_confidence : option jstring;
  p_askBackQuestion : option jstring
}.

(** Reading a method of [match[1]]: a [TypeError] when it is undefined. *)
Definition group1_apply (f : jstring → jstring) (m : option MatchResult)
  : completion (option jstring) :=
  match m with
  | None => Ret None
  | Some r =>
      match m_group1 r with
      | Some g => Ret (Some (f g))
      | None => Thrown (js "Cannot read properties of undefined")
      end
  end.

Definition parseAIResponse (text : jstring) : completion Parsed :=
  let confidenceMatch := str_match flags_i reConfidence text in
  let askMatch := str_match flags_i reAskMeBack text in
  match group1_apply toLowerCase confidenceMatch with
  | Thrown e => Thrown e
  | Ret confidence =>
      let content := str_replace_empty flags_im reConfidenceLine text in
      let content := str_replace_empty flags_im reAskMeBackLine content in
      match group1_apply trim askMatch with
      | Thrown e => Thrown e
      | Ret askBackQuestion =>
          Ret {| p_content := trim content;
                 p_confidence := confidence;
                 p_askBackQuestion := askBackQuestion |}
      end
  end.

(** *** The same, in the words of the specification

    The content is the text without the first marker up to the end of its
    line, for each of the two markers, trimmed. *)

Fixpoint startsWithCI (w s : jstring) : bool :=
  match w, s with
  | [], _ => true
  | c :: w', x :: s' => (canonicalize x =? canonicalize c) && startsWithCI w' s'
  | _ :: _, [] => false
  end.

Fixpoint skipLine (s : jstring) : jstring :=
  match s with
  | c :: s' => if isLineTerminator c then s else skipLine s'
  | [] => []
  end.

Fixpoint cutMarkerLine (marker s : jstring) : jstring :=
  if startsWithCI marker s then skipLine (drop (length marker) s)
  else match s with
       | [] => []
       | c :: s' => c :: cutMarkerLine marker s'
       end.

Definition asciiLetter (c : N) : Prop := 0x41 ≤ c ≤ 0x5A ∨ 0x61 ≤ c ≤ 0x7A.

Definition spec_content (text : jstring) : jstring :=
  trim (cutMarkerLine (js "Ask-Me-Back:") (cutMarkerLine (js "Confidence:") text)).

End Parse.

Import Parse.


(** ** The undo-capable reset controller ([hooks/useResetWithUndo]) *)

Module ResetWithUndo.
Local Open Scope Z_scope.

Section Controller.
Context {T : Type}.

(** Modelled from the spec: the hook [useResetWithUndo] (the file
    [hooks/useResetWithUndo] is imported by the pages and is not part of
    the sources at hand).  The record is the specification's
    [ResettableState<T>]; [onResetCalls] is the sequence of arguments the
    [onReset] callback has been invoked with, oldest first. *)
Record ResettableState := {
  current : T;
  snapshotBeforeReset : option T;
  undoDeadline : Z;
  onResetCalls : list T
}.

(** Modelled from the spec: the controller starts from [initialState]
    with no window open. *)
Definition initial (initialState : T) : ResettableState :=
  {| current := initialState; snapshotBeforeReset := None;
     undoDeadline := 0; onResetCalls := [] |}.

(** Modelled from the spec: the undo window is open exactly while a
    snapshot is kept. *)
Definition windowOpen (s : ResettableState) : bool :=
  bool_decide (is_Some (snapshotBeforeReset s)).

(** Modelled from the spec: [reset(newValue)] captures [current], sets
    the new value, opens the window for [timeout] and invokes
    [onReset(newValue)]. *)
Definition reset (newValue : T) (now timeout : Z) (s : ResettableState)
  : ResettableState :=
  {| current := newValue;
     snapshotBeforeReset := Some (current s);
     undoDeadline := now + timeout;
     onResetCalls := onResetCalls s ++ [newValue] |}.

(** Modelled from the spec: auto-expiry, the window silently closes once
    the deadline is reached. *)
Definition expire (now : Z) (s : ResettableState) : ResettableState :=
  match snapshotBeforeReset s with
  | Some _ =>
      if undoDeadline s <=? now then
        {| current := current s; snapshotBeforeReset := None;
           undoDeadline := undoDeadline s; onResetCalls := onResetCalls s |}
      else s
  | None => s
  end.

(** Modelled from the spec: [undo()] is valid only while the window is
    open; it restores the snapshot, closes the window and invokes
    [onReset(snapshot)]. *)
Definition undo (now : Z) (s : ResettableState) : ResettableState :=
  let s := expire now s in
  match snapshotBeforeReset s with
  | Some a =>
      {| current := a; snapshotBeforeReset := None;
         undoDeadline := undoDeadline s;
         onResetCalls := onResetCalls s ++ [a] |}
  | None => s
  end.

(** Modelled from the spec: [dismiss()] closes the window without
    restoring. *)
Definition dismiss (s : ResettableState) : ResettableState :=
  {| current := current s; snapshotBeforeReset := None;
     undoDeadline := undoDeadline s; onResetCalls := onResetCalls s |}.

(** Modelled from the spec: what can happen to the controller without a
    new [reset]. *)
Inductive Op := OpUndo (now : Z) | OpDismiss | OpExpire (now : Z).

Definition apply (s : ResettableState) (o : Op) : ResettableState :=
  match o with
  | OpUndo now => undo now s
  | OpDismiss => dismiss s
  | OpExpire now => expire now s
  end.

Definition applyAll (s : ResettableState) (ops : list Op)
  : ResettableState := foldl apply s ops.
End Controller.
Arguments ResettableState : clear implicits.

End ResetWithUndo.

(** ** The HTTP routes *)

Module Routes.
Local Open Scope Z_scope.

(** A value of a parsed JSON body; a missing field reads as [JUndefined]. *)
#[local] Set Warnings "-register-all".
Inductive JsVal :=
| JUndefined
| JNull
| JBool (b : bool)
| JNum (n : Z)
| JStr (s : jstring)
| JArr (items : list JsVal)
| JObj.

(** [ToBoolean] *)
Definition truthy (v : JsVal) : bool :=
  match v with
  | JUndefined | JNull => false
  | JBool b => b
  | JNum n => negb (n =? 0)
  | JStr s => negb (bool_decide (s = []))
  | JArr _ | JObj => true
  end.

(** [createServerSupabaseClient()] gives no client when Supabase is not
    configured; with a client, [auth.getSession()] gives the session. *)
Inductive Supabase :=
| Unconfigured
| Configured (session : option jstring).

Inductive Body :=
| ErrorBody (error : jstring)
| PlanBody (plan : jstring)
| RoadmapBody (roadmap : jstring)
| ConceptBody (concept example takeaway raw : jstring)
| StreamBody (stream : list (list N)).

Record Response := { status : Z; body : Body }.

(** [NextResponse.json(body, { status })]; the status defaults to 200. *)
Definition json (b : Body) (st : Z) : Response := {| status := st; body := b |}.

(** [error.message || fallback] *)
Definition messageOr (message fallback : jstring) : jstring :=
  match message with
  | [] => fallback
  | _ => message
  end.

(** [s.split(sep)] for a one-character separator. *)
Fixpoint split (sep : N) (s : jstring) : list jstring :=
  match s with
  | [] => [[]]
  | c :: s' =>
      if (c =? sep)%N then [] :: split sep s'
      else match split sep s' with
           | r :: rs => (c :: r) :: rs
           | [] => [[c]]
           end
  end.

(** The server's clock and the [Date] object: the current time, the
    argument of [new Date(v)] as a time value ([None] for an invalid date)
    and [setHours(0, 0, 0, 0)], the start of the local day of a time value.
    Time values are integers, in the range where the arithmetic of the
    route is exact. *)
Record Clock := {
  now : Z;
  dateOf : JsVal → option Z;
  startOfLocalDay : Z → Z
}.

Definition msPerDay : Z := 1000 * 60 * 60 * 24.

(** [Math.ceil(a / b)] for [b > 0]. *)
Definition ceilDiv (a b : Z) : Z := - ((- a) / b).

(** *** [app/api/exam-planner/route.ts] *)

Record ExamRequest := {
  examName : JsVal;
  examDate : JsVal;
  subjects : JsVal;
  dailyHours : JsVal
}.

(** The values interpolated into the prompt of the study plan;
    [daysUntilExam] is [None] for [NaN]. *)
Record ExamPrompt := {
  ep_examName : JsVal;
  ep_examDate : JsVal;
  ep_daysUntilExam : option Z;
  ep_subjectsList : list jstring;
  ep_dailyHours : JsVal
}.

(** [daysUntilExam < 1]; a comparison with [NaN] is false. *)
Definition lessThanOne (d : option Z) : bool :=
  match d with
  | Some n => n <? 1
  | None => false
  end.

(** The days until the exam, as the route computes them: from the start
    of the local day of [new Date(examDate)] and the start of today. *)
Definition daysUntilExam (clock : Clock) (examDate : JsVal) : option Z :=
  let examDateObj := dateOf clock examDate in
  let today := startOfLocalDay clock (now clock) in
  let examDateObj := startOfLocalDay clock <$> examDateObj in
  (λ e, ceilDiv (e - today) msPerDay) <$> examDateObj.

(** [subjects.split(',').map(s => s.trim()).filter(Boolean)] *)
Definition subjectsList (subjects : jstring) : list jstring :=
  filter (λ x, x ≠ []) (trim <$> split 0x2C subjects).

Definition examPrompt (clock : Clock) (request : ExamRequest)
    (subjects : jstring) : ExamPrompt :=
  {| ep_examName := examName request;
     ep_examDate := examDate request;
     ep_daysUntilExam := daysUntilExam clock (examDate request);
     ep_subjectsList := subjectsList subjects;
     ep_dailyHours := dailyHours request |}.

Definition examPlannerPOST (supabase : Supabase) (clock : Clock)
    (getChatCompletion : ExamPrompt → completion jstring)
    (request : ExamRequest) : Response :=
  match supabase with
  | Configured None => json (ErrorBody (js "Unauthorized")) 401
  | _ =>
      if negb (truthy (examName request)) || negb (truthy (examDate request))
         || negb (truthy (subjects request))
         || negb (truthy (dailyHours request))
      then json (ErrorBody (js "Missing required fields")) 400
      else if lessThanOne (daysUntilExam clock (examDate request))
      then json (ErrorBody (js "Exam date must be in the future")) 400
      else
        match subjects request with
        | JStr s =>
            match getChatCompletion (examPrompt clock request s) with
            | Ret plan => json (PlanBody plan) 200
            | Thrown e =>
                json (ErrorBody
                        (messageOr e (js "Failed to generate study plan"))) 500
            end
        | _ =>
            (* [subjects.split] is not a function: a [TypeError], caught *)
            json (ErrorBody (js "subjects.split is not a function")) 500
        end
  end.

(** A server in the UTC time zone, for the examples: the local day starts
    at a multiple of a day. *)
Definition utcStartOfDay (t : Z) : Z := t - t `mod` msPerDay.

(** *** [app/api/career/route.ts] *)

Record CareerRequest := {
  currentEducation : JsVal;
  interests : JsVal;
  strengths : JsVal;
  goals : JsVal
}.

Definition careerPOST (supabase : Supabase)
    (getChatCompletion : CareerRequest → completion jstring)
    (request : CareerRequest) : Response :=
  match supabase with
  | Configured None => json (ErrorBody (js "Unauthorized")) 401
  | _ =>
      if negb (truthy (currentEducation request))
         || negb (truthy (interests request))
         || negb (truthy (strengths request))
      then json (ErrorBody (js "Missing required fields")) 400
      else
        match getChatCompletion request with
        | Ret roadmap => json (RoadmapBody roadmap) 200
        | Thrown e =>
            json (ErrorBody (messageOr e (js "Failed to generate roadmap"))) 500
        end
  end.

(** *** [app/api/chat/2min-concept/route.ts] *)

Record ConceptRequest := {
  topic : JsVal;
  cr_language : JsVal;
  cr_firstName : JsVal
}.

Record StructuredConcept := {
  sc_concept : jstring;
  sc_example : jstring;
  sc_takeaway : jstring
}.

Definition conceptPOST (supabase : Supabase)
    (getStructuredChatCompletion : ConceptRequest → completion StructuredConcept)
    (stringify : StructuredConcept → jstring)
    (request : ConceptRequest) : Response :=
  match supabase with
  | Configured None => json (ErrorBody (js "Unauthorized")) 401
  | _ =>
      match topic request with
      | JStr (_ :: _) =>
          match getStructuredChatCompletion request with
          | Ret parsed =>
              json (ConceptBody (sc_concept parsed) (sc_example parsed)
                      (sc_takeaway parsed) (stringify parsed)) 200
          | Thrown e =>
              json (ErrorBody
                      (messageOr e (js "Failed to generate 2-minute concept")))
                500
          end
      | _ =>
          (* [!topic || typeof topic !== 'string'] *)
          json (ErrorBody (js "Topic is required")) 400
      end
  end.

(** *** [app/api/chat/route.ts] *)

Record ChatRequest := {
  ch_messages : JsVal;
  ch_language : JsVal;
  ch_firstName : JsVal
}.

Definition chatPOST (supabase : Supabase)
    (getChatStream : ChatRequest → completion (list (list N)))
    (request : ChatRequest) : Response :=
  match supabase with
  | Configured None => json (ErrorBody (js "Unauthorized")) 401
  | _ =>
      match ch_messages request with
      | JArr _ =>
          match getChatStream request with
          | Ret stream => json (StreamBody stream) 200
          | Thrown e =>
              json (ErrorBody (messageOr e (js "Failed to get AI response"))) 500
          end
      | _ =>
          (* [!messages || !Array.isArray(messages)] *)
          json (ErrorBody (js "Invalid messages format")) 400
      end
  end.

End Routes.

(** ** The transcript: messages of both chat pages *)

Module Transcript.
Local Open Scope Z_scope.

Inductive Role := user | assistant.
Inductive MessageType := normal | concept | weakness.

Record ConceptData := {
  cd_concept : jstring;
  cd_example : jstring;
  cd_takeaway : jstring;
  cd_topic : jstring
}.

Record WeaknessData := {
  wd_weakAreas : list jstring;
  wd_whyWeak : jstring;
  wd_nextActions : list jstring;
  wd_confidence : jstring
}.

Record Message := {
  role : Role;
  content : jstring;
  timestamp : Z;
  confidence : option jstring;
  askBackQuestion : option jstring;
  type : option MessageType;
  conceptData : option ConceptData;
  weaknessData : option WeaknessData
}.

Definition isUser (m : Message) : bool :=
  match role m with user => true | assistant => false end.

Definition isAssistant (m : Message) : bool :=
  match role m with assistant => true | user => false end.

Definition isNormal (m : Message) : bool :=
  match type m with Some normal => true | _ => false end.

Definition plain (r : Role) (text : jstring) (now : Z)
    (t : option MessageType) : Message :=
  {| role := r; content := text; timestamp := now; confidence := None;
     askBackQuestion := None; type := t; conceptData := None;
     weaknessData := None |}.

(** [{ role: 'user', content: input, timestamp: new Date() }] *)
Definition userMessage (input : jstring) (now : Z) : Message :=
  plain user input now None.

(** The notice of the [catch] blocks. *)
Definition errorText (message : jstring) : jstring :=
  js "Sorry, I encountered an error: " ++ message ++ js ". Please try again.".

Definition errorMessage (message : jstring) (now : Z) : Message :=
  plain assistant (errorText message) now (Some normal).

(** The notice of [handle2MinConcept] without a topic. *)
Definition noTopicMessage (now : Z) : Message :=
  plain assistant
    (js "Please type a topic or question first, then click " ++ [34%N]
     ++ js "Explain in 2 Minutes" ++ [34%N]) now (Some normal).

(** The assistant message a stream starts with. *)
Definition placeholderMessage (now : Z) : Message :=
  plain assistant [] now (Some normal).

Definition conceptMessage (data : ConceptData) (now : Z) : Message :=
  {| role := assistant; content := []; timestamp := now; confidence := None;
     askBackQuestion := None; type := Some concept;
     conceptData := Some data; weaknessData := None |}.

Definition weaknessMessage (data : WeaknessData) (now : Z) : Message :=
  {| role := assistant; content := []; timestamp := now; confidence := None;
     askBackQuestion := None; type := Some weakness;
     conceptData := None; weaknessData := Some data |}.

(** The assistant message of the page without streaming. *)
Definition parsedMessage (parsed : Parsed) (now : Z) : Message :=
  {| role := assistant; content := p_content parsed; timestamp := now;
     confidence := p_confidence parsed;
     askBackQuestion := p_askBackQuestion parsed; type := Some normal;
     conceptData := None; weaknessData := None |}.

(** [lastMsg.content = accumulatedContent] *)
Definition setContent (text : jstring) (m : Message) : Message :=
  {| role := role m; content := text; timestamp := timestamp m;
     confidence := confidence m; askBackQuestion := askBackQuestion m;
     type := type m; conceptData := conceptData m;
     weaknessData := weaknessData m |}.

(** The three assignments of the final update. *)
Definition setParsed (parsed : Parsed) (m : Message) : Message :=
  {| role := role m; content := p_content parsed; timestamp := timestamp m;
     confidence := p_confidence parsed;
     askBackQuestion := p_askBackQuestion parsed;
     type := type m; conceptData := conceptData m;
     weaknessData := weaknessData m |}.

(** The updater of a chunk, on message values:
    [[...prev]], then the last message gets the accumulated content when it
    is an assistant message of type normal.  [None] is the [TypeError] of
    reading [role] of [undefined], on an empty array. *)
Definition chunkUpdate (accumulatedContent : jstring) (prev : list Message)
  : option (list Message) :=
  match prev !! (length prev - 1)%nat with
  | None => None
  | Some lastMsg =>
      if isAssistant lastMsg && isNormal lastMsg
      then Some (<[(length prev - 1)%nat := setContent accumulatedContent lastMsg]> prev)
      else Some prev
  end.

(** The updater after the stream has ended. *)
Definition finalUpdate (parsed : Parsed) (prev : list Message)
  : option (list Message) :=
  match prev !! (length prev - 1)%nat with
  | None => None
  | Some lastMsg =>
      if isAssistant lastMsg
      then Some (<[(length prev - 1)%nat := setParsed parsed lastMsg]> prev)
      else Some prev
  end.

(** [analyzeIntent] *)
Inductive Intent := greeting | study | stress | command.

Definition greetingPatterns : list jstring :=
  js <$> ["hi"; "hello"; "hey"; "namaste"; "kaise ho"; "kya haal"; "sup"; "yo"]%string.
Definition commandPatterns : list jstring :=
  js <$> ["explain in 2 minutes"; "analyze"; "bana de"; "fix kar"; "short me"]%string.
Definition stressPatterns : list jstring :=
  js <$> ["samajh nahi"; "confused"; "darr"; "tension"; "yaad nahi"; "marks kam"]%string.

Definition analyzeIntent (text : jstring) : Intent :=
  let lowerText := toLowerCase text in
  if existsb (includes lowerText) greetingPatterns then greeting
  else if existsb (includes lowerText) commandPatterns then command
  else if existsb (includes lowerText) stressPatterns then stress
  else study.

(** *** The updater of a chunk on the object graph

    Messages are objects; the array holds references, and [[...prev]] copies
    the references, not the objects.  The assignment to [lastMsg.content]
    writes into the object the last slot refers to. *)
Definition chunkUpdateRef (accumulatedContent : jstring)
    (heap : gmap nat Message) (prev : list nat)
  : option (gmap nat Message * list nat) :=
  let newMessages := prev in
  match newMessages !! (length newMessages - 1)%nat with
  | None => None
  | Some ref =>
      match heap !! ref with
      | None => None
      | Some lastMsg =>
          if isAssistant lastMsg && isNormal lastMsg
          then Some (<[ref := setContent accumulatedContent lastMsg]> heap,
                     newMessages)
          else Some (heap, newMessages)
      end
  end.

(** The messages an array of references stands for. *)
Definition deref (heap : gmap nat Message) (arr : list nat)
  : option (list Message) := mapM (λ ref, heap !! ref) arr.

End Transcript.

(** ** The chat page with streaming ([ChatPage]) *)

Module ChatPage.
Import Transcript.
Local Open Scope Z_scope.

(** An invocation of an asynchronous handler that is suspended at an
    [await], with the local variables it resumes with. *)
Inductive Call :=
| SendAwaiting                                  (* before [fetch] resolves *)
| SendStreaming (accumulatedContent : jstring)  (* in the read loop *)
| SendSaving                                    (* after the final update *)
| ConceptAwaiting (topic : jstring)
| ConceptSaving
| WeaknessAwaiting
| WeaknessSaving.

(** The values of one render, which the handlers created by it close over. *)
Record Render := {
  r_messages : list Message;
  r_input : jstring;
  r_loading : bool
}.

(** The state of the component, the calls in flight and the timers set by
    [handleVoiceTranscript], each with the render its [handleSend] belongs
    to. *)
Record State := {
  messages : list Message;
  input : jstring;
  loading : bool;
  sessionIdRef : jstring;
  calls : list Call;
  timers : list Render
}.

Definition initial (sessionId : jstring) : State :=
  {| messages := []; input := []; loading := false;
     sessionIdRef := sessionId; calls := []; timers := [] |}.

Definition render (s : State) : Render :=
  {| r_messages := messages s; r_input := input s; r_loading := loading s |}.

Definition setMessages (f : list Message → list Message) (s : State) : State :=
  {| messages := f (messages s); input := input s; loading := loading s;
     sessionIdRef := sessionIdRef s; calls := calls s; timers := timers s |}.

Definition setInput (v : jstring) (s : State) : State :=
  {| messages := messages s; input := v; loading := loading s;
     sessionIdRef := sessionIdRef s; calls := calls s; timers := timers s |}.

Definition setLoading (b : bool) (s : State) : State :=
  {| messages := messages s; input := input s; loading := b;
     sessionIdRef := sessionIdRef s; calls := calls s; timers := timers s |}.

Definition setSessionId (sid : jstring) (s : State) : State :=
  {| messages := messages s; input := input s; loading := loading s;
     sessionIdRef := sid; calls := calls s; timers := timers s |}.

Definition setCalls (f : list Call → list Call) (s : State) : State :=
  {| messages := messages s; input := input s; loading := loading s;
     sessionIdRef := sessionIdRef s; calls := f (calls s); timers := timers s |}.

Definition setTimers (f : list Render → list Render) (s : State) : State :=
  {| messages := messages s; input := input s; loading := loading s;
     sessionIdRef := sessionIdRef s; calls := calls s; timers := f (timers s) |}.

(** [!input.trim()] *)
Definition blank (text : jstring) : bool := bool_decide (trim text = []).

(** The [disabled] attribute of the send button. *)
Definition submitDisabled (r : Render) : bool := r_loading r || blank (r_input r).

(** [handleSend] up to its first [await] that concerns the page: the guard,
    the user message, and the request that is now in flight.  [r] is the
    render the invoked [handleSend] belongs to. *)
Definition handleSend (r : Render) (now : Z) (s : State) : State :=
  if blank (r_input r) || r_loading r then s
  else
    setCalls (λ cs, cs ++ [SendAwaiting])
      (setLoading true
         (setInput []
            (setMessages (λ prev, prev ++ [userMessage (r_input r) now]) s))).

(** [handleVoiceTranscript]; [voiceText] is [processVoice(text).text]. *)
Definition handleVoiceTranscript (r : Render) (text voiceText : jstring)
    (s : State) : State :=
  if blank text then s
  else
    let s := setInput voiceText s in
    match analyzeIntent text with
    | greeting | command => setTimers (λ ts, ts ++ [r]) s
    | _ => s
    end.

(** The [catch] and [finally] blocks of the three handlers. *)
Definition failed (i : nat) (message : jstring) (now : Z) (s : State) : State :=
  setCalls (delete i)
    (setLoading false
       (setMessages (λ prev, prev ++ [errorMessage message now]) s)).

(** [finally] alone. *)
Definition settled (i : nat) (s : State) : State :=
  setCalls (delete i) (setLoading false s).

(** The response is there: the empty assistant message is appended and
    the read loop starts. *)
Definition sendOpened (i : nat) (now : Z) (s : State) : State :=
  setCalls (λ cs, <[i := SendStreaming []]> cs)
    (setMessages (λ prev, prev ++ [placeholderMessage now]) s).

(** One turn of the read loop with [done] false; [chunkValue] is what
    [decoder.decode(value, { stream: true })] returns. *)
Definition sendChunk (i : nat) (accumulatedContent chunkValue : jstring)
    (s : State) : option State :=
  let accumulatedContent := accumulatedContent ++ chunkValue in
  newMessages ← chunkUpdate accumulatedContent (messages s);
  Some (setCalls (λ cs, <[i := SendStreaming accumulatedContent]> cs)
          (setMessages (λ _, newMessages) s)).

(** The last turn of the read loop ([done] true, no value: the decoder
    returns the empty string) and the final update from the parsed text. *)
Definition sendDone (i : nat) (accumulatedContent : jstring) (now : Z)
    (s : State) : option State :=
  let accumulatedContent := accumulatedContent ++ [] in
  newMessages ← chunkUpdate accumulatedContent (messages s);
  match parseAIResponse accumulatedContent with
  | Thrown e => Some (failed i e now (setMessages (λ _, newMessages) s))
  | Ret parsed =>
      newMessages ← finalUpdate parsed newMessages;
      Some (setCalls (λ cs, <[i := SendSaving]> cs)
              (setMessages (λ _, newMessages) s))
  end.

(** [lastUserMessage?.content || 'current topic'] *)
Definition topicOf (r : Render) : jstring :=
  let topic := trim (r_input r) in
  if bool_decide (topic = []) && negb (bool_decide (r_messages r = []))
  then
    match find isUser (reverse (r_messages r)) with
    | Some m => if bool_decide (content m = []) then js "current topic" else content m
    | None => js "current topic"
    end
  else topic.

(** [handle2MinConcept] up to its [fetch]. *)
Definition handle2MinConcept (r : Render) (now : Z) (s : State) : State :=
  let topic := topicOf r in
  if bool_decide (topic = []) then
    setMessages (λ prev, prev ++ [noTopicMessage now]) s
  else if r_loading r then s
  else setCalls (λ cs, cs ++ [ConceptAwaiting topic]) (setLoading true s).

(** [handleWeaknessAnalysis] up to its [fetch]. *)
Definition handleWeaknessAnalysis (r : Render) (s : State) : State :=
  if r_loading r || bool_decide (r_messages r = []) then s
  else setCalls (λ cs, cs ++ [WeaknessAwaiting]) (setLoading true s).

(** [loadUserMemory] from the answer of its query on; [recentMessages] are
    the rows of type chat, newest first. *)
Definition loadUserMemory (recentMessages : list Message) (s : State) : State :=
  if bool_decide (recentMessages = []) then s
  else setMessages (λ _, reverse recentMessages) s.

(** The callback given to the reset hook. *)
Definition onReset (st_input : jstring) (st_messages : list Message)
    (s : State) : State :=
  setMessages (λ _, st_messages) (setInput st_input s).

(** [handleNewChat]; [sid] is the identifier [getOrCreateSessionId] makes
    after [clearSessionId]. *)
Definition handleNewChat (sid : jstring) (s : State) : State :=
  setSessionId sid (setInput [] (setMessages (λ _, []) s)).

(** Modelled from the spec: [reset] of the hook [useResetWithUndo], as far
    as the page sees it (the hook is not part of the sources at hand): it
    invokes the [onReset] callback with the new value (specification, 4.2). *)
Definition resetChat (st_input : jstring) (st_messages : list Message)
    (s : State) : State := onReset st_input st_messages s.

(** [handleResetChat]: [resetChat({ input: '', messages: [] })], then the
    session identifier rotates. *)
Definition handleResetChat (sid : jstring) (s : State) : State :=
  setSessionId sid (resetChat [] [] s).

(** [handleResetInput]: [resetChat({ input: '', messages: [...messages] })]. *)
Definition handleResetInput (r : Render) (s : State) : State :=
  resetChat [] (r_messages r) s.

Inductive Event :=
| Typed (text : jstring)
| Submit (now : Z)
| VoiceTranscript (text voiceText : jstring)
| TimerFires (i : nat) (now : Z)
| SendOpened (i : nat) (now : Z)
| SendChunk (i : nat) (chunkValue : jstring)
| SendDone (i : nat) (now : Z)
| SendFailed (i : nat) (message : jstring) (now : Z)
| Concept (now : Z)
| ConceptOk (i : nat) (concept example takeaway : jstring) (now : Z)
| ConceptFailed (i : nat) (message : jstring) (now : Z)
| Weakness
| WeaknessOk (i : nat) (data : WeaknessData) (now : Z)
| WeaknessFailed (i : nat) (message : jstring) (now : Z)
| Settled (i : nat)
| NewChat (sid : jstring)
| ResetChat (sid : jstring)
| ResetInput
| UndoCallback (st_input : jstring) (st_messages : list Message)
| MemoryLoaded (recentMessages : list Message).

(** One step of the page.  A handler started from the user interface
    belongs to the latest render; the handler of a timer belongs to the
    render that set the timer.  [None]: the event cannot happen in this
    state, or an updater has thrown and the error boundary has replaced
    the page. *)
Definition step (s : State) (e : Event) : option State :=
  match e with
  | Typed text => Some (setInput text s)
  | Submit now => Some (handleSend (render s) now s)
  | VoiceTranscript text voiceText =>
      Some (handleVoiceTranscript (render s) text voiceText s)
  | TimerFires i now =>
      r ← timers s !! i;
      Some (handleSend r now (setTimers (delete i) s))
  | SendOpened i now =>
      match calls s !! i with
      | Some SendAwaiting => Some (sendOpened i now s)
      | _ => None
      end
  | SendChunk i chunkValue =>
      match calls s !! i with
      | Some (SendStreaming acc) => sendChunk i acc chunkValue s
      | _ => None
      end
  | SendDone i now =>
      match calls s !! i with
      | Some (SendStreaming acc) => sendDone i acc now s
      | _ => None
      end
  | SendFailed i message now =>
      match calls s !! i with
      | Some SendAwaiting | Some (SendStreaming _) | Some SendSaving =>
          Some (failed i message now s)
      | _ => None
      end
  | Concept now => Some (handle2MinConcept (render s) now s)
  | ConceptOk i c ex t now =>
      match calls s !! i with
      | Some (ConceptAwaiting topic) =>
          Some (setCalls (λ cs, <[i := ConceptSaving]> cs)
                  (setMessages
                     (λ prev, prev ++
                        [conceptMessage
                           {| cd_concept := c; cd_example := ex;
                              cd_takeaway := t; cd_topic := topic |} now]) s))
      | _ => None
      end
  | ConceptFailed i message now =>
      match calls s !! i with
      | Some (ConceptAwaiting _) | Some ConceptSaving =>
          Some (failed i message now s)
      | _ => None
      end
  | Weakness => Some (handleWeaknessAnalysis (render s) s)
  | WeaknessOk i data now =>
      match calls s !! i with
      | Some WeaknessAwaiting =>
          Some (setCalls (λ cs, <[i := WeaknessSaving]> cs)
                  (setMessages (λ prev, prev ++ [weaknessMessage data now]) s))
      | _ => None
      end
  | WeaknessFailed i message now =>
      match calls s !! i with
      | Some WeaknessAwaiting | Some WeaknessSaving =>
          Some (failed i message now s)
      | _ => None
      end
  | Settled i =>
      match calls s !! i with
      | Some SendSaving | Some ConceptSaving | Some WeaknessSaving =>
          Some (settled i s)
      | _ => None
      end
  | NewChat sid => Some (handleNewChat sid s)
  | ResetChat sid => Some (handleResetChat sid s)
  | ResetInput => Some (handleResetInput (render s) s)
  | UndoCallback i m => Some (onReset i m s)
  | MemoryLoaded recentMessages => Some (loadUserMemory recentMessages s)
  end.

Fixpoint run (s : State) (es : list Event) : option State :=
  match es with
  | [] => Some s
  | e :: es' => s' ← step s e; run s' es'
  end.

Definition fromTimer (e : Event) : bool :=
  match e with TimerFires _ _ => true | _ => false end.

(** The whole of [handleSend] when nothing else happens in between: the
    response opens, the chunks arrive in order, the stream ends. *)
Definition sendAndStream (now opened ended : Z) (chunks : list jstring)
  : list Event :=
  Submit now :: SendOpened 0 opened :: (SendChunk 0 <$> chunks) ++ [SendDone 0 ended].

(** No call in flight, or exactly one and [loading] set. *)
Definition oneCall (s : State) : Prop :=
  calls s = [] ∨ (loading s = true ∧ length (calls s) = 1%nat).

(** The page while that stream is read, with [acc] accumulated so far,
    and after it has ended, from the state [s] the send started in. *)
Definition streaming (s : State) (now opened : Z) (acc : jstring) : State :=
  {| messages :=
       messages s ++ [userMessage (input s) now;
                      setContent acc (placeholderMessage opened)];
     input := []; loading := true; sessionIdRef := sessionIdRef s;
     calls := [SendStreaming acc]; timers := timers s |}.

Definition streamed (s : State) (now opened : Z) (parsed : Parsed) : State :=
  {| messages :=
       messages s ++ [userMessage (input s) now;
                      setParsed parsed (placeholderMessage opened)];
     input := []; loading := true; sessionIdRef := sessionIdRef s;
     calls := [SendSaving]; timers := timers s |}.

End ChatPage.

(** ** The chat page with history ([ChatPageWithHistory]) *)

Module HistoryPage.
Import Transcript.
Local Open Scope Z_scope.

(** What the page gets from its context: the signed-in user, and whether
    the Supabase client exists. *)
Record Env := { user : option jstring; supabase : bool }.

(** A suspended invocation.  A [SendAwaiting] call remembers the session
    identifier that was current when its request was sent; the handler
    itself keeps no such value. *)
Inductive Call :=
| SendAwaiting (sentIn : jstring)
| ConceptAwaiting (topic : jstring)
| WeaknessAwaiting
| LoadAwaiting (sessionId : jstring)
| TitleAwaiting.

Record State := {
  messages : list Message;
  input : jstring;
  loading : bool;
  currentSessionId : jstring;
  currentTitle : jstring;
  hasGeneratedTitle : bool;
  calls : list Call;
  (** the arguments of the invocations of [generateTitle], oldest first *)
  titleCalls : list (jstring * Z)
}.

Definition initial (sessionId : jstring) : State :=
  {| messages := []; input := []; loading := false;
     currentSessionId := sessionId; currentTitle := js "New Chat";
     hasGeneratedTitle := false; calls := []; titleCalls := [] |}.

Definition setMessages (f : list Message → list Message) (s : State) : State :=
  {| messages := f (messages s); input := input s; loading := loading s;
     currentSessionId := currentSessionId s; currentTitle := currentTitle s;
     hasGeneratedTitle := hasGeneratedTitle s; calls := calls s;
     titleCalls := titleCalls s |}.

Definition setInput (v : jstring) (s : State) : State :=
  {| messages := messages s; input := v; loading := loading s;
     currentSessionId := currentSessionId s; currentTitle := currentTitle s;
     hasGeneratedTitle := hasGeneratedTitle s; calls := calls s;
     titleCalls := titleCalls s |}.

Definition setLoading (b : bool) (s : State) : State :=
  {| messages := messages s; input := input s; loading := b;
     currentSessionId := currentSessionId s; currentTitle := currentTitle s;
     hasGeneratedTitle := hasGeneratedTitle s; calls := calls s;
     titleCalls := titleCalls s |}.

Definition setCurrentSessionId (sid : jstring) (s : State) : State :=
  {| messages := messages s; input := input s; loading := loading s;
     currentSessionId := sid; currentTitle := currentTitle s;
     hasGeneratedTitle := hasGeneratedTitle s; calls := calls s;
     titleCalls := titleCalls s |}.

Definition setCurrentTitle (t : jstring) (s : State) : State :=
  {| messages := messages s; input := input s; loading := loading s;
     currentSessionId := currentSessionId s; currentTitle := t;
     hasGeneratedTitle := hasGeneratedTitle s; calls := calls s;
     titleCalls := titleCalls s |}.

(** [hasGeneratedTitle.current = b] *)
Definition setFlag (b : bool) (s : State) : State :=
  {| messages := messages s; input := input s; loading := loading s;
     currentSessionId := currentSessionId s; currentTitle := currentTitle s;
     hasGeneratedTitle := b; calls := calls s; titleCalls := titleCalls s |}.

Definition setCalls (f : list Call → list Call) (s : State) : State :=
  {| messages := messages s; input := input s; loading := loading s;
     currentSessionId := currentSessionId s; currentTitle := currentTitle s;
     hasGeneratedTitle := hasGeneratedTitle s; calls := f (calls s);
     titleCalls := titleCalls s |}.

Definition logTitleCall (text : jstring) (maxWords : Z) (s : State) : State :=
  {| messages := messages s; input := input s; loading := loading s;
     currentSessionId := currentSessionId s; currentTitle := currentTitle s;
     hasGeneratedTitle := hasGeneratedTitle s; calls := calls s;
     titleCalls := titleCalls s ++ [(text, maxWords)] |}.

Definition blank (text : jstring) : bool := bool_decide (trim text = []).

(** [autoGenerateTitle] up to the invocation of [generateTitle]. *)
Definition autoGenerateTitle (env : Env) (s : State) : State :=
  if negb (bool_decide (is_Some (user env))) || negb (supabase env)
     || bool_decide (length (messages s) < 2)%nat
  then s
  else
    match find isUser (messages s) with
    | None => s
    | Some firstUserMessage =>
        setCalls (λ cs, cs ++ [TitleAwaiting])
          (logTitleCall (content firstUserMessage) 7 s)
    end.

(** The effect on [[messages]] that generates the title. *)
Definition titleEffect (env : Env) (s : State) : State :=
  if bool_decide (2 ≤ length (messages s))%nat && negb (hasGeneratedTitle s)
     && bool_decide (is_Some (user env))
  then autoGenerateTitle env (setFlag true s)
  else s.

(** A [setMessages] call, the render it causes and the effects of that
    render on the state modelled here. *)
Definition updateMessages (env : Env) (f : list Message → list Message)
    (s : State) : State := titleEffect env (setMessages f s).

Definition updateAll (env : Env) (s : State)
    (fs : list (list Message → list Message)) : State :=
  foldl (λ s f, updateMessages env f s) s fs.

(** The effect on [[user, currentSessionId]]: [loadCurrentSession] up to
    its query. *)
Definition loadCurrentSession (env : Env) (sid : jstring) (s : State) : State :=
  if negb (bool_decide (is_Some (user env))) || negb (supabase env) then s
  else setCalls (λ cs, cs ++ [LoadAwaiting sid]) s.

(** [handleSend] up to its [fetch]. *)
Definition handleSend (now : Z) (s : State) : State :=
  if blank (input s) || loading s then s
  else
    setCalls (λ cs, cs ++ [SendAwaiting (currentSessionId s)])
      (setLoading true
         (setInput []
            (setMessages (λ prev, prev ++ [userMessage (input s) now]) s))).

(** [handleSend] from [data.response] on. *)
Definition sendArrived (i : nat) (response : jstring) (now : Z) (s : State)
  : State :=
  setCalls (delete i)
    (setLoading false
       (setMessages
          (λ prev, prev ++
             [match parseAIResponse response with
              | Ret parsed => parsedMessage parsed now
              | Thrown e => errorMessage e now
              end]) s)).

(** The [catch] and [finally] blocks. *)
Definition failed (i : nat) (message : jstring) (now : Z) (s : State) : State :=
  setCalls (delete i)
    (setLoading false
       (setMessages (λ prev, prev ++ [errorMessage message now]) s)).

(** The rotation shared by [handleNewChat], [handleResetChat] and
    [handleDeleteAllChats], after their [await]s; [sid] is the fresh
    identifier. *)
Definition rotate (sid : jstring) (s : State) : State :=
  setFlag false
    (setCurrentTitle (js "New Chat")
       (setInput [] (setMessages (λ _, []) (setCurrentSessionId sid s)))).

Definition handleNewChat := rotate.
Definition handleResetChat := rotate.
Definition handleDeleteAllChats := rotate.

(** [handleSelectChat], after saving: its own [loadCurrentSession] is the
    one of the render before the switch. *)
Definition handleSelectChat (env : Env) (sid title : jstring) (s : State)
  : State :=
  loadCurrentSession env (currentSessionId s)
    (setFlag true (setCurrentTitle title (setCurrentSessionId sid s))).

(** [loadCurrentSession] from the answer of the query on: a record with
    its messages and title, or none. *)
Definition loaded (i : nat) (item : option (list Message * jstring))
    (s : State) : State :=
  setCalls (delete i)
    match item with
    | Some (ms, title) =>
        setFlag (negb (bool_decide (title = [])))
          (setCurrentTitle (if bool_decide (title = []) then js "Untitled Chat" else title)
             (setMessages (λ _, ms) s))
    | None =>
        setFlag false (setCurrentTitle (js "New Chat") (setMessages (λ _, []) s))
    end.

Definition topicOf (s : State) : jstring :=
  let topic := trim (input s) in
  if bool_decide (topic = []) && negb (bool_decide (messages s = []))
  then
    match find isUser (reverse (messages s)) with
    | Some m => if bool_decide (content m = []) then js "current topic" else content m
    | None => js "current topic"
    end
  else topic.

Definition handle2MinConcept (now : Z) (s : State) : State :=
  let topic := topicOf s in
  if bool_decide (topic = []) then
    setMessages (λ prev, prev ++ [noTopicMessage now]) s
  else if loading s then s
  else setCalls (λ cs, cs ++ [ConceptAwaiting topic]) (setLoading true s).

Definition handleWeaknessAnalysis (s : State) : State :=
  if loading s || bool_decide (messages s = []) then s
  else setCalls (λ cs, cs ++ [WeaknessAwaiting]) (setLoading true s).

Inductive Event :=
| Typed (text : jstring)
| Submit (now : Z)
| SendOk (i : nat) (response : jstring) (now : Z)
| SendFailed (i : nat) (message : jstring) (now : Z)
| Concept (now : Z)
| ConceptOk (i : nat) (concept example takeaway : jstring) (now : Z)
| ConceptFailed (i : nat) (message : jstring) (now : Z)
| Weakness
| WeaknessOk (i : nat) (data : WeaknessData) (now : Z)
| WeaknessFailed (i : nat) (message : jstring) (now : Z)
| NewChat (sid : jstring)
| ResetChat (sid : jstring)
| DeleteAllChats (sid : jstring)
| SelectChat (sid title : jstring)
| Loaded (i : nat) (item : option (list Message * jstring))
| TitleGenerated (i : nat) (title : jstring).

(** The effects of the render after a handler: the one on
    [[user, currentSessionId]] when the identifier has changed, the one on
    [[messages]] when [setMessages] has been called. *)
Definition effects (env : Env) (before : State) (messagesSet : bool)
    (s : State) : State :=
  let s :=
    if bool_decide (currentSessionId s = currentSessionId before) then s
    else loadCurrentSession env (currentSessionId s) s in
  if messagesSet then titleEffect env s else s.

(** One step of the page; the handlers belong to the latest render.  The
    page has the same [handleVoiceTranscript] and auto-send timer as the
    streaming page; they are left out of this model.  [None]: the event
    cannot happen in this state. *)
Definition step (env : Env) (s : State) (e : Event) : option State :=
  match e with
  | Typed text => Some (setInput text s)
  | Submit now =>
      Some (effects env s (negb (blank (input s) || loading s)) (handleSend now s))
  | SendOk i response now =>
      match calls s !! i with
      | Some (SendAwaiting _) => Some (effects env s true (sendArrived i response now s))
      | _ => None
      end
  | SendFailed i message now =>
      match calls s !! i with
      | Some (SendAwaiting _) => Some (effects env s true (failed i message now s))
      | _ => None
      end
  | Concept now =>
      Some (effects env s (bool_decide (topicOf s = [])) (handle2MinConcept now s))
  | ConceptOk i c ex t now =>
      match calls s !! i with
      | Some (ConceptAwaiting topic) =>
          Some (effects env s true
                  (setCalls (delete i)
                     (setLoading false
                        (setMessages
                           (λ prev, prev ++
                              [conceptMessage
                                 {| cd_concept := c; cd_example := ex;
                                    cd_takeaway := t; cd_topic := topic |} now])
                           s))))
      | _ => None
      end
  | ConceptFailed i message now =>
      match calls s !! i with
      | Some (ConceptAwaiting _) => Some (effects env s true (failed i message now s))
      | _ => None
      end
  | Weakness => Some (handleWeaknessAnalysis s)
  | WeaknessOk i data now =>
      match calls s !! i with
      | Some WeaknessAwaiting =>
          Some (effects env s true
                  (setCalls (delete i)
                     (setLoading false
                        (setMessages (λ prev, prev ++ [weaknessMessage data now]) s))))
      | _ => None
      end
  | WeaknessFailed i message now =>
      match calls s !! i with
      | Some WeaknessAwaiting => Some (effects env s true (failed i message now s))
      | _ => None
      end
  | NewChat sid => Some (effects env s true (handleNewChat sid s))
  | ResetChat sid => Some (effects env s true (handleResetChat sid s))
  | DeleteAllChats sid => Some (effects env s true (handleDeleteAllChats sid s))
  | SelectChat sid title => Some (effects env s false (handleSelectChat env sid title s))
  | Loaded i item =>
      match calls s !! i with
      | Some (LoadAwaiting _) => Some (effects env s true (loaded i item s))
      | _ => None
      end
  | TitleGenerated i title =>
      match calls s !! i with
      | Some TitleAwaiting => Some (setCalls (delete i) (setCurrentTitle title s))
      | _ => None
      end
  end.

Fixpoint run (env : Env) (s : State) (es : list Event) : option State :=
  match es with
  | [] => Some s
  | e :: es' => s' ← step env s e; run env s' es'
  end.

(** The events that assign [hasGeneratedTitle.current]. *)
Definition assignsFlag (e : Event) : bool :=
  match e with
  | NewChat _ | ResetChat _ | DeleteAllChats _ | SelectChat _ _ | Loaded _ _ => true
  | _ => false
  end.

(** The invocations of [generateTitle] so far, and the one the flag still
    allows. *)
Definition titleBudget (s : State) : nat :=
  (length (titleCalls s) + if hasGeneratedTitle s then 0 else 1)%nat.

End HistoryPage.

(** ** Scenarios *)

Module Scenario.
Import Routes.
Local Open Scope Z_scope.

(** A server in UTC at noon of 2 November 2026, which reads two dates. *)
Definition clock : Clock :=
  {| now := 1793620800000;
     dateOf := λ v,
       match v with
       | JStr s =>
           if bool_decide (s = js "2026-11-03") then Some 1793664000000
           else if bool_decide (s = js "2026-11-01") then Some 1793491200000
           else None
       | _ => None
       end;
     startOfLocalDay := utcStartOfDay |}.

(** The same instant and dates on a server five hours west of UTC. *)
Definition clockWest : Clock :=
  {| now := now clock;
     dateOf := dateOf clock;
     startOfLocalDay := λ t, utcStartOfDay (t - 18000000) + 18000000 |}.

Definition examRequest (date : string) : ExamRequest :=
  {| examName := JStr (js "JEE"); examDate := JStr (js date);
     subjects := JStr (js "Math,Physics"); dailyHours := JStr (js "3") |}.

Definition planner (p : ExamPrompt) : completion jstring :=
  Ret (js "Day 1: Math").

(** A signed-in user with Supabase configured. *)
Definition signedIn : HistoryPage.Env :=
  {| HistoryPage.user := Some (js "u1"); HistoryPage.supabase := true |}.

(** A send, a new chat while the request is in flight, then the reply. *)
Definition rotationTrace : list HistoryPage.Event :=
  [HistoryPage.Typed (js "hi"); HistoryPage.Submit 1;
   HistoryPage.NewChat (js "chat-2"); HistoryPage.SendOk 0 (js "hello") 2].

(** The page after that rotation, with the request still in flight. *)
Definition rotated : HistoryPage.State :=
  {| HistoryPage.messages := []; HistoryPage.input := [];
     HistoryPage.loading := true;
     HistoryPage.currentSessionId := js "chat-2";
     HistoryPage.currentTitle := js "New Chat";
     HistoryPage.hasGeneratedTitle := false;
     HistoryPage.calls := [HistoryPage.SendAwaiting (js "chat-1");
                           HistoryPage.LoadAwaiting (js "chat-2")];
     HistoryPage.titleCalls := [] |}.

(** Two clicks on the concept button with nothing typed, the answer, and
    then an ordinary exchange. *)
Definition noUserMessageTrace : list HistoryPage.Event :=
  [HistoryPage.Concept 1; HistoryPage.Concept 2;
   HistoryPage.ConceptOk 0 (js "c") (js "e") (js "t") 3;
   HistoryPage.Typed (js "what is a cell"); HistoryPage.Submit 4;
   HistoryPage.SendOk 0 (js "A cell is a unit of life.") 5].

(** Text in the input, a voice transcript that sets the auto-send timer,
    a send from the keyboard before the timer fires, then the timer. *)
Definition staleTimerTrace : list ChatPage.Event :=
  [ChatPage.Typed (js "hello"); ChatPage.VoiceTranscript (js "hi") (js "hi");
   ChatPage.Submit 1; ChatPage.TimerFires 0 2].

(** A page with one exchange, and a message typed. *)
Definition oneExchange : ChatPage.State :=
  {| ChatPage.messages :=
       [Transcript.userMessage (js "hi") 1;
        Transcript.plain Transcript.assistant (js "hello") 2
          (Some Transcript.normal)];
     ChatPage.input := js "explain photosynthesis";
     ChatPage.loading := false; ChatPage.sessionIdRef := js "s1";
     ChatPage.calls := []; ChatPage.timers := [] |}.

(** Three objects, the array that holds them, and the last one being an
    assistant message of type normal. *)
Definition heap3 : gmap nat Transcript.Message :=
  <[2%nat := Transcript.placeholderMessage 3]>
    (<[1%nat := Transcript.userMessage (js "why") 2]>
       (<[0%nat := Transcript.errorMessage (js "x") 1]> ∅)).

(** A server clock on which [new Date] reads no value as a date. *)
Definition clockNoDate : Routes.Clock :=
  {| now := now clock; dateOf := λ _, None; startOfLocalDay := utcStartOfDay |}.

End Scenario.

(** ** The form pages ([ExamPlannerPage], [CareerPage]) *)

Module FormPages.
Import Routes.
Local Open Scope Z_scope.

(** [data.error] of a parsed response body; a missing field is undefined. *)
Definition errorField (b : Body) : JsVal :=
match b with
| ErrorBody e => JStr e
| _ => JUndefined
end.

(** [data.plan] *)
Definition planField (b : Body) : JsVal :=
match b with
| PlanBody p => JStr p
| _ => JUndefined
end.

(** [data.roadmap] *)
Definition roadmapField (b : Body) : JsVal :=
match b with
| RoadmapBody r => JStr r
| _ => JUndefined
end.

Record PlannerForm := {
  pf_examName : jstring;
  pf_examDate : jstring;
  pf_subjects : jstring;
  pf_dailyHours : jstring
}.

(** The state of [ExamPlannerPage]; [setStudyPlan(data.plan)] can store an
    undefined value, so the plan is a JavaScript value. *)
Record PlannerState := {
  formData : PlannerForm;
  loading : bool;
  studyPlan : JsVal;
  error : jstring
}.

Definition plannerInitial : PlannerState :=
{| formData := {| pf_examName := []; pf_examDate := []; pf_subjects := [];
                  pf_dailyHours := js "2" |};
   loading := false; studyPlan := JStr []; error := [] |}.

(** The body [JSON.stringify(formData)], as the route destructures it. *)
Definition plannerRequest (f : PlannerForm) : ExamRequest :=
{| examName := JStr (pf_examName f); examDate := JStr (pf_examDate f);
   subjects := JStr (pf_subjects f); dailyHours := JStr (pf_dailyHours f) |}.

(** [handleSubmit] of the exam planner up to its [fetch]. *)
Definition plannerSubmit (s : PlannerState) : PlannerState :=
{| formData := formData s; loading := true; studyPlan := JStr []; error := [] |}.

(** [handleSubmit] of the exam planner from [response.json()] on: a truthy
    [data.error] is thrown and caught, otherwise the plan is stored. *)
Definition plannerSettle (r : Response) (s : PlannerState) : PlannerState :=
match errorField (body r) with
| JStr (c :: e) =>
    {| formData := formData s; loading := false; studyPlan := studyPlan s;
       error := messageOr (c :: e) (js "Failed to generate study plan") |}
| _ =>
    {| formData := formData s; loading := false;
       studyPlan := planField (body r); error := error s |}
end.

(** The answer of the route to the request a submit sends. *)
Definition plannerResponse (supabase : Supabase) (clock : Clock)
    (getChatCompletion : ExamPrompt → completion jstring) (s : PlannerState)
  : Response :=
examPlannerPOST supabase clock getChatCompletion (plannerRequest (formData s)).

(** A submit of the exam planner and the answer of its route. *)
Definition plannerRoundTrip (supabase : Supabase) (clock : Clock)
    (getChatCompletion : ExamPrompt → completion jstring) (s : PlannerState)
  : PlannerState :=
plannerSettle (plannerResponse supabase clock getChatCompletion s)
  (plannerSubmit s).

(** The [required] attribute of the four inputs of the form. *)
Definition plannerFilled (f : PlannerForm) : Prop :=
pf_examName f ≠ [] ∧ pf_examDate f ≠ [] ∧ pf_subjects f ≠ []
∧ pf_dailyHours f ≠ [].

Record CareerForm := {
  cf_currentEducation : jstring;
  cf_interests : jstring;
  cf_strengths : jstring;
  cf_goals : jstring
}.

Record CareerState := {
  c_formData : CareerForm;
  c_loading : bool;
  c_roadmap : JsVal;
  c_error : jstring
}.

Definition careerRequest (f : CareerForm) : CareerRequest :=
{| currentEducation := JStr (cf_currentEducation f);
   interests := JStr (cf_interests f); strengths := JStr (cf_strengths f);
   goals := JStr (cf_goals f) |}.

(** [handleSubmit] of the career page up to its [fetch]. *)
Definition careerSubmit (s : CareerState) : CareerState :=
{| c_formData := c_formData s; c_loading := true; c_roadmap := JStr [];
   c_error := [] |}.

(** [handleSubmit] of the career page from [response.json()] on.  After
    the roadmap is stored the two inserts into [user_memory] are awaited
    inside the [try]; [saved] is their outcome (they are skipped, and
    [saved] is not looked at, without a user or a client). *)
Definition careerSettle (r : Response) (signedIn : bool)
    (saved : completion unit) (s : CareerState) : CareerState :=
match errorField (body r) with
| JStr (c :: e) =>
    {| c_formData := c_formData s; c_loading := false; c_roadmap := c_roadmap s;
       c_error := messageOr (c :: e) (js "Failed to generate roadmap") |}
| _ =>
    {| c_formData := c_formData s; c_loading := false;
       c_roadmap := roadmapField (body r);
       c_error := match signedIn, saved with
                  | true, Thrown e => messageOr e (js "Failed to generate roadmap")
                  | _, _ => c_error s
                  end |}
end.

Definition careerResponse (supabase : Supabase)
    (getChatCompletion : CareerRequest → completion jstring) (s : CareerState)
  : Response :=
careerPOST supabase getChatCompletion (careerRequest (c_formData s)).

Definition careerRoundTrip (supabase : Supabase)
    (getChatCompletion : CareerRequest → completion jstring)
    (signedIn : bool) (saved : completion unit) (s : CareerState) : CareerState :=
careerSettle (careerResponse supabase getChatCompletion s) signedIn saved
  (careerSubmit s).

(** The [required] attribute of the three inputs that carry it. *)
Definition careerFilled (f : CareerForm) : Prop :=
cf_currentEducation f ≠ [] ∧ cf_interests f ≠ [] ∧ cf_strengths f ≠ [].

End FormPages.

(** ** The history list of the profile ([ProfileHistory]) *)

Module ProfileHistory.

Inductive ModuleType := chat | notes | career | exam_planner | confusion.

Record HistoryItem := {
  id : jstring;
  session_id : jstring;
  module_type : ModuleType;
  title : jstring
}.

Record State := {
  history : list HistoryItem;
  selectedItems : list jstring;
  selectAll : bool
}.

Definition moduleEq (a b : ModuleType) : bool :=
match a, b with
| chat, chat | notes, notes | career, career
| exam_planner, exam_planner | confusion, confusion => true
| _, _ => false
end.

(** [selectedItems.includes(sessionId)] *)
Definition isSelected (sel : list jstring) (sessionId : jstring) : bool :=
bool_decide (sessionId ∈ sel).

Definition handleSelectAll (s : State) : State :=
if selectAll s
then {| history := history s; selectedItems := []; selectAll := false |}
else {| history := history s;
        selectedItems := session_id <$> history s; selectAll := true |}.

Definition handleToggleSelect (sessionId : jstring) (s : State) : State :=
if isSelected (selectedItems s) sessionId
then
  let newSelected :=
    filter (λ x, x ≠ sessionId) (selectedItems s) in
  {| history := history s; selectedItems := newSelected;
     selectAll := bool_decide (length newSelected = length (history s))
                  && bool_decide (0 < length (history s))%nat |}
else
  let newSelected := selectedItems s ++ [sessionId] in
  {| history := history s; selectedItems := newSelected;
     selectAll := bool_decide (length newSelected = length (history s)) |}.

(** [handleDeleteItem] after [deleteSession] has answered. *)
Definition deleteItemDone (sessionId : jstring) (success : bool) (s : State)
  : State :=
if success
then {| history := filter (λ item, session_id item ≠ sessionId) (history s);
        selectedItems := selectedItems s; selectAll := selectAll s |}
else s.

(** [handleClearModule] after [deleteAllHistoryByModule] has answered. *)
Definition clearModuleDone (moduleType : ModuleType) (success : bool)
    (s : State) : State :=
if success
then {| history :=
          filter (λ item, moduleEq (module_type item) moduleType = false)
            (history s);
        selectedItems := []; selectAll := false |}
else s.

(** [handleDeleteSelected] after [Promise.all]: [selected] is the selection
    of the render the handler belongs to, [results] the answers of
    [deleteSession], one for each selected session. *)
Definition deleteSelectedDone (selected : list jstring) (results : list bool)
    (s : State) : State :=
if forallb (λ ok : bool, ok) results
then {| history :=
          filter (λ item, isSelected selected (session_id item) = false)
            (history s);
        selectedItems := []; selectAll := false |}
else s.

(** [handleResetAllHistory] after [Promise.all]. *)
Definition resetAllDone (results : list bool) (s : State) : State :=
if forallb (λ ok : bool, ok) results
then {| history := []; selectedItems := []; selectAll := false |}
else s.

(** [loadHistory] from the answer of [getAllHistory] on. *)
Definition loadHistoryDone (items : list HistoryItem) (s : State) : State :=
{| history := items; selectedItems := selectedItems s; selectAll := selectAll s |}.

Inductive Event :=
| Loaded (items : list HistoryItem)
| SelectAll
| Toggle (sessionId : jstring)
| DeleteSelectedDone (selected : list jstring) (results : list bool)
| ClearModuleDone (moduleType : ModuleType) (success : bool)
| ResetAllDone (results : list bool)
| DeleteItemDone (sessionId : jstring) (success : bool).

(** One step of the list.  The select-all box is rendered only over a
    non-empty list, and an item's box only for a listed item;
    [handleDeleteSelected] returns at once without a selection, and
    [Promise.all] gives one answer for each request. *)
Definition step (s : State) (e : Event) : option State :=
match e with
| Loaded items => Some (loadHistoryDone items s)
| SelectAll =>
    if bool_decide (history s = []) then None else Some (handleSelectAll s)
| Toggle sessionId =>
    if bool_decide (sessionId ∈ session_id <$> history s)
    then Some (handleToggleSelect sessionId s) else None
| DeleteSelectedDone selected results =>
    if bool_decide (selected = [])
       || negb (bool_decide (length results = length selected))
    then None else Some (deleteSelectedDone selected results s)
| ClearModuleDone m success => Some (clearModuleDone m success s)
| ResetAllDone results =>
    if bool_decide (length results = 5%nat)
    then Some (resetAllDone results s) else None
| DeleteItemDone sessionId success => Some (deleteItemDone sessionId success s)
end.

Fixpoint run (s : State) (es : list Event) : option State :=
match es with
| [] => Some s
| e :: es' => s' ← step s e; run s' es'
end.

(** The events that change the list and leave the selection as it is. *)
Definition leavesSelection (e : Event) : bool :=
match e with
| Loaded _ | DeleteItemDone _ _ => true
| _ => false
end.

(** Every selected session is listed, no session is selected twice, and
    the select-all box is checked exactly when every listed item is
    selected. *)
Definition consistent (s : State) : Prop :=
NoDup (session_id <$> history s)
∧ NoDup (selectedItems s)
∧ selectedItems s ⊆ session_id <$> history s
∧ (selectAll s = true ↔
   history s ≠ [] ∧ ∀ item, item ∈ history s → session_id item ∈ selectedItems s).

End ProfileHistory.

(** ** The route [/api/chat/weakness] *)

Module WeaknessRoute.
Import Routes.
Local Open Scope Z_scope.





End WeaknessRoute.

(** ** Further notions for the properties *)

Module Derived.
Local Open Scope Z_scope.

(** A string of whitespace and line terminators only. *)
Abbreviation spaces := (Forall (λ c, isSpace c = true)).

(** A string up to what stands between its code units below 128: every
    run of code units from 128 on is replaced by the one code unit 128. *)
Fixpoint skeleton (s : jstring) : jstring :=
match s with
| [] => []
| c :: s' =>
    if (c <? 128)%N then c :: skeleton s'
    else match skeleton s' with
         | x :: r => if (x =? 128)%N then x :: r else 128%N :: x :: r
         | [] => [128%N]
         end
end.

(** The marker occurs somewhere in the text, in any mix of cases. *)
Fixpoint mentions (marker text : jstring) : bool :=
startsWithCI marker text
|| match text with
   | [] => false
   | _ :: text' => mentions marker text'
   end.

(** A server whose local time is UTC plus a fixed offset: the start of the
    local day, and the number of the local day. *)
Definition offsetStartOfDay (offset t : Z) : Z :=
Routes.utcStartOfDay (t + offset) - offset.

Definition dayNumber (offset t : Z) : Z := (t + offset) `div` Routes.msPerDay.

(** The events of the chat page that do not hand the transcript to the
    reset hook, start a new chat or load the stored messages. *)
Definition keepsTranscript (e : ChatPage.Event) : bool :=
match e with
| ChatPage.NewChat _ | ChatPage.ResetChat _ | ChatPage.ResetInput
| ChatPage.UndoCallback _ _ | ChatPage.MemoryLoaded _ => false
| _ => true
end.

(** The lower-cased text holds one of the patterns. *)
Definition hasPattern (patterns : list jstring) (text : jstring) : Prop :=
∃ p pre post, p ∈ patterns ∧ toLowerCase text = pre ++ p ++ post.

(** The transcript [after] keeps the transcript [before]: it is no
    shorter, and every message of [before] that is a user message or is
    not the last one is at its index in [after], unchanged. *)
Definition kept (before after : list Transcript.Message) : Prop :=
(length before ≤ length after)%nat
∧ ∀ i m, before !! i = Some m →
         Transcript.isUser m = true ∨ (S i < length before)%nat →
         after !! i = Some m.

(** The events of the page with history that do not start a new chat,
    clear the chats or bring the answer of a load. *)
Definition keepsHistory (e : HistoryPage.Event) : bool :=
match e with
| HistoryPage.NewChat _ | HistoryPage.ResetChat _
| HistoryPage.DeleteAllChats _ | HistoryPage.Loaded _ _ => false
| _ => true
end.

(** The events of the page with history that clear the one-shot flag of
    the title: the three rotations, and the answer of a session load that
    brings no stored title. *)
Definition clearsFlag (e : HistoryPage.Event) : bool :=
match e with
| HistoryPage.NewChat _ | HistoryPage.ResetChat _
| HistoryPage.DeleteAllChats _ => true
| HistoryPage.Loaded _ None => true
| HistoryPage.Loaded _ (Some (_, title)) => bool_decide (title = [])
| _ => false
end.

(** How many events of a trace clear the flag. *)
Definition clearings (es : list HistoryPage.Event) : nat :=
length (filter (λ e, clearsFlag e = true) es).

(** The events that give the page another session identifier. *)
Definition rotates (e : HistoryPage.Event) : bool :=
match e with
| HistoryPage.NewChat _ | HistoryPage.ResetChat _
| HistoryPage.DeleteAllChats _ | HistoryPage.SelectChat _ _ => true
| _ => false
end.

(** A prompt of the study plan as the exam planner means to build it:
    the days until the exam are at least one (or not a number), the
    subjects are non-empty and trimmed, and the other values are present. *)
Definition promptOk (p : Routes.ExamPrompt) : Prop :=
(∀ n, Routes.ep_daysUntilExam p = Some n → 1 ≤ n)
∧ Forall (λ x, x ≠ [] ∧ trim x = x) (Routes.ep_subjectsList p)
∧ Routes.truthy (Routes.ep_examName p) = true
∧ Routes.truthy (Routes.ep_examDate p) = true
∧ Routes.truthy (Routes.ep_dailyHours p) = true.

(** The request [handle2MinConcept] sends for a topic. *)
Definition conceptRequest (topic : jstring) (language firstName : Routes.JsVal)
  : Routes.ConceptRequest :=
{| Routes.topic := Routes.JStr topic; Routes.cr_language := language;
   Routes.cr_firstName := firstName |}.

(** A response as the pages expect it from a route whose success body is
    recognised by [success]: one of four statuses, the success body with
    200, and with every other status a body with a non-empty [error]. *)
Definition answers (success : Routes.Body → bool) (r : Routes.Response) : Prop :=
Routes.status r ∈ [200; 400; 401; 500]
∧ (Routes.status r = 200 → success (Routes.body r) = true)
∧ (Routes.status r ≠ 200 →
   ∃ e, Routes.body r = Routes.ErrorBody e ∧ e ≠ []).

Definition isPlan (b : Routes.Body) : bool :=
match b with Routes.PlanBody _ => true | _ => false end.

Definition isRoadmap (b : Routes.Body) : bool :=
match b with Routes.RoadmapBody _ => true | _ => false end.

Definition isConcept (b : Routes.Body) : bool :=
match b with Routes.ConceptBody _ _ _ _ => true | _ => false end.

Definition isStream (b : Routes.Body) : bool :=
match b with Routes.StreamBody _ => true | _ => false end.

End Derived.

(** ** Further scenarios *)

Module Cases.
Local Open Scope Z_scope.

(** A history list of two chats, nothing selected. *)
Definition twoChats : ProfileHistory.State :=
{| ProfileHistory.history :=
     [{| ProfileHistory.id := js "1"; ProfileHistory.session_id := js "s1";
         ProfileHistory.module_type := ProfileHistory.chat;
         ProfileHistory.title := js "Osmosis" |};
      {| ProfileHistory.id := js "2"; ProfileHistory.session_id := js "s2";
         ProfileHistory.module_type := ProfileHistory.career;
         ProfileHistory.title := js "Roadmap" |}];
   ProfileHistory.selectedItems := []; ProfileHistory.selectAll := false |}.

(** The page with history after a first question, its request in flight. *)
Definition askedOnce : HistoryPage.State :=
{| HistoryPage.messages := [Transcript.userMessage (js "hi") 1];
   HistoryPage.input := []; HistoryPage.loading := true;
   HistoryPage.currentSessionId := js "chat-1";
   HistoryPage.currentTitle := js "New Chat";
   HistoryPage.hasGeneratedTitle := false;
   HistoryPage.calls := [HistoryPage.SendAwaiting (js "chat-1")];
   HistoryPage.titleCalls := [] |}.

(** That page after the chat [chat-0] has been selected: the load of the
    handler, for the session before the switch, and the load of the effect,
    for the selected one, are in flight. *)
Definition switched : HistoryPage.State :=
{| HistoryPage.messages := [Transcript.userMessage (js "hi") 1];
   HistoryPage.input := []; HistoryPage.loading := true;
   HistoryPage.currentSessionId := js "chat-0";
   HistoryPage.currentTitle := js "Old";
   HistoryPage.hasGeneratedTitle := true;
   HistoryPage.calls := [HistoryPage.SendAwaiting (js "chat-1");
                         HistoryPage.LoadAwaiting (js "chat-1");
                         HistoryPage.LoadAwaiting (js "chat-0")];
   HistoryPage.titleCalls := [] |}.

(** The streaming page after a send has opened its stream and New Chat
    has been pressed while the stream is read. *)
Definition clearedWhileStreaming : ChatPage.State :=
{| ChatPage.messages := []; ChatPage.input := []; ChatPage.loading := true;
   ChatPage.sessionIdRef := js "s2";
   ChatPage.calls := [ChatPage.SendStreaming []]; ChatPage.timers := [] |}.

(** A new chat, an exchange in it, the answer of the load that the new
    chat has started (nothing is stored for the new session), and another
    exchange. *)
Definition lateLoadTrace : list HistoryPage.Event :=
[HistoryPage.NewChat (js "chat-2");
 HistoryPage.Typed (js "what is a cell"); HistoryPage.Submit 1;
 HistoryPage.SendOk 1 (js "A cell is a unit of life.") 2;
 HistoryPage.Loaded 0 None;
 HistoryPage.Typed (js "and a nucleus"); HistoryPage.Submit 3;
 HistoryPage.SendOk 1 (js "It holds the DNA.") 4].

(** A completion that fails on a prompt without a day left. *)
Definition plannerForFuture (p : Routes.ExamPrompt) : completion jstring :=
if Routes.lessThanOne (Routes.ep_daysUntilExam p) then Thrown (js "no days left")
else Ret (js "Day 1: Math").

End Cases.

(** * Properties *)

(** ** The regular-expression matcher *)

Section MatcherFacts.
Context {R : Type}.
Implicit Types (k : jstring → option R) (s : jstring).

Lemma starm_sound p k s r :
  starm p k s = Some r →
  ∃ ws rest, s = ws ++ rest ∧ forallb p ws = true ∧ k rest = Some r.
Proof.
  induction s as [|c s IH]; simpl.
  - intros H. by exists [], [].
  - destruct (p c) eqn:Hp.
    + destruct (starm p k s) as [r'|] eqn:Hs.
      * intros [= <-]. destruct (IH eq_refl) as (ws & rest & -> & Hws & Hk).
        exists (c :: ws), rest. simpl. by rewrite Hp, Hws.
      * intros H. by exists [], (c :: s).
    + intros H. by exists [], (c :: s).
Qed.

Lemma starm_complete p k ws rest :
  forallb p ws = true → is_Some (k rest) → is_Some (starm p k (ws ++ rest)).
Proof.
  intros Hws Hk. induction ws as [|c ws IH]; simpl in *.
  - destruct rest as [|c rest]; simpl; [done|].
    destruct (p c); [|done]. by destruct (starm p k rest).
  - apply andb_true_iff in Hws as [-> Hws].
    destruct (IH Hws) as [r ->]. by eexists.
Qed.

Lemma matcher_sound fl r s cap (k : jstring → option jstring → option R) res :
  matcher fl r s cap k = Some res →
  ∃ s' cap', Den fl r s cap s' cap' ∧ k s' cap' = Some res.
Proof.
  revert s cap k res.
  induction r as [|c|cs|cs|cs|r1 IH1 r2 IH2|r1 IH1 r2 IH2|r IH|];
    intros s cap k res; simpl.
  - intros H. exists s, cap. split; [constructor|done].
  - destruct s as [|x s]; [done|]. destruct (charEq fl x c) eqn:Hc; [|done].
    intros H. exists s, cap. split; [by constructor|done].
  - destruct s as [|x s]; [done|]. destruct (inClass cs x) eqn:Hc; [|done].
    intros H. exists s, cap. split; [by constructor|done].
  - intros H. apply starm_sound in H as (ws & rest & -> & Hws & Hk).
    exists rest, cap. split; [by constructor|done].
  - destruct s as [|x s]; [done|]. destruct (inClass cs x) eqn:Hc; [|done].
    intros H. apply starm_sound in H as (ws & rest & -> & Hws & Hk).
    exists rest, cap. split; [by constructor|done].
  - intros H. apply IH1 in H as (s1 & cap1 & H1 & H).
    apply IH2 in H as (s2 & cap2 & H2 & H).
    exists s2, cap2. split; [by econstructor|done].
  - destruct (matcher fl r1 s cap k) as [res'|] eqn:H1.
    + intros [= <-]. apply IH1 in H1 as (s' & cap' & H1 & H).
      exists s', cap'. split; [by apply DenAltL|done].
    + intros H. apply IH2 in H as (s' & cap' & H2 & H).
      exists s', cap'. split; [by apply DenAltR|done].
  - intros H. apply IH in H as (s' & cap' & H1 & H).
    eexists s', _. split; [by econstructor|done].
  - destruct (atEol fl s) eqn:He; [|done].
    intros H. exists s, cap. split; [by constructor|done].
Qed.

Lemma matcher_complete fl r s cap s' cap'
    (k : jstring → option jstring → option R) :
  Den fl r s cap s' cap' → is_Some (k s' cap') →
  is_Some (matcher fl r s cap k).
Proof.
  intros HD. revert k.
  induction HD as [s cap|c x s cap Hc|cs x s cap Hc|cs ws s cap Hws
                  |cs x ws s cap Hc Hws|r1 r2 s cap s1 cap1 s2 cap2 _ IH1 _ IH2
                  |r1 r2 s cap s' cap' _ IH|r1 r2 s cap s' cap' _ IH
                  |r s cap s' cap' _ IH|s cap He];
    intros k Hk; simpl.
  - done.
  - by rewrite Hc.
  - by rewrite Hc.
  - by apply (starm_complete _ (λ s', k s' cap)).
  - rewrite Hc. by apply (starm_complete _ (λ s', k s' cap)).
  - apply IH1. by apply IH2.
  - destruct (IH k Hk) as [res ->]. by eexists.
  - destruct (matcher fl r1 s cap k); [by eexists|]. by apply IH.
  - by apply IH.
  - by rewrite He.
Qed.
End MatcherFacts.

Lemma exec_is_Some fl r s :
  is_Some (exec fl r s) ↔ ∃ rest cap, Den fl r s None rest cap.
Proof.
  unfold exec. split.
  - intros [res H]. apply matcher_sound in H as (s' & cap' & HD & _). eauto.
  - intros (rest & cap & HD). by eapply matcher_complete.
Qed.

Lemma exec_sound fl r s rest cap :
  exec fl r s = Some (rest, cap) → Den fl r s None rest cap.
Proof.
  unfold exec. intros H.
  apply matcher_sound in H as (s' & cap' & HD & [= <- <-]). done.
Qed.

Lemma search_sound fl r pre s m :
  search fl r pre s = Some m →
  ∃ skipped t, s = skipped ++ t ∧ m_before m = pre ++ skipped
               ∧ Den fl r t None (m_after m) (m_group1 m).
Proof.
  revert pre. induction s as [|c s IH]; intros pre; simpl.
  - destruct (exec fl r []) as [[rest cap]|] eqn:He; [|done].
    intros [= <-]. exists [], []. simpl. rewrite app_nil_r.
    split_and!; [done..|]. by apply exec_sound.
  - destruct (exec fl r (c :: s)) as [[rest cap]|] eqn:He.
    + intros [= <-]. exists [], (c :: s). simpl. rewrite app_nil_r.
      split_and!; [done..|]. by apply exec_sound.
    + intros H. apply IH in H as (skipped & t & -> & Hb & HD).
      exists (c :: skipped), t. rewrite Hb, <- app_assoc. done.
Qed.

Lemma search_None fl r pre s :
  search fl r pre s = None ↔ ∀ skipped t, s = skipped ++ t → exec fl r t = None.
Proof.
  revert pre. induction s as [|c s IH]; intros pre; simpl.
  - destruct (exec fl r []) as [[rest cap]|] eqn:He.
    + split; [done|]. intros H. by rewrite (H [] []) in He.
    + split; [|done]. intros _ skipped t Ht.
      symmetry in Ht. apply app_eq_nil in Ht as [_ ->]. done.
  - destruct (exec fl r (c :: s)) as [[rest cap]|] eqn:He.
    + split; [done|]. intros H. by rewrite (H [] (c :: s)) in He.
    + rewrite IH. split.
      * intros H [|c' skipped] t Ht; simpl in Ht.
        -- by subst t.
        -- injection Ht as <- ->. by eapply H.
      * intros H skipped t ->. by apply (H (c :: skipped) t).
Qed.

(** A [match] without result means that the pattern occurs nowhere. *)
Lemma str_match_None fl r text :
  str_match fl r text = None ↔ ¬ Occurs fl r text.
Proof.
  unfold str_match, Occurs. rewrite search_None. split.
  - intros H (pre & t & rest & cap & Ht & HD).
    assert (is_Some (exec fl r t)) as [x Hx] by (apply exec_is_Some; eauto).
    by rewrite (H pre t Ht) in Hx.
  - intros H skipped t Ht.
    destruct (exec fl r t) as [[rest cap]|] eqn:He; [|done].
    exfalso. apply H. exists skipped, t, rest, cap. split; [done|].
    by apply exec_sound.
Qed.

(** ** Whitespace and [trim] *)

Lemma trimStart_decompose s :
  ∃ pre, s = pre ++ trimStart s ∧ Derived.spaces pre.
Proof.
  induction s as [|c s (pre & IH & Hpre)]; simpl.
  - by exists [].
  - destruct (isSpace c) eqn:Hc.
    + exists (c :: pre). split; [by rewrite IH at 1|by constructor].
    + by exists [].
Qed.

Lemma trimStart_head s c : head (trimStart s) = Some c → isSpace c = false.
Proof.
  induction s as [|x s IH]; simpl; [done|].
  destruct (isSpace x) eqn:Hx; [done|]. simpl. by intros [= <-].
Qed.

Lemma trimStart_fixed s :
  (∀ c, head s = Some c → isSpace c = false) → trimStart s = s.
Proof.
  destruct s as [|c s]; simpl; [done|]. intros H. by rewrite (H c).
Qed.

Lemma trimStart_nil s : trimStart s = [] ↔ Derived.spaces s.
Proof.
  induction s as [|c s IH]; simpl; [done|].
  destruct (isSpace c) eqn:Hc.
  - rewrite IH. split; [by constructor|]. by inversion 1.
  - split; [done|]. inversion 1; congruence.
Qed.

Lemma trimEnd_decompose s :
  ∃ post, s = trimEnd s ++ post ∧ Derived.spaces post.
Proof.
  unfold trimEnd. destruct (trimStart_decompose (reverse s)) as (pre & H & Hpre).
  exists (reverse pre). split; [|by apply Forall_reverse].
  rewrite <- reverse_app, <- H. by rewrite reverse_involutive.
Qed.

Lemma trimEnd_last s c : last (trimEnd s) = Some c → isSpace c = false.
Proof.
  unfold trimEnd. rewrite last_reverse. apply trimStart_head.
Qed.

Lemma trimEnd_nil s : trimEnd s = [] ↔ Derived.spaces s.
Proof.
  unfold trimEnd. split.
  - intros H. apply (f_equal reverse) in H. rewrite reverse_involutive in H.
    apply trimStart_nil in H. apply Forall_reverse in H.
    by rewrite reverse_involutive in H.
  - intros H. apply Forall_reverse in H. apply trimStart_nil in H.
    by rewrite H.
Qed.

Lemma trimEnd_fixed s :
  (∀ c, last s = Some c → isSpace c = false) → trimEnd s = s.
Proof.
  intros H. unfold trimEnd. rewrite trimStart_fixed; [apply reverse_involutive|].
  intros c. rewrite head_reverse. apply H.
Qed.

Lemma trimEnd_head s c :
  head s = Some c → isSpace c = false → head (trimEnd s) = Some c.
Proof.
  intros Hh Hc. destruct (trimEnd_decompose s) as (post & Hs & Hpost).
  destruct (trimEnd s) as [|x t] eqn:Ht.
  - simpl in Hs. subst s. destruct post as [|y post]; [done|].
    simpl in Hh. injection Hh as ->. inversion Hpost; congruence.
  - rewrite Hs in Hh. done.
Qed.

(** [trim] takes whitespace, and nothing else, from both ends. *)
Lemma trim_decompose s :
  ∃ pre post,
    s = pre ++ trim s ++ post ∧ Derived.spaces pre ∧ Derived.spaces post.
Proof.
  destruct (trimStart_decompose s) as (pre & H1 & Hpre).
  destruct (trimEnd_decompose (trimStart s)) as (post & H2 & Hpost).
  exists pre, post. unfold trim. by rewrite <- H2.
Qed.

Lemma trim_nil s : trim s = [] ↔ Derived.spaces s.
Proof.
  unfold trim. rewrite trimEnd_nil. split.
  - intros H. apply trimStart_nil. destruct (trimStart s) as [|c t] eqn:Ht; [done|].
    pose proof (trimStart_head s c) as Hc. rewrite Ht in Hc.
    inversion H; subst. rewrite Hc in *; done.
  - intros H. apply trimStart_nil in H. by rewrite H.
Qed.

Lemma trim_ends s :
  (∀ c, head (trim s) = Some c → isSpace c = false)
  ∧ (∀ c, last (trim s) = Some c → isSpace c = false).
Proof.
  split; intros c; unfold trim; [|apply trimEnd_last].
  destruct (head (trimStart s)) as [x|] eqn:Hx.
  - rewrite (trimEnd_head _ x Hx (trimStart_head _ _ Hx)).
    intros [= <-]. by eapply trimStart_head.
  - destruct (trimStart s); [|done]. done.
Qed.

Lemma trim_fixed s :
  (∀ c, head s = Some c → isSpace c = false) →
  (∀ c, last s = Some c → isSpace c = false) → trim s = s.
Proof.
  intros Hh Hl. unfold trim. rewrite (trimStart_fixed s Hh). by apply trimEnd_fixed.
Qed.

Lemma trim_idemp s : trim (trim s) = trim s.
Proof. apply trim_fixed; apply trim_ends. Qed.

(** ** [parseAIResponse] *)

Lemma matcher_lit {R} fl w s cap (k : jstring → option jstring → option R) :
  ignoreCase fl = true →
  matcher fl (lit w) s cap k =
  if startsWithCI w s then k (drop (length w) s) cap else None.
Proof.
  intros Hi. revert s. induction w as [|c w IH]; intros s; simpl; [done|].
  destruct s as [|x s]; [done|]. unfold charEq. rewrite Hi.
  destruct (canonicalize x =? canonicalize c)%N; simpl; [apply IH|done].
Qed.

Lemma starm_dot_eol {R} (k : jstring → option R) s :
  starm (inClass CDot) (λ s', if atEol flags_im s' then k s' else None) s
  = k (skipLine s).
Proof.
  induction s as [|c s IH]; simpl; [done|].
  destruct (isLineTerminator c) eqn:Hc; simpl; [done|].
  rewrite IH. by destruct (k (skipLine s)).
Qed.

(** The pattern [/<marker>.*$/im] matches where the marker starts, and takes
    the rest of the line. *)
Lemma exec_marker_line w s :
  exec flags_im (Seq (lit w) (Seq (Star CDot) Eol)) s =
  if startsWithCI w s then Some (skipLine (drop (length w) s), None) else None.
Proof.
  unfold exec. simpl. rewrite matcher_lit by done.
  destruct (startsWithCI w s); [|done].
  apply (starm_dot_eol (λ s', Some (s', None))).
Qed.

Lemma search_marker_line w pre s :
  match search flags_im (Seq (lit w) (Seq (Star CDot) Eol)) pre s with
  | Some m => m_before m ++ m_after m
  | None => pre ++ s
  end = pre ++ cutMarkerLine w s.
Proof.
  revert pre. induction s as [|c s IH]; intros pre.
  - simpl search. rewrite exec_marker_line. simpl.
    destruct (startsWithCI w []); simpl; [|done]. by rewrite drop_nil.
  - simpl search. rewrite exec_marker_line. simpl cutMarkerLine.
    destruct (startsWithCI w (c :: s)); simpl; [done|].
    specialize (IH (pre ++ [c])). rewrite <- !app_assoc in IH. exact IH.
Qed.

(** [replace(/<marker>.*$/im, '')] cuts the first marker and the rest of
    its line. *)
Lemma replace_marker_line w text :
  str_replace_empty flags_im (Seq (lit w) (Seq (Star CDot) Eol)) text
  = cutMarkerLine w text.
Proof.
  unfold str_replace_empty.
  pose proof (search_marker_line w [] text) as H. simpl in H.
  by destruct (search _ _ _ _).
Qed.

Lemma den_lit fl w s cap s' cap' :
  ignoreCase fl = true →
  Den fl (lit w) s cap s' cap' →
  cap' = cap ∧ ∃ x, s = x ++ s' ∧
    Forall2 (λ a c, canonicalize a = canonicalize c) x w.
Proof.
  intros Hi. revert s. induction w as [|c w IH]; intros s HD; simpl in HD.
  - inversion HD; subst. split; [done|]. by exists [].
  - inversion HD as [| | | | |r1 r2 s0 cap0 s1 cap1 s2 cap2 H1 H2| | | |]; subst.
    inversion H1 as [|c0 a s0 cap0 Hc| | | | | | | |]; subst.
    apply IH in H2 as [-> (x & -> & Hx)]. split; [done|].
    exists (a :: x). split; [done|]. constructor; [|done].
    unfold charEq in Hc. rewrite Hi in Hc. by apply N.eqb_eq.
Qed.

Lemma canonicalize_letter a c :
  asciiLetter c →
  canonicalize a = canonicalize c →
  lowerUnit a = lowerUnit c.
Proof.
  unfold asciiLetter, canonicalize, lowerUnit. intros Hc.
  repeat match goal with
         | |- context [(?x <=? ?y)%N] => destruct (N.leb_spec x y); simpl
         | |- context [(?x =? ?y)%N] => destruct (N.eqb_spec x y); simpl
         end; intros; repeat f_equal; lia.
Qed.

Lemma toLowerCase_word x w :
  Forall asciiLetter w →
  Forall2 (λ a c, canonicalize a = canonicalize c) x w →
  toLowerCase x = toLowerCase w.
Proof.
  intros Hw Hx. induction Hx as [|a c x w Hac Hx IH]; [done|].
  inversion Hw; subst.
  change (lowerUnit a ++ toLowerCase x = lowerUnit c ++ toLowerCase w).
  rewrite IH by done. f_equal. by apply canonicalize_letter.
Qed.

Lemma den_seq fl r1 r2 s cap s2 cap2 :
  Den fl (Seq r1 r2) s cap s2 cap2 →
  ∃ s1 cap1, Den fl r1 s cap s1 cap1 ∧ Den fl r2 s1 cap1 s2 cap2.
Proof. inversion 1; subst. eauto. Qed.

Lemma den_alt fl r1 r2 s cap s' cap' :
  Den fl (Alt r1 r2) s cap s' cap' →
  Den fl r1 s cap s' cap' ∨ Den fl r2 s cap s' cap'.
Proof. inversion 1; subst; eauto. Qed.

Lemma den_group fl r s cap s' cap' :
  Den fl (Group r) s cap s' cap' →
  cap' = Some (take (length s - length s') s) ∧ ∃ c, Den fl r s cap s' c.
Proof. inversion 1; subst. eauto. Qed.

Lemma take_consumed (x s' : jstring) :
  take (length (x ++ s') - length s') (x ++ s') = x.
Proof.
  rewrite length_app.
  replace (length x + length s' - length s')%nat with (length x) by lia.
  by rewrite take_app_length.
Qed.

(** The group of [/Confidence:\s*(High|Medium|Low)/i] always takes part in
    a match, and it holds one of the three words in some mix of cases. *)
Lemma confidence_capture_word t rest cap :
  Den flags_i reConfidence t None rest cap →
  ∃ w, cap = Some w ∧
       (toLowerCase w = js "high" ∨ toLowerCase w = js "medium"
        ∨ toLowerCase w = js "low").
Proof.
  unfold reConfidence. intros H.
  apply den_seq in H as (s1 & cap1 & _ & H).
  apply den_seq in H as (s2 & cap2 & _ & H).
  apply den_group in H as [-> [c H]].
  eexists. split; [done|].
  assert (∀ word lower,
            Forall asciiLetter (js word) → toLowerCase (js word) = js lower →
            Den flags_i (lit (js word)) s2 cap2 rest c →
            toLowerCase (take (length s2 - length rest) s2) = js lower) as Hword.
  { intros word lower Hl Hlow HD.
    apply den_lit in HD as [_ (x & -> & Hx)]; [|done].
    rewrite take_consumed, <- Hlow. by apply toLowerCase_word. }
  assert (∀ w, Forall (λ c, (0x41 <=? c) && (c <=? 0x5A)
                            || (0x61 <=? c) && (c <=? 0x7A) = true)%N w →
               Forall asciiLetter w) as Hletters.
  { intros w Hw. eapply Forall_impl; [exact Hw|].
    intros a Ha. unfold asciiLetter.
    apply orb_true_iff in Ha as [Ha|Ha];
      apply andb_true_iff in Ha as [?%N.leb_le ?%N.leb_le]; lia. }
  apply den_alt in H as [H|H]; [|apply den_alt in H as [H|H]].
  - left. apply (Hword "High" "high")%string; [|done..].
    apply Hletters. by repeat constructor.
  - right; left. apply (Hword "Medium" "medium")%string; [|done..].
    apply Hletters. by repeat constructor.
  - right; right. apply (Hword "Low" "low")%string; [|done..].
    apply Hletters. by repeat constructor.
Qed.

Lemma ask_capture t rest cap :
  Den flags_i reAskMeBack t None rest cap → is_Some cap.
Proof.
  unfold reAskMeBack. intros H.
  apply den_seq in H as (s1 & cap1 & _ & H).
  apply den_seq in H as (s2 & cap2 & _ & H).
  apply den_group in H as [-> _]. by eexists.
Qed.

Lemma parseAIResponse_returns (text : jstring) :
  ∃ p, parseAIResponse text = Ret p.
Proof.
  unfold parseAIResponse.
  destruct (str_match flags_i reConfidence text) as [mc|] eqn:Hc; simpl.
  - apply search_sound in Hc as (? & ? & _ & _ & Hc).
    apply confidence_capture_word in Hc as (w & -> & _).
    destruct (str_match flags_i reAskMeBack text) as [ma|] eqn:Ha; simpl;
      [|by eexists].
    apply search_sound in Ha as (? & ? & _ & _ & Ha).
    apply ask_capture in Ha as [q ->]. by eexists.
  - destruct (str_match flags_i reAskMeBack text) as [ma|] eqn:Ha; simpl;
      [|by eexists].
    apply search_sound in Ha as (? & ? & _ & _ & Ha).
    apply ask_capture in Ha as [q ->]. by eexists.
Qed.

Example parse_both_markers :
  parseAIResponse
    (js "Plants make sugar from light." ++ [10%N] ++ js "Confidence: High"
     ++ [10%N] ++ js "Ask-Me-Back: What do plants release?  ")
  = Ret {| p_content := js "Plants make sugar from light.";
           p_confidence := Some (js "high");
           p_askBackQuestion := Some (js "What do plants release?") |}.
Proof. vm_compute. reflexivity. Qed.

(** The line of a marker goes even when the field pattern does not match,
    and only the first line of each marker goes. *)
Example parse_unknown_level :
  parseAIResponse
    (js "Maybe. confidence: unsure" ++ [10%N] ++ js "Confidence: low")
  = Ret {| p_content := js "Maybe. " ++ [10%N] ++ js "Confidence: low";
           p_confidence := Some (js "low");
           p_askBackQuestion := None |}.
Proof. vm_compute. reflexivity. Qed.

(** C7. [parseAIResponse] returns for every text, without throwing.  Its
    content is the text without the first [Confidence:] marker and the rest
    of that line, then without the first [Ask-Me-Back:] marker and the rest of
    that line, trimmed: what is left of the text is the content between two
    runs of whitespace, and the content neither starts nor ends with
    whitespace.  A field is absent exactly when its pattern matches nowhere
    in the text, and a confidence that is present is one of [high],
    [medium], [low]. *)
Theorem parseAIResponse_total (text : jstring) :
  ∃ p, parseAIResponse text = Ret p
    ∧ p_content p = spec_content text
    ∧ (∃ pre post,
         cutMarkerLine (js "Ask-Me-Back:") (cutMarkerLine (js "Confidence:") text)
         = pre ++ p_content p ++ post
         ∧ Forall (λ c, isSpace c = true) pre
         ∧ Forall (λ c, isSpace c = true) post)
    ∧ (∀ c, head (p_content p) = Some c → isSpace c = false)
    ∧ (∀ c, last (p_content p) = Some c → isSpace c = false)
    ∧ (p_confidence p = None ↔ ¬ Occurs flags_i reConfidence text)
    ∧ (∀ c, p_confidence p = Some c →
            c = js "high" ∨ c = js "medium" ∨ c = js "low")
    ∧ (p_askBackQuestion p = None ↔ ¬ Occurs flags_i reAskMeBack text).
Proof.
  assert (∀ conf ask,
            ∃ pre post,
              cutMarkerLine (js "Ask-Me-Back:")
                (cutMarkerLine (js "Confidence:") text)
              = pre ++ p_content
                         {| p_content := spec_content text;
                            p_confidence := conf;
                            p_askBackQuestion := ask |} ++ post
              ∧ Forall (λ c, isSpace c = true) pre
              ∧ Forall (λ c, isSpace c = true) post) as Hcut.
  { intros conf ask. apply trim_decompose. }
  pose proof (trim_ends
                (cutMarkerLine (js "Ask-Me-Back:")
                   (cutMarkerLine (js "Confidence:") text))) as [Hhead Hlast].
  fold (spec_content text) in Hhead, Hlast.
  unfold parseAIResponse.
  change reConfidenceLine with (Seq (lit (js "Confidence:")) (Seq (Star CDot) Eol)).
  change reAskMeBackLine with (Seq (lit (js "Ask-Me-Back:")) (Seq (Star CDot) Eol)).
  rewrite !replace_marker_line.
  fold (spec_content text).
  setoid_rewrite <- str_match_None.
  destruct (str_match flags_i reConfidence text) as [mc|] eqn:Hc;
    destruct (str_match flags_i reAskMeBack text) as [ma|] eqn:Ha; simpl.
  - apply search_sound in Hc as (? & ? & _ & _ & Hc).
    apply search_sound in Ha as (? & ? & _ & _ & Ha).
    apply confidence_capture_word in Hc as (w & -> & Hw).
    apply ask_capture in Ha as [q ->].
    eexists. split; [done|]. simpl.
    split_and!; [done|apply (Hcut None None)|done|done|done| |done].
    by intros c [= <-].
  - apply search_sound in Hc as (? & ? & _ & _ & Hc).
    apply confidence_capture_word in Hc as (w & -> & Hw).
    eexists. split; [done|]. simpl.
    split_and!; [done|apply (Hcut None None)|done|done|done| |done].
    by intros c [= <-].
  - apply search_sound in Ha as (? & ? & _ & _ & Ha).
    apply ask_capture in Ha as [q ->].
    eexists. split; [done|]. simpl.
    split_and!; [done|apply (Hcut None None)|done..].
  - eexists. split; [done|]. simpl.
    split_and!; [done|apply (Hcut None None)|done..].
Qed.

(** ** The reset controller *)

Lemma closed_window_stays {T} (s : ResetWithUndo.ResettableState T) ops :
  ResetWithUndo.snapshotBeforeReset s = None →
  ResetWithUndo.applyAll s ops = s.
Proof.
  intros Hs. unfold ResetWithUndo.applyAll.
  induction ops as [|o ops IH]; simpl; [done|].
  assert (ResetWithUndo.apply s o = s) as ->; [|done].
  destruct s as [c snap d l]; simpl in Hs; subst snap.
  by destruct o.
Qed.

(** C4. From any state [A] of the controller, [reset(B)] followed by
    [undo()] while the window is open gives [A] back, closes the window and
    invokes [onReset] with [A]; [reset(B)] followed by [dismiss()] leaves
    [B] with the window closed, and nothing but a new reset changes that:
    [A] cannot be recovered. *)
Theorem reset_undo_dismiss {T} (s : ResetWithUndo.ResettableState T)
    (B : T) (now timeout later : Z) :
  (later < now + timeout)%Z →
  let A := ResetWithUndo.current s in
  let s1 := ResetWithUndo.reset B now timeout s in
  let undone := ResetWithUndo.undo later s1 in
  let dismissed := ResetWithUndo.dismiss s1 in
  (ResetWithUndo.current s1 = B
   ∧ ResetWithUndo.current undone = A
   ∧ ResetWithUndo.windowOpen undone = false
   ∧ ResetWithUndo.onResetCalls undone
     = ResetWithUndo.onResetCalls s ++ [B; A])
  ∧ (ResetWithUndo.current dismissed = B
     ∧ ResetWithUndo.windowOpen dismissed = false
     ∧ ResetWithUndo.onResetCalls dismissed
       = ResetWithUndo.onResetCalls s ++ [B]
     ∧ ∀ ops, ResetWithUndo.applyAll dismissed ops = dismissed).
Proof.
  intros Hlater A s1 undone dismissed.
  unfold undone, dismissed, s1, ResetWithUndo.undo, ResetWithUndo.expire,
    ResetWithUndo.reset; simpl.
  destruct (Z.leb_spec (now + timeout) later) as [?|_]; [lia|]. simpl.
  split_and!; try done.
  - by rewrite <- app_assoc.
  - intros ops. by apply closed_window_stays.
Qed.

Lemma reset_undo_dismiss_witness :
  let s := ResetWithUndo.initial (js "draft") in
  let s1 := ResetWithUndo.reset [] 1000 10000 s in
  ResetWithUndo.current (ResetWithUndo.undo 4000 s1) = js "draft"
  ∧ ResetWithUndo.current (ResetWithUndo.dismiss s1) = [].
Proof.
  pose proof (reset_undo_dismiss (ResetWithUndo.initial (js "draft")) []
                1000 10000 4000 ltac:(lia)) as H.
  simpl in H. destruct H as [(_ & Hu & _) (Hd & _)]. split; [exact Hu|exact Hd].
Defined.

(** ** The routes *)

Lemma ceilDiv_lt_1 a : (Routes.ceilDiv a Routes.msPerDay <? 1)%Z = (a <=? 0)%Z.
Proof.
  unfold Routes.ceilDiv, Routes.msPerDay.
  pose proof (Z.div_mod (- a) (1000 * 60 * 60 * 24) ltac:(lia)) as Hdm.
  pose proof (Z.mod_pos_bound (- a) (1000 * 60 * 60 * 24) ltac:(lia)) as Hb.
  destruct (Z.ltb_spec (- (- a `div` (1000 * 60 * 60 * 24))) 1);
    destruct (Z.leb_spec a 0); try done; nia.
Qed.


(** Without a client no route answers 401. *)
Lemma unconfigured_never_401 clock llm1 llm2 llm3 stringify llm4 r1 r2 r3 r4 :
  Routes.status (Routes.examPlannerPOST Routes.Unconfigured clock llm1 r1) ≠ 401%Z
  ∧ Routes.status (Routes.careerPOST Routes.Unconfigured llm2 r2) ≠ 401%Z
  ∧ Routes.status (Routes.conceptPOST Routes.Unconfigured llm3 stringify r3) ≠ 401%Z
  ∧ Routes.status (Routes.chatPOST Routes.Unconfigured llm4 r4) ≠ 401%Z.
Proof.
  unfold Routes.examPlannerPOST, Routes.careerPOST, Routes.conceptPOST,
    Routes.chatPOST.
  split_and!; repeat case_match; simpl; done.
Qed.

(** What the route compares.  A request that passes the authentication
    check, with the four fields present (the subjects a string) and an exam
    date that [new Date] reads as the instant [t]: when the server-local day
    of [t] is after today and the completion gives a plan, the answer is 200
    with that plan; when the server-local day of [t] is today or earlier,
    the answer is 400 with the message that the exam date must be in the
    future. *)
Theorem exam_planner_by_date supabase clock llm req subjects t :
  supabase ≠ Routes.Configured None →
  Routes.truthy (Routes.examName req) = true →
  Routes.truthy (Routes.examDate req) = true →
  Routes.truthy (Routes.subjects req) = true →
  Routes.truthy (Routes.dailyHours req) = true →
  Routes.subjects req = Routes.JStr subjects →
  Routes.dateOf clock (Routes.examDate req) = Some t →
  let today := Routes.startOfLocalDay clock (Routes.now clock) in
  let examDay := Routes.startOfLocalDay clock t in
  (∀ plan, (today < examDay)%Z →
           llm (Routes.examPrompt clock req subjects) = Ret plan →
           Routes.examPlannerPOST supabase clock llm req
           = Routes.json (Routes.PlanBody plan) 200)
  ∧ ((examDay ≤ today)%Z →
     Routes.examPlannerPOST supabase clock llm req
     = Routes.json (Routes.ErrorBody (js "Exam date must be in the future")) 400).
Proof.
  intros Hauth H1 H2 H3 H4 Hs Ht today examDay.
  assert (Routes.lessThanOne (Routes.daysUntilExam clock (Routes.examDate req))
          = (examDay - today <=? 0)%Z) as Hdays.
  { unfold Routes.daysUntilExam. rewrite Ht. simpl. apply ceilDiv_lt_1. }
  unfold Routes.examPlannerPOST. rewrite H1, H2, H3, H4, Hdays, Hs. simpl.
  split.
  - intros plan Hlt Hllm.
    destruct (Z.leb_spec (examDay - today) 0); [lia|]. rewrite Hllm.
    by destruct supabase as [|[|]].
  - intros Hle.
    destruct (Z.leb_spec (examDay - today) 0); [|lia].
    by destruct supabase as [|[|]].
Qed.

Lemma exam_planner_by_date_witness :
  Routes.examPlannerPOST Routes.Unconfigured Scenario.clock Scenario.planner
    (Scenario.examRequest "2026-11-03")
  = Routes.json (Routes.PlanBody (js "Day 1: Math")) 200
  ∧ Routes.examPlannerPOST Routes.Unconfigured Scenario.clock Scenario.planner
      (Scenario.examRequest "2026-11-01")
    = Routes.json (Routes.ErrorBody (js "Exam date must be in the future")) 400.
Proof.
  split.
  - refine (proj1 (exam_planner_by_date Routes.Unconfigured Scenario.clock
             Scenario.planner (Scenario.examRequest "2026-11-03")
             (js "Math,Physics") 1793664000000 _ _ _ _ _ _ _) _ _ _);
      first [reflexivity | discriminate | (vm_compute; reflexivity)].
  - refine (proj2 (exam_planner_by_date Routes.Unconfigured Scenario.clock
             Scenario.planner (Scenario.examRequest "2026-11-01")
             (js "Math,Physics") 1793491200000 _ _ _ _ _ _ _) _);
      first [reflexivity | discriminate | (vm_compute; discriminate)].
Defined.

(** C3 at the failing input.  The server is five hours west of UTC and it
    is 07:00 there on 2 November 2026, so that [2026-11-03] is the date of
    tomorrow: the number of the server's day is one less than the number of
    the day that starts at the UTC midnight the string denotes.  [new Date]
    reads the date-only string as that UTC midnight, which is 19:00 of
    today on the server, and [setHours(0, 0, 0, 0)] takes it to the start of
    today: the days until the exam are 0 and the route answers 400.  A
    server in UTC answers the same request, at the same moment, with 200 and
    the plan. *)
Theorem exam_planner_west_of_utc :
  (Derived.dayNumber (-18000000) (Routes.now Scenario.clockWest) + 1
   = 1793664000000 `div` Routes.msPerDay)%Z
  ∧ Routes.dateOf Scenario.clockWest (Routes.JStr (js "2026-11-03"))
    = Some 1793664000000%Z
  ∧ Routes.daysUntilExam Scenario.clockWest (Routes.JStr (js "2026-11-03"))
    = Some 0%Z
  ∧ Routes.examPlannerPOST Routes.Unconfigured Scenario.clockWest Scenario.planner
      (Scenario.examRequest "2026-11-03")
    = Routes.json (Routes.ErrorBody (js "Exam date must be in the future")) 400
  ∧ Routes.examPlannerPOST Routes.Unconfigured Scenario.clock Scenario.planner
      (Scenario.examRequest "2026-11-03")
    = Routes.json (Routes.PlanBody (js "Day 1: Math")) 200.
Proof. vm_compute. done. Qed.

(** An exam date that is no date gives [NaN] days, which is not below 1:
    the route goes on to the completion. *)
Example exam_planner_invalid_date :
  Routes.examPlannerPOST Routes.Unconfigured Scenario.clockNoDate Scenario.planner
    (Scenario.examRequest "soon")
  = Routes.json (Routes.PlanBody (js "Day 1: Math")) 200.
Proof. vm_compute. reflexivity. Qed.

(** ** The transcript during a stream *)

Import Transcript.

Lemma lookup_last {A} (l : list A) : l !! (length l - 1)%nat = last l.
Proof. by rewrite Nat.sub_1_r, last_lookup. Qed.

Lemma lookup_last_app {A} (base : list A) (m : A) :
  (base ++ [m]) !! (length (base ++ [m]) - 1)%nat = Some m.
Proof.
  rewrite length_app. simpl.
  replace (length base + 1 - 1)%nat with (length base) by lia.
  by rewrite list_lookup_middle.
Qed.

Lemma insert_last_app {A} (base : list A) (m m' : A) :
  <[(length (base ++ [m]) - 1)%nat := m']> (base ++ [m]) = base ++ [m'].
Proof.
  rewrite length_app. simpl.
  replace (length base + 1 - 1)%nat with (length base + 0)%nat by lia.
  by rewrite insert_app_r.
Qed.

Lemma chunkUpdate_last base m acc :
  isAssistant m = true → isNormal m = true →
  chunkUpdate acc (base ++ [m]) = Some (base ++ [setContent acc m]).
Proof.
  intros Ha Hn. unfold chunkUpdate.
  by rewrite lookup_last_app, Ha, Hn, insert_last_app.
Qed.

Lemma finalUpdate_last base m parsed :
  isAssistant m = true →
  finalUpdate parsed (base ++ [m]) = Some (base ++ [setParsed parsed m]).
Proof.
  intros Ha. unfold finalUpdate.
  by rewrite lookup_last_app, Ha, insert_last_app.
Qed.

Lemma chunkUpdate_last2 base u m acc :
  isAssistant m = true → isNormal m = true →
  chunkUpdate acc (base ++ [u; m]) = Some (base ++ [u; setContent acc m]).
Proof.
  intros Ha Hn. rewrite (cons_middle u base [m]), app_assoc.
  rewrite chunkUpdate_last by done. by rewrite <- app_assoc.
Qed.

Lemma finalUpdate_last2 base u m parsed :
  isAssistant m = true →
  finalUpdate parsed (base ++ [u; m]) = Some (base ++ [u; setParsed parsed m]).
Proof.
  intros Ha. rewrite (cons_middle u base [m]), app_assoc.
  rewrite finalUpdate_last by done. by rewrite <- app_assoc.
Qed.

(** The updater of a chunk throws exactly on the empty array. *)
Lemma chunkUpdate_None acc prev : chunkUpdate acc prev = None ↔ prev = [].
Proof.
  unfold chunkUpdate. split; [|by intros ->].
  destruct (prev !! (length prev - 1)%nat) eqn:H; [by repeat case_match|].
  intros _. apply lookup_ge_None in H. destruct prev; [done|simpl in H; lia].
Qed.

(** C10. A chunk update, on the objects: the new array holds the same
    references; the only object written is the one the last slot refers to,
    only its content, and only when it is an assistant message of type
    normal; the message at every earlier index is as before (the array
    holds each object once: every message of the page is an object of its
    own). *)
Theorem chunk_update_frame acc heap (prev : list nat) heap' prev' :
  chunkUpdateRef acc heap prev = Some (heap', prev') →
  NoDup prev →
  prev' = prev
  ∧ (∀ i, (i < length prev - 1)%nat →
          (prev' !! i ≫= λ ref, heap' !! ref) = (prev !! i ≫= λ ref, heap !! ref))
  ∧ (∀ ref, last prev ≠ Some ref → heap' !! ref = heap !! ref)
  ∧ ∃ ref lastMsg, last prev = Some ref ∧ heap !! ref = Some lastMsg
      ∧ heap' !! ref = Some (if isAssistant lastMsg && isNormal lastMsg
                             then setContent acc lastMsg else lastMsg).
Proof.
  unfold chunkUpdateRef. intros H Hnd.
  rewrite lookup_last in H.
  destruct (last prev) as [ref|] eqn:Hlast; [|done].
  destruct (heap !! ref) as [lastMsg|] eqn:Href; [|done].
  assert (∀ i, (i < length prev - 1)%nat → prev !! i ≠ Some ref) as Hother.
  { intros i Hi Hi'. rewrite <- lookup_last in Hlast.
    pose proof (NoDup_lookup _ _ _ _ Hnd Hi' Hlast). lia. }
  destruct (isAssistant lastMsg && isNormal lastMsg) eqn:Hc;
    injection H as <- <-.
  - split_and!; [done| | |].
    + intros i Hi. destruct (prev !! i) as [r|] eqn:Hr; [|done]. simpl.
      apply lookup_insert_ne. intros ->. by apply (Hother i).
    + intros r Hr. apply lookup_insert_ne. by intros ->.
    + exists ref, lastMsg. rewrite Hc. split_and!; [done..|].
      apply lookup_insert_eq.
  - split_and!; [done|done|done|]. exists ref, lastMsg. by rewrite Hc.
Qed.

Lemma chunk_update_frame_witness :
  NoDup [0; 1; 2]%nat
  ∧ ([0; 1; 2]%nat !! 0%nat ≫= λ ref,
       <[2%nat := setContent (js "Pho") (placeholderMessage 3)]> Scenario.heap3 !! ref)
    = Some (errorMessage (js "x") 1).
Proof.
  assert (NoDup [0; 1; 2]%nat) as Hnd by (apply (bool_decide_unpack _); exact I).
  split; [exact Hnd|].
  destruct (chunk_update_frame (js "Pho") Scenario.heap3 [0; 1; 2]%nat
              (<[2%nat := setContent (js "Pho") (placeholderMessage 3)]> Scenario.heap3)
              [0; 1; 2]%nat eq_refl Hnd) as (_ & H & _).
  rewrite (H 0%nat ltac:(simpl; lia)). reflexivity.
Defined.

Lemma deref_insert_other (heap : gmap nat Message) ref x (base : list nat) bms :
  ref ∉ base →
  Forall2 (λ r m, heap !! r = Some m) base bms →
  Forall2 (λ r m, <[ref := x]> heap !! r = Some m) base bms.
Proof.
  intros Hne Hb. induction Hb as [|r m base bms Hr Hb IH]; constructor.
  - rewrite lookup_insert_ne; [done|]. intros ->. apply Hne. by left.
  - apply IH. intros Hin. apply Hne. by right.
Qed.

(** On arrays that hold each object once, the update on the objects is the
    update on the message values. *)
Lemma chunkUpdateRef_values acc heap (prev : list nat) ms :
  NoDup prev → deref heap prev = Some ms →
  match chunkUpdateRef acc heap prev with
  | Some (heap', prev') => deref heap' prev' = chunkUpdate acc ms
  | None => chunkUpdate acc ms = None
  end.
Proof.
  unfold deref. intros Hnd Hms. apply mapM_Some in Hms.
  destruct (last prev) as [ref|] eqn:Hlast.
  - apply last_Some in Hlast as [base ->].
    apply Forall2_app_inv_l in Hms as (bms & lm & Hb & Hl & ->).
    inversion Hl as [|r m ? ? Hm Hnil]; subst. inversion Hnil; subst.
    unfold chunkUpdateRef, chunkUpdate.
    rewrite !lookup_last_app, Hm.
    destruct (isAssistant m && isNormal m); [|by apply mapM_Some, Forall2_app; auto].
    rewrite insert_last_app. apply mapM_Some, Forall2_app.
    + apply NoDup_app in Hnd as (_ & Hne & _).
      apply deref_insert_other; [|done]. intros Hin.
      apply (Hne ref Hin). by left.
    + repeat constructor. apply lookup_insert_eq.
  - apply last_None in Hlast as ->. inversion Hms; subst. done.
Qed.

Lemma chunkUpdate_earlier acc prev new i :
  chunkUpdate acc prev = Some new → (i < length prev - 1)%nat →
  new !! i = prev !! i.
Proof.
  unfold chunkUpdate. intros H Hi.
  destruct (prev !! (length prev - 1)%nat); [|done].
  destruct (isAssistant m && isNormal m); injection H as <-; [|done].
  apply list_lookup_insert_ne. lia.
Qed.

(** ** The chat page with streaming *)

Ltac chat_unfold :=
  unfold ChatPage.handleSend, ChatPage.handleVoiceTranscript, ChatPage.failed,
    ChatPage.settled, ChatPage.sendOpened, ChatPage.sendChunk, ChatPage.sendDone,
    ChatPage.handle2MinConcept, ChatPage.handleWeaknessAnalysis,
    ChatPage.handleNewChat, ChatPage.handleResetChat, ChatPage.handleResetInput,
    ChatPage.resetChat, ChatPage.onReset, ChatPage.loadUserMemory, ChatPage.streaming, ChatPage.streamed, ChatPage.render,
    ChatPage.setCalls, ChatPage.setTimers, ChatPage.setLoading,
    ChatPage.setInput, ChatPage.setSessionId, ChatPage.setMessages in *;
  simpl in *.

Lemma chat_run_app s es1 es2 :
  ChatPage.run s (es1 ++ es2) = ChatPage.run s es1 ≫= λ s', ChatPage.run s' es2.
Proof.
  revert s. induction es1 as [|e es1 IH]; intros s; simpl; [done|].
  destruct (ChatPage.step s e); simpl; [apply IH|done].
Qed.

Lemma submit_opened s now opened :
  ChatPage.calls s = [] → ChatPage.loading s = false →
  ChatPage.blank (ChatPage.input s) = false →
  ChatPage.run s [ChatPage.Submit now; ChatPage.SendOpened 0 opened]
  = Some (ChatPage.streaming s now opened []).
Proof.
  destruct s as [ms inp ld sid cs ts]. simpl. intros -> -> Hb.
  chat_unfold. rewrite Hb. chat_unfold. by rewrite <- app_assoc.
Qed.

Lemma streaming_chunks s now opened acc chunks :
  ChatPage.run (ChatPage.streaming s now opened acc) (ChatPage.SendChunk 0 <$> chunks)
  = Some (ChatPage.streaming s now opened (acc ++ concat chunks)).
Proof.
  revert acc. induction chunks as [|c chunks IH]; intros acc; simpl.
  - by rewrite app_nil_r.
  - chat_unfold.
    rewrite chunkUpdate_last2 by done. simpl. rewrite app_assoc.
    specialize (IH (acc ++ c)). by chat_unfold.
Qed.

(** A chunk that arrives leaves the length of the transcript and every
    message before the last one as they are, whatever state the page is in. *)
Lemma chunk_step_frame s i chunkValue s' j :
  ChatPage.step s (ChatPage.SendChunk i chunkValue) = Some s' →
  length (ChatPage.messages s') = length (ChatPage.messages s)
  ∧ ((j < length (ChatPage.messages s) - 1)%nat →
     ChatPage.messages s' !! j = ChatPage.messages s !! j).
Proof.
  simpl. destruct (ChatPage.calls s !! i) as [[]|]; try done.
  unfold ChatPage.sendChunk.
  destruct (chunkUpdate _ (ChatPage.messages s)) as [new|] eqn:Hnew; [|done].
  simpl. intros [= <-]. simpl. split.
  - unfold chunkUpdate in Hnew. repeat case_match; simplify_eq; [|done].
    apply length_insert.
  - intros Hj. by eapply chunkUpdate_earlier.
Qed.

(** C1. A send whose stream delivers the chunks [chunks] (as decoded, in
    this order): while it is read, the accumulated string and the content of
    the assistant message are the concatenation of the chunks so far, and the
    message has no confidence and no ask-back question; when it has ended,
    the content, the confidence and the ask-back question of the assistant
    message are those [parseAIResponse] gives for the concatenation of all
    chunks. *)
Theorem stream_reassembly s now opened ended chunks :
  ChatPage.calls s = [] → ChatPage.loading s = false →
  ChatPage.blank (ChatPage.input s) = false →
  (∃ s1 m,
      ChatPage.run s
        (ChatPage.Submit now :: ChatPage.SendOpened 0 opened
           :: (ChatPage.SendChunk 0 <$> chunks)) = Some s1
      ∧ ChatPage.calls s1 = [ChatPage.SendStreaming (concat chunks)]
      ∧ ChatPage.messages s1
        = ChatPage.messages s ++ [userMessage (ChatPage.input s) now; m]
      ∧ role m = assistant
      ∧ content m = concat chunks
      ∧ confidence m = None
      ∧ askBackQuestion m = None)
  ∧ ∃ parsed s2 m,
      parseAIResponse (concat chunks) = Ret parsed
      ∧ ChatPage.run s (ChatPage.sendAndStream now opened ended chunks) = Some s2
      ∧ ChatPage.messages s2
        = ChatPage.messages s ++ [userMessage (ChatPage.input s) now; m]
      ∧ role m = assistant
      ∧ content m = p_content parsed
      ∧ confidence m = p_confidence parsed
      ∧ askBackQuestion m = p_askBackQuestion parsed.
Proof.
  intros Hc Hl Hb.
  assert (ChatPage.run s
            ([ChatPage.Submit now; ChatPage.SendOpened 0 opened]
               ++ (ChatPage.SendChunk 0 <$> chunks))
          = Some (ChatPage.streaming s now opened (concat chunks))) as Hrun.
  { rewrite chat_run_app, submit_opened by done. simpl.
    apply (streaming_chunks s now opened []). }
  split.
  - exists (ChatPage.streaming s now opened (concat chunks)),
      (setContent (concat chunks) (placeholderMessage opened)).
    split; [exact Hrun|]. split_and!; reflexivity.
  - destruct (parseAIResponse_returns (concat chunks)) as [parsed Hp].
    exists parsed, (ChatPage.streamed s now opened parsed),
      (setParsed parsed (placeholderMessage opened)).
    split; [done|]. split; [|split_and!; reflexivity].
    unfold ChatPage.sendAndStream.
    change (ChatPage.run s
              (([ChatPage.Submit now; ChatPage.SendOpened 0 opened]
                  ++ (ChatPage.SendChunk 0 <$> chunks))
                 ++ [ChatPage.SendDone 0 ended])
            = Some (ChatPage.streamed s now opened parsed)).
    rewrite chat_run_app, Hrun. simpl. chat_unfold.
    rewrite app_nil_r, chunkUpdate_last2, Hp by done. simpl.
    rewrite finalUpdate_last2 by done. done.
Qed.

Lemma stream_reassembly_witness :
  ∃ s2 m,
    ChatPage.run Scenario.oneExchange
      (ChatPage.sendAndStream 3 4 5
         [js "Pho"; js "to"; js "synthesis is... Confi"; js "dence: High"])
    = Some s2
    ∧ ChatPage.messages s2
      = ChatPage.messages Scenario.oneExchange
        ++ [userMessage (js "explain photosynthesis") 3; m]
    ∧ content m = js "Photosynthesis is..."
    ∧ confidence m = Some (js "high")
    ∧ askBackQuestion m = None.
Proof.
  destruct (stream_reassembly Scenario.oneExchange 3 4 5
              [js "Pho"; js "to"; js "synthesis is... Confi"; js "dence: High"]
              eq_refl eq_refl eq_refl)
    as (_ & parsed & s2 & m & Hp & Hrun & Hms & _ & Hcontent & Hconf & Hask).
  vm_compute in Hp. injection Hp as <-.
  exists s2, m. split_and!; [exact Hrun|exact Hms|exact Hcontent|exact Hconf|exact Hask].
Defined.

(** The fields come from the whole text: here no chunk holds a confidence,
    the concatenation does. *)
Example confidence_across_chunks :
  parseAIResponse (js "Light. Confidence: Hi") = Ret
    {| p_content := js "Light."; p_confidence := None; p_askBackQuestion := None |}
  ∧ parseAIResponse (js "gh") = Ret
    {| p_content := js "gh"; p_confidence := None; p_askBackQuestion := None |}
  ∧ parseAIResponse (concat [js "Light. Confidence: Hi"; js "gh"]) = Ret
    {| p_content := js "Light."; p_confidence := Some (js "high");
       p_askBackQuestion := None |}.
Proof. vm_compute. done. Qed.

(** ** The chat page with history *)

Ltac hist_unfold :=
  unfold HistoryPage.handleSend, HistoryPage.sendArrived, HistoryPage.failed,
    HistoryPage.handleNewChat, HistoryPage.handleResetChat,
    HistoryPage.handleDeleteAllChats, HistoryPage.rotate,
    HistoryPage.handleSelectChat, HistoryPage.loaded,
    HistoryPage.handle2MinConcept, HistoryPage.handleWeaknessAnalysis,
    HistoryPage.effects, HistoryPage.updateMessages, HistoryPage.titleEffect,
    HistoryPage.autoGenerateTitle, HistoryPage.loadCurrentSession,
    HistoryPage.logTitleCall, HistoryPage.setCalls, HistoryPage.setFlag,
    HistoryPage.setCurrentTitle, HistoryPage.setCurrentSessionId,
    HistoryPage.setLoading, HistoryPage.setInput, HistoryPage.setMessages in *;
  simpl in *.

#[local] Arguments HistoryPage.effects : simpl never.
#[local] Arguments HistoryPage.titleEffect : simpl never.

Lemma titleEffect_messages env s :
  HistoryPage.messages (HistoryPage.titleEffect env s) = HistoryPage.messages s.
Proof. hist_unfold. by repeat case_match. Qed.

Lemma effects_messages env before b s :
  HistoryPage.messages (HistoryPage.effects env before b s)
  = HistoryPage.messages s.
Proof.
  unfold HistoryPage.effects. destruct b; [rewrite titleEffect_messages|];
    case_bool_decide; try done; unfold HistoryPage.loadCurrentSession;
    by repeat case_match.
Qed.

Lemma effects_session env before b s :
  HistoryPage.currentSessionId (HistoryPage.effects env before b s)
  = HistoryPage.currentSessionId s.
Proof. hist_unfold. by repeat case_match. Qed.

Lemma titleEffect_calls env s :
  ∃ extra, HistoryPage.calls (HistoryPage.titleEffect env s)
           = HistoryPage.calls s ++ extra.
Proof.
  hist_unfold. repeat case_match; simpl; eauto using app_nil_r.
  all: by exists [].
Qed.

Lemma effects_calls env before b s :
  ∃ extra, HistoryPage.calls (HistoryPage.effects env before b s)
           = HistoryPage.calls s ++ extra.
Proof.
  unfold HistoryPage.effects.
  set (s1 := if bool_decide _ then s else _).
  assert (∃ extra, HistoryPage.calls s1 = HistoryPage.calls s ++ extra)
    as [e1 He1].
  { unfold s1, HistoryPage.loadCurrentSession, HistoryPage.setCalls.
    repeat case_match; simpl; eauto. all: exists []; by rewrite app_nil_r. }
  destruct b; [|eauto].
  destruct (titleEffect_calls env s1) as [e2 He2].
  exists (e1 ++ e2). by rewrite He2, He1, app_assoc.
Qed.

Lemma hist_submit env s now :
  HistoryPage.loading s = false →
  HistoryPage.blank (HistoryPage.input s) = false →
  ∃ s1, HistoryPage.step env s (HistoryPage.Submit now) = Some s1
        ∧ HistoryPage.messages s1
          = HistoryPage.messages s ++ [userMessage (HistoryPage.input s) now]
        ∧ HistoryPage.calls s1 !! length (HistoryPage.calls s)
          = Some (HistoryPage.SendAwaiting (HistoryPage.currentSessionId s))
        ∧ HistoryPage.currentSessionId s1 = HistoryPage.currentSessionId s.
Proof.
  intros Hl Hb. unfold HistoryPage.step. rewrite Hl, Hb. simpl.
  eexists. split; [done|]. rewrite effects_messages, effects_session.
  split_and!.
  - unfold HistoryPage.handleSend. by rewrite Hl, Hb.
  - destruct (effects_calls env s true (HistoryPage.handleSend now s))
      as [extra ->].
    unfold HistoryPage.handleSend. rewrite Hl, Hb. simpl.
    rewrite <- app_assoc. simpl. by rewrite list_lookup_middle.
  - unfold HistoryPage.handleSend. by rewrite Hl, Hb.
Qed.

(** C6. A failed completion request: the handler appends one assistant
    message that carries the error text to the transcript as it is, and
    removes nothing from it.  After a send, the transcript is the earlier
    one, the user's message and the notice; when the stream fails while it is
    read, the partial assistant message stays before the notice. *)
Theorem failure_keeps_transcript (message : jstring) (later : Z) :
  (∀ env s i sid,
      HistoryPage.calls s !! i = Some (HistoryPage.SendAwaiting sid) →
      ∃ s', HistoryPage.step env s (HistoryPage.SendFailed i message later) = Some s'
            ∧ HistoryPage.messages s'
              = HistoryPage.messages s ++ [errorMessage message later])
  ∧ (∀ s i c,
      ChatPage.calls s !! i = Some c →
      c = ChatPage.SendAwaiting ∨ (∃ acc, c = ChatPage.SendStreaming acc)
      ∨ c = ChatPage.SendSaving →
      ∃ s', ChatPage.step s (ChatPage.SendFailed i message later) = Some s'
            ∧ ChatPage.messages s'
              = ChatPage.messages s ++ [errorMessage message later])
  ∧ (∀ env s now,
      HistoryPage.calls s = [] → HistoryPage.loading s = false →
      HistoryPage.blank (HistoryPage.input s) = false →
      ∃ s', HistoryPage.run env s
              [HistoryPage.Submit now; HistoryPage.SendFailed 0 message later]
            = Some s'
            ∧ HistoryPage.messages s'
              = HistoryPage.messages s
                ++ [userMessage (HistoryPage.input s) now;
                    errorMessage message later])
  ∧ (∀ s now opened chunks,
      ChatPage.calls s = [] → ChatPage.loading s = false →
      ChatPage.blank (ChatPage.input s) = false →
      (∃ s', ChatPage.run s
               [ChatPage.Submit now; ChatPage.SendFailed 0 message later]
             = Some s'
             ∧ ChatPage.messages s'
               = ChatPage.messages s
                 ++ [userMessage (ChatPage.input s) now;
                     errorMessage message later])
      ∧ (∃ s', ChatPage.run s
                 (ChatPage.Submit now :: ChatPage.SendOpened 0 opened
                    :: (ChatPage.SendChunk 0 <$> chunks)
                    ++ [ChatPage.SendFailed 0 message later])
               = Some s'
               ∧ ChatPage.messages s'
                 = ChatPage.messages s
                   ++ [userMessage (ChatPage.input s) now;
                       setContent (concat chunks) (placeholderMessage opened);
                       errorMessage message later]))
  ∧ role (errorMessage message later) = assistant
  ∧ content (errorMessage message later)
    = js "Sorry, I encountered an error: " ++ message ++ js ". Please try again.".
Proof.
  split_and!; [| | | |done|done].
  - intros env s i sid Hi. simpl. rewrite Hi. eexists. split; [done|].
    by rewrite effects_messages.
  - intros s i c Hi Hc. simpl. rewrite Hi.
    destruct Hc as [->|[[acc ->]| ->]]; by eexists.
  - intros env s now Hc Hl Hb.
    destruct (hist_submit env s now Hl Hb) as (s1 & Hstep & Hms & Hcall & _).
    rewrite Hc in Hcall. simpl in Hcall.
    cbn [HistoryPage.run]. rewrite Hstep. simpl. rewrite Hcall.
    eexists. split; [done|].
    rewrite effects_messages. unfold HistoryPage.failed. simpl.
    by rewrite Hms, <- app_assoc.
  - intros s now opened chunks Hc Hl Hb. split.
    + destruct s as [ms inp ld sid cs ts]. simpl in *. subst.
      chat_unfold. rewrite Hb. chat_unfold. eexists. split; [done|].
      by rewrite <- app_assoc.
    + change (ChatPage.Submit now :: ChatPage.SendOpened 0 opened
                :: (ChatPage.SendChunk 0 <$> chunks)
                ++ [ChatPage.SendFailed 0 message later])
        with ([ChatPage.Submit now; ChatPage.SendOpened 0 opened]
                ++ ((ChatPage.SendChunk 0 <$> chunks)
                      ++ [ChatPage.SendFailed 0 message later])).
      rewrite chat_run_app, submit_opened by done. simpl.
      rewrite chat_run_app, streaming_chunks. simpl.
      eexists. split; [done|]. chat_unfold. by rewrite <- app_assoc.
Qed.

Lemma failure_keeps_transcript_witness :
  ∃ s', ChatPage.run Scenario.oneExchange
          [ChatPage.Submit 3; ChatPage.SendFailed 0 (js "Failed to fetch") 4]
        = Some s'
        ∧ ChatPage.messages s'
          = ChatPage.messages Scenario.oneExchange
            ++ [userMessage (js "explain photosynthesis") 3;
                errorMessage (js "Failed to fetch") 4].
Proof.
  destruct (failure_keeps_transcript (js "Failed to fetch") 4)
    as (_ & _ & _ & H & _).
  exact (proj1 (H Scenario.oneExchange 3%Z 0%Z [] eq_refl eq_refl eq_refl)).
Defined.

(** C2, as the code has it.  The reply of a send is appended to the
    transcript that is current when it arrives, whatever session the
    request was sent in: the handler neither keeps the session identifier of
    the request nor compares one. *)
Theorem late_reply_is_appended env s i sentIn response now :
  HistoryPage.calls s !! i = Some (HistoryPage.SendAwaiting sentIn) →
  ∃ s', HistoryPage.step env s (HistoryPage.SendOk i response now) = Some s'
        ∧ HistoryPage.currentSessionId s' = HistoryPage.currentSessionId s
        ∧ ∃ parsed, parseAIResponse response = Ret parsed
            ∧ HistoryPage.messages s'
              = HistoryPage.messages s ++ [parsedMessage parsed now].
Proof.
  intros Hi. unfold HistoryPage.step. rewrite Hi. eexists. split; [done|].
  rewrite effects_session, effects_messages.
  destruct (parseAIResponse_returns response) as [parsed Hp].
  split; [done|]. exists parsed. split; [done|].
  unfold HistoryPage.sendArrived. simpl. by rewrite Hp.
Qed.

Lemma late_reply_is_appended_witness :
  ∃ s', HistoryPage.step Scenario.signedIn Scenario.rotated
          (HistoryPage.SendOk 0 (js "hello") 2) = Some s'
        ∧ HistoryPage.currentSessionId s' = js "chat-2"
        ∧ ∃ parsed, parseAIResponse (js "hello") = Ret parsed
            ∧ HistoryPage.messages s' = [] ++ [parsedMessage parsed 2].
Proof.
  exact (late_reply_is_appended Scenario.signedIn Scenario.rotated 0
           (js "chat-1") (js "hello") 2 eq_refl).
Defined.

(** C2, as stated, fails: the request is sent in session [chat-1], the
    session rotates to [chat-2], and the reply ends up in the transcript of
    [chat-2]. *)
Lemma late_reply_lands_in_rotated_session :
  (HistoryPage.calls <$>
     HistoryPage.run Scenario.signedIn (HistoryPage.initial (js "chat-1"))
       (take 3 Scenario.rotationTrace))
  = Some [HistoryPage.SendAwaiting (js "chat-1");
          HistoryPage.LoadAwaiting (js "chat-2")]
  ∧ HistoryPage.run Scenario.signedIn (HistoryPage.initial (js "chat-1"))
      (take 3 Scenario.rotationTrace) = Some Scenario.rotated
  ∧ ((λ s, (HistoryPage.currentSessionId s,
            (λ m, (role m, content m)) <$> HistoryPage.messages s)) <$>
       HistoryPage.run Scenario.signedIn (HistoryPage.initial (js "chat-1"))
         Scenario.rotationTrace)
    = Some (js "chat-2", [(assistant, js "hello")]).
Proof. vm_compute. done. Qed.

(** *** The title *)

Lemma titleEffect_budget env s :
  (HistoryPage.titleBudget (HistoryPage.titleEffect env s)
   ≤ HistoryPage.titleBudget s)%nat.
Proof.
  destruct s as [ms inp ld sid t f cs tc].
  unfold HistoryPage.titleBudget. hist_unfold.
  destruct f; simpl; [by rewrite andb_false_r|].
  repeat case_match; simpl in *; try discriminate;
    rewrite ?length_app; simpl; lia.
Qed.

Lemma effects_budget env before b s :
  (HistoryPage.titleBudget (HistoryPage.effects env before b s)
   ≤ HistoryPage.titleBudget s)%nat.
Proof.
  unfold HistoryPage.effects.
  set (s1 := if bool_decide _ then s else _).
  assert (HistoryPage.titleBudget s1 = HistoryPage.titleBudget s) as <-.
  { unfold s1, HistoryPage.loadCurrentSession. by repeat case_match. }
  destruct b; [apply titleEffect_budget|done].
Qed.

(** A step that does not assign the flag never raises the budget. *)
Lemma step_budget env s e s' :
  HistoryPage.assignsFlag e = false →
  HistoryPage.step env s e = Some s' →
  (HistoryPage.titleBudget s' ≤ HistoryPage.titleBudget s)%nat.
Proof.
  intros He Hstep. destruct e; try discriminate He; simpl in Hstep;
    repeat case_match; try discriminate Hstep; injection Hstep as <-;
    try (etrans; [apply effects_budget|]);
    unfold HistoryPage.handleSend, HistoryPage.handle2MinConcept,
      HistoryPage.handleWeaknessAnalysis; repeat case_match; done.
Qed.

Lemma run_budget env s es s' :
  forallb (λ e, negb (HistoryPage.assignsFlag e)) es = true →
  HistoryPage.run env s es = Some s' →
  (HistoryPage.titleBudget s' ≤ HistoryPage.titleBudget s)%nat.
Proof.
  revert s. induction es as [|e es IH]; intros s Hes Hrun; simpl in *.
  - by injection Hrun as <-.
  - apply andb_true_iff in Hes as [He Hes]. apply negb_true_iff in He.
    destruct (HistoryPage.step env s e) as [s1|] eqn:Hstep; [|done].
    simpl in Hrun. etrans; [by apply (IH s1)|]. by eapply step_budget.
Qed.

Lemma updateAll_budget env s fs :
  (HistoryPage.titleBudget (HistoryPage.updateAll env s fs)
   ≤ HistoryPage.titleBudget s)%nat.
Proof.
  unfold HistoryPage.updateAll. revert s.
  induction fs as [|f fs IH]; intros s; simpl; [done|].
  etrans; [apply IH|]. unfold HistoryPage.updateMessages.
  etrans; [apply titleEffect_budget|done].
Qed.

Lemma titleEffect_flagged env s :
  HistoryPage.hasGeneratedTitle s = true → HistoryPage.titleEffect env s = s.
Proof.
  intros Hf. unfold HistoryPage.titleEffect. rewrite Hf. simpl.
  by rewrite andb_false_r.
Qed.

Lemma updateAll_flagged env s fs :
  HistoryPage.hasGeneratedTitle s = true →
  HistoryPage.titleCalls (HistoryPage.updateAll env s fs)
  = HistoryPage.titleCalls s.
Proof.
  unfold HistoryPage.updateAll. revert s.
  induction fs as [|f fs IH]; intros s Hf; simpl; [done|].
  unfold HistoryPage.updateMessages at 2.
  rewrite titleEffect_flagged by done. by rewrite IH.
Qed.

Lemma budget_after_clear s :
  (HistoryPage.titleBudget s ≤ S (length (HistoryPage.titleCalls s)))%nat.
Proof. unfold HistoryPage.titleBudget. destruct (HistoryPage.hasGeneratedTitle s); lia. Qed.

Lemma budget_ge s :
  (length (HistoryPage.titleCalls s) ≤ HistoryPage.titleBudget s)%nat.
Proof. unfold HistoryPage.titleBudget. lia. Qed.

(** A step raises the budget by one at most, and only when it clears the
    flag. *)
Lemma step_budget_clear env s e s' :
  HistoryPage.step env s e = Some s' →
  (HistoryPage.titleBudget s'
   ≤ HistoryPage.titleBudget s + if Derived.clearsFlag e then 1 else 0)%nat.
Proof.
  intros Hstep.
  destruct (HistoryPage.assignsFlag e) eqn:Ha.
  - destruct e; try discriminate Ha; simpl in Hstep;
      repeat case_match; try discriminate Hstep; injection Hstep as <-;
      (etrans; [apply effects_budget|]); simpl.
    all: try (etrans; [apply budget_after_clear|];
              pose proof (budget_ge s); hist_unfold; simpl; lia).
    all: unfold HistoryPage.titleBudget; hist_unfold;
      repeat case_match; simpl in *; try discriminate; try lia.
  - etrans; [by eapply step_budget|]. lia.
Qed.

Lemma run_budget_clear env s es s' :
  HistoryPage.run env s es = Some s' →
  (HistoryPage.titleBudget s'
   ≤ HistoryPage.titleBudget s + Derived.clearings es)%nat.
Proof.
  revert s. induction es as [|e es IH]; intros s Hrun; simpl in *.
  - injection Hrun as <-. unfold Derived.clearings. simpl. lia.
  - destruct (HistoryPage.step env s e) as [s1|] eqn:Hstep; [|done].
    simpl in Hrun. pose proof (IH s1 Hrun) as H1.
    pose proof (step_budget_clear env s e s1 Hstep) as H2.
    unfold Derived.clearings in *. rewrite filter_cons.
    destruct (Derived.clearsFlag e); simpl in *; lia.
Qed.

(** C5, as the code has it.  [generateTitle] is invoked at most once for
    each time the one-shot flag is clear: over any sequence of events, the
    invocations are at most as many as the clearings of the flag, and one
    more when the flag is clear at the start; over updates of the messages
    array alone, at most one.  The first update that leaves two or more
    messages with the flag unset and a user signed in sets the flag;
    [generateTitle] is invoked then, with the first user message and 7, when
    the Supabase client exists and the transcript has a user message, and
    not at all otherwise; no later update invokes it.  New Chat, Reset Chat
    and Delete All clear the flag, and so does the answer of a session load
    that brings no stored title. *)
Theorem title_at_most_once env s :
  (∀ es s',
      HistoryPage.run env s es = Some s' →
      (length (HistoryPage.titleCalls s')
       ≤ length (HistoryPage.titleCalls s)
         + (if HistoryPage.hasGeneratedTitle s then 0 else 1)
         + Derived.clearings es)%nat)
  ∧ (∀ fs,
      (length (HistoryPage.titleCalls (HistoryPage.updateAll env s fs))
       ≤ length (HistoryPage.titleCalls s)
         + if HistoryPage.hasGeneratedTitle s then 0 else 1)%nat)
  ∧ (∀ f fs,
      HistoryPage.hasGeneratedTitle s = false →
      is_Some (HistoryPage.user env) →
      (2 ≤ length (f (HistoryPage.messages s)))%nat →
      HistoryPage.hasGeneratedTitle (HistoryPage.updateMessages env f s) = true
      ∧ HistoryPage.titleCalls (HistoryPage.updateAll env s (f :: fs))
        = HistoryPage.titleCalls s
          ++ if HistoryPage.supabase env
             then match find isUser (f (HistoryPage.messages s)) with
                  | Some firstUserMessage => [(content firstUserMessage, 7%Z)]
                  | None => []
                  end
             else [])
  ∧ (∀ sid,
      HistoryPage.hasGeneratedTitle (HistoryPage.handleNewChat sid s) = false
      ∧ HistoryPage.hasGeneratedTitle (HistoryPage.handleResetChat sid s) = false
      ∧ HistoryPage.hasGeneratedTitle (HistoryPage.handleDeleteAllChats sid s)
        = false)
  ∧ (∀ i item,
      HistoryPage.hasGeneratedTitle (HistoryPage.loaded i item s)
      = match item with
        | Some (_, title) => negb (bool_decide (title = []))
        | None => false
        end).
Proof.
  split_and!.
  - intros es s' Hrun. pose proof (run_budget_clear env s es s' Hrun) as H.
    unfold HistoryPage.titleBudget in H.
    destruct (HistoryPage.hasGeneratedTitle s'); lia.
  - intros fs. pose proof (updateAll_budget env s fs) as H.
    unfold HistoryPage.titleBudget in H.
    destruct (HistoryPage.hasGeneratedTitle (HistoryPage.updateAll env s fs)); lia.
  - intros f fs Hf Hu Hlen.
    assert (HistoryPage.hasGeneratedTitle (HistoryPage.updateMessages env f s)
            = true
            ∧ HistoryPage.titleCalls (HistoryPage.updateMessages env f s)
              = HistoryPage.titleCalls s
                ++ if HistoryPage.supabase env
                   then match find isUser (f (HistoryPage.messages s)) with
                        | Some firstUserMessage => [(content firstUserMessage, 7%Z)]
                        | None => []
                        end
                   else []) as [Hflag Hcalls].
    { destruct s as [ms inp ld sid t fl cs tc]. simpl in *. subst fl.
      hist_unfold.
      rewrite !bool_decide_true by (done || lia). simpl.
      rewrite bool_decide_false by lia. rewrite orb_false_r.
      destruct (HistoryPage.supabase env); simpl; [|by rewrite app_nil_r].
      destruct (find isUser (f ms)); simpl; [done|by rewrite app_nil_r]. }
    split; [done|].
    change (HistoryPage.updateAll env s (f :: fs))
      with (HistoryPage.updateAll env (HistoryPage.updateMessages env f s) fs).
    by rewrite updateAll_flagged.
  - done.
  - intros i [[ms title]|]; done.
Qed.

Lemma title_at_most_once_witness :
  HistoryPage.titleCalls
    (HistoryPage.updateAll Scenario.signedIn (HistoryPage.initial (js "chat-1"))
       [λ _, [userMessage (js "what is a cell") 1;
              errorMessage (js "x") 2];
        λ prev, prev ++ [userMessage (js "and a nucleus") 3]])
  = [] ++ [(js "what is a cell", 7%Z)].
Proof.
  exact (proj2 (proj1 (proj2 (proj2
           (title_at_most_once Scenario.signedIn
              (HistoryPage.initial (js "chat-1")))))
           (λ _, [userMessage (js "what is a cell") 1; errorMessage (js "x") 2])
           [λ prev, prev ++ [userMessage (js "and a nucleus") 3]]
           eq_refl (mk_is_Some _ _ eq_refl) (le_n 2))).
Defined.

(** C5, as stated, fails in both directions.  With a user signed in,
    Supabase configured and the flag unset, the messages array reaches
    length 2 with a notice and a concept card, no user message: the flag is
    set and [generateTitle] is not invoked, neither then nor for the exchange
    that follows.  And within one session, with no rotation in between,
    [generateTitle] is invoked twice: the load that New Chat has started
    answers after the first exchange, finds nothing stored and clears the
    flag, and the next exchange generates a title again. *)
Lemma title_not_exactly_once :
  (((λ s, (length (HistoryPage.messages s), HistoryPage.hasGeneratedTitle s,
           HistoryPage.titleCalls s)) <$>
      HistoryPage.run Scenario.signedIn (HistoryPage.initial (js "chat-1"))
        (take 2 Scenario.noUserMessageTrace))
   = Some (1%nat, false, [])
   ∧ ((λ s, (length (HistoryPage.messages s), HistoryPage.hasGeneratedTitle s,
             HistoryPage.titleCalls s)) <$>
        HistoryPage.run Scenario.signedIn (HistoryPage.initial (js "chat-1"))
          (take 3 Scenario.noUserMessageTrace))
     = Some (2%nat, true, [])
   ∧ ((λ s, (length (HistoryPage.messages s), HistoryPage.hasGeneratedTitle s,
             HistoryPage.titleCalls s)) <$>
        HistoryPage.run Scenario.signedIn (HistoryPage.initial (js "chat-1"))
          Scenario.noUserMessageTrace)
     = Some (4%nat, true, []))
  ∧ (forallb (λ e, negb (Derived.rotates e)) (drop 1 Cases.lateLoadTrace) = true
     ∧ ((λ s, (HistoryPage.currentSessionId s, HistoryPage.titleCalls s)) <$>
          HistoryPage.run Scenario.signedIn (HistoryPage.initial (js "chat-1"))
            (take 1 Cases.lateLoadTrace))
       = Some (js "chat-2", [])
     ∧ ((λ s, (HistoryPage.currentSessionId s, HistoryPage.titleCalls s)) <$>
          HistoryPage.run Scenario.signedIn (HistoryPage.initial (js "chat-1"))
            (take 4 Cases.lateLoadTrace))
       = Some (js "chat-2", [(js "what is a cell", 7%Z)])
     ∧ ((λ s, (HistoryPage.currentSessionId s, HistoryPage.titleCalls s)) <$>
          HistoryPage.run Scenario.signedIn (HistoryPage.initial (js "chat-1"))
            Cases.lateLoadTrace)
       = Some (js "chat-2",
               [(js "what is a cell", 7%Z); (js "and a nucleus", 7%Z)])).
Proof. vm_compute. done. Qed.

(** ** Requests in flight on the chat page *)

(** The guard of [handleSend], on the values of the render it belongs to,
    and the [disabled] attribute of the send button. *)
Lemma handleSend_guard r now s :
  (ChatPage.r_loading r = true ∨ ChatPage.blank (ChatPage.r_input r) = true →
   ChatPage.handleSend r now s = s)
  ∧ (ChatPage.submitDisabled r = true ↔
     ChatPage.r_loading r = true ∨ ChatPage.blank (ChatPage.r_input r) = true).
Proof.
  unfold ChatPage.handleSend, ChatPage.submitDisabled. split.
  - intros [-> | ->]; [by rewrite orb_true_r|done].
  - rewrite orb_true_iff. tauto.
Qed.

Lemma oneCall_step s e s' :
  ChatPage.fromTimer e = false →
  ChatPage.oneCall s → ChatPage.step s e = Some s' → ChatPage.oneCall s'.
Proof.
  intros He Hinv Hstep. destruct s as [ms inp ld sid cs ts].
  unfold ChatPage.oneCall in *. simpl in Hinv.
  assert (cs = [] ∨ ∃ c, ld = true ∧ cs = [c]) as Hcs.
  { destruct Hinv as [->|[-> Hlen]]; [by left|right].
    destruct cs as [|c [|]]; simpl in Hlen; try lia. by exists c. }
  clear Hinv.
  destruct e; try discriminate He; simpl in Hstep; chat_unfold.
  all: destruct Hcs as [->|(c & -> & ->)]; simpl in *.
  all: try match goal with
           | i : nat |- _ => destruct i as [|i]; simpl in *
           end.
  all: rewrite ?orb_true_r in *.
  all: repeat first [case_match | progress simplify_eq/=].
  all: try (left; reflexivity).
  all: try (right; split; reflexivity).
  all: try done.
  all: repeat first [case_match | progress simplify_option_eq].
  all: try (right; split; reflexivity).
  all: try (left; reflexivity).
Qed.

(** X1. As long as no auto-send timer fires, so that every handler runs
    with the values of the latest render, at most one request is in flight
    at any time, and [loading] is set while one is. *)
Lemma one_request_without_timers sessionId es s' :
  forallb (λ e, negb (ChatPage.fromTimer e)) es = true →
  ChatPage.run (ChatPage.initial sessionId) es = Some s' →
  (length (ChatPage.calls s') ≤ 1)%nat
  ∧ (ChatPage.calls s' ≠ [] → ChatPage.loading s' = true).
Proof.
  intros Hes Hrun.
  assert (ChatPage.oneCall s') as [->|[Hl Hlen]].
  { assert (ChatPage.oneCall (ChatPage.initial sessionId)) as Hinit by by left.
    revert Hes Hrun Hinit. generalize (ChatPage.initial sessionId).
    induction es as [|e es IH]; intros s Hes Hrun Hinv; simpl in *.
    - by injection Hrun as <-.
    - apply andb_true_iff in Hes as [He Hes]. apply negb_true_iff in He.
      destruct (ChatPage.step s e) as [s1|] eqn:Hstep; [|done].
      apply (IH s1); [done..|]. by eapply oneCall_step. }
  - simpl. split; [lia|done].
  - split; [lia|done].
Qed.

(** C8 at the failing trace.  With text in the input, a voice transcript
    sets the auto-send timer; its [handleSend] belongs to the render before
    the transcript, where [loading] is false and the input is the text.  A
    send from the keyboard starts a request; the timer then fires, passes the
    guard on the values of its own render, and starts a second request while
    the first is in flight. *)
Theorem stale_timer_second_request :
  ((λ s, (ChatPage.loading s, ChatPage.calls s,
          content <$> ChatPage.messages s)) <$>
     ChatPage.run (ChatPage.initial (js "s1")) (take 3 Scenario.staleTimerTrace))
  = Some (true, [ChatPage.SendAwaiting], [js "hi"])
  ∧ ((λ s, (ChatPage.loading s, ChatPage.calls s,
            content <$> ChatPage.messages s)) <$>
       ChatPage.run (ChatPage.initial (js "s1")) Scenario.staleTimerTrace)
    = Some (true, [ChatPage.SendAwaiting; ChatPage.SendAwaiting],
            [js "hi"; js "hello"]).
Proof. vm_compute. done. Qed.

Lemma one_request_without_timers_witness :
  ∃ s', ChatPage.run (ChatPage.initial (js "s1"))
          [ChatPage.Typed (js "hi"); ChatPage.Submit 1; ChatPage.Submit 2;
           ChatPage.Concept 3; ChatPage.Weakness] = Some s'
        ∧ (length (ChatPage.calls s') ≤ 1)%nat
        ∧ (ChatPage.calls s' ≠ [] → ChatPage.loading s' = true).
Proof.
  eexists. split; [vm_compute; reflexivity|].
  apply (one_request_without_timers (js "s1")
           [ChatPage.Typed (js "hi"); ChatPage.Submit 1; ChatPage.Submit 2;
            ChatPage.Concept 3; ChatPage.Weakness]);
    [reflexivity | vm_compute; reflexivity].
Defined.

(** ** [includes] and [analyzeIntent] *)

Lemma includes_spec s p :
  includes s p = true ↔ ∃ pre post, s = pre ++ p ++ post.
Proof.
  induction s as [|c s IH]; simpl.
  - rewrite orb_false_r, bool_decide_eq_true. split.
    + intros [k ->]. by exists [], k.
    + intros (pre & post & H). symmetry in H.
      apply app_eq_nil in H as [-> H]. apply app_eq_nil in H as [-> ->]. done.
  - rewrite orb_true_iff, bool_decide_eq_true, IH. split.
    + intros [[k ->]|(pre & post & ->)]; [by exists [], k|by exists (c :: pre), post].
    + intros (pre & post & H). destruct pre as [|x pre]; simpl in H.
      * left. by exists post.
      * injection H as -> ->. right. eauto.
Qed.

Lemma existsb_includes ps text :
  existsb (includes (toLowerCase text)) ps = true ↔ Derived.hasPattern ps text.
Proof.
  unfold Derived.hasPattern. rewrite existsb_exists. split.
  - intros (p & Hp%list_elem_of_In & (pre & post & H)%includes_spec). eauto.
  - intros (p & pre & post & Hp%list_elem_of_In & H). exists p. split; [done|].
    apply includes_spec. eauto.
Qed.

(** X6. [analyzeIntent] classifies by substrings of the lower-cased text,
    the greetings first: a text is a greeting exactly when it holds a
    greeting pattern anywhere, also inside a word and also beside a command;
    a command exactly when it holds no greeting pattern and a command
    pattern; and so on.  A voice transcript sets the auto-send timer exactly
    when it is not blank and is a greeting or a command. *)
Theorem intent_by_substring text :
  (analyzeIntent text = greeting ↔ Derived.hasPattern greetingPatterns text)
  ∧ (analyzeIntent text = command ↔
     ¬ Derived.hasPattern greetingPatterns text
     ∧ Derived.hasPattern commandPatterns text)
  ∧ (analyzeIntent text = stress ↔
     ¬ Derived.hasPattern greetingPatterns text
     ∧ ¬ Derived.hasPattern commandPatterns text
     ∧ Derived.hasPattern stressPatterns text)
  ∧ (analyzeIntent text = study ↔
     ¬ Derived.hasPattern greetingPatterns text
     ∧ ¬ Derived.hasPattern commandPatterns text
     ∧ ¬ Derived.hasPattern stressPatterns text)
  ∧ (∀ r voiceText s,
       ChatPage.timers (ChatPage.handleVoiceTranscript r text voiceText s)
       = if ChatPage.blank text then ChatPage.timers s
         else match analyzeIntent text with
              | greeting | command => ChatPage.timers s ++ [r]
              | _ => ChatPage.timers s
              end).
Proof.
  split_and!;
    [..|intros r vt s; unfold ChatPage.handleVoiceTranscript;
        destruct (ChatPage.blank text); [done|];
        by destruct (analyzeIntent text)].
  all: rewrite <- !existsb_includes; unfold analyzeIntent.
  all: cbv zeta.
  all: destruct (existsb (includes (toLowerCase text)) greetingPatterns),
         (existsb (includes (toLowerCase text)) commandPatterns),
         (existsb (includes (toLowerCase text)) stressPatterns);
    intuition congruence.
Qed.

(** ** Lower case and ASCII patterns *)

Lemma prefix_skeleton (p s : jstring) :
  Forall (λ c, (c < 128)%N) p →
  p `prefix_of` s ↔ p `prefix_of` Derived.skeleton s.
Proof.
  intros Hp. revert s. induction Hp as [|a p Ha Hp IH]; intros s.
  - split; intros _; apply prefix_nil.
  - destruct s as [|c s]; cbn [Derived.skeleton].
    + done.
    + destruct (N.ltb_spec c 128) as [Hc|Hc].
      * split; intros [k Hk]; simpl in Hk; injection Hk as -> Hk;
          apply prefix_cons; [apply (proj1 (IH _))|apply (proj2 (IH _))];
          by exists k.
      * split.
        -- intros [k Hk]. simpl in Hk. injection Hk as -> Hk. lia.
        -- intros [k Hk]. exfalso.
           destruct (Derived.skeleton s) as [|y r] eqn:Hs.
           ++ simpl in Hk. injection Hk as Hk _. lia.
           ++ destruct (N.eqb_spec y 128); simpl in Hk; injection Hk as Hk _; lia.
Qed.

(** Whether a string holds an ASCII pattern depends on its code units below
    128 and on where runs of other code units stand between them, not on
    what those other code units are. *)
Lemma includes_skeleton (s p : jstring) :
  Forall (λ c, (c < 128)%N) p → p ≠ [] →
  includes s p = includes (Derived.skeleton s) p.
Proof.
  intros Hp Hne. induction s as [|c s IH]; [done|].
  cbn [includes Derived.skeleton].
  assert (bool_decide (p `prefix_of` c :: s)
          = bool_decide (p `prefix_of` Derived.skeleton (c :: s))) as Hpre.
  { apply bool_decide_ext, prefix_skeleton, Hp. }
  cbn [Derived.skeleton] in Hpre. rewrite Hpre, IH.
  assert (∀ x r, (128 ≤ x)%N → bool_decide (p `prefix_of` x :: r) = false)
    as Hhigh.
  { intros x r Hx. apply bool_decide_eq_false. intros [k Hk].
    destruct Hp as [|a p Ha Hp]; [done|]. injection Hk as -> _. lia. }
  destruct (N.ltb_spec c 128); [done|].
  destruct (Derived.skeleton s) as [|y r] eqn:Hs.
  - cbn [includes]. by rewrite !orb_false_r.
  - destruct (N.eqb_spec y 128) as [->|Hy].
    + cbn [includes]. by rewrite Hhigh.
    + rewrite (Hhigh 128%N (y :: r)) by lia. cbn [includes].
      by rewrite (Hhigh 128%N (y :: r)) by lia.
Qed.

(** The capital I with dot above and the Kelvin sign give ASCII letters. *)
Example intent_of_special_letters :
  analyzeIntent [0x48; 0x130]%N = greeting
  ∧ analyzeIntent ([0x212A]%N ++ js "ya haal") = greeting
  ∧ analyzeIntent [0x48; 0x131]%N = study.
Proof. vm_compute. done. Qed.

(** ** [split] and the list of subjects *)

Lemma split_cons sep c s :
  Routes.split sep (c :: s) =
  if (c =? sep)%N then [] :: Routes.split sep s
  else match Routes.split sep s with
       | r :: rs => (c :: r) :: rs
       | [] => [[c]]
       end.
Proof. done. Qed.

(** The first piece is what comes before the first separator. *)
Lemma split_head sep s :
  ∃ r rs post, Routes.split sep s = r :: rs ∧ s = r ++ post.
Proof.
  induction s as [|c s (r & rs & post & IH & Hs)].
  - by exists [], [], [].
  - rewrite split_cons, IH. destruct (c =? sep)%N.
    + by exists [], (r :: rs), (c :: s).
    + exists (c :: r), rs, post. by rewrite Hs at 1.
Qed.

(** A piece holds no separator and is a contiguous part of the string. *)
Lemma split_piece sep s x :
  x ∈ Routes.split sep s → (sep ∉ x) ∧ (∃ pre post, s = pre ++ x ++ post).
Proof.
  revert x. induction s as [|c s IH]; intros x.
  - simpl. intros ->%list_elem_of_singleton. split; [by intros ?%elem_of_nil|].
    by exists [], [].
  - rewrite split_cons. destruct (N.eqb_spec c sep) as [->|Hc].
    + intros [->|Hx]%elem_of_cons.
      * split; [by intros ?%elem_of_nil|]. by exists [], (sep :: s).
      * apply IH in Hx as [Hsep (pre & post & ->)]. split; [done|].
        by exists (sep :: pre), post.
    + destruct (split_head sep s) as (r & rs & post & Hr & Hs).
      rewrite Hr in IH |- *.
      intros [->|Hx]%elem_of_cons.
      * destruct (IH r) as [Hsep _]; [left|].
        split; [intros [?|?]%elem_of_cons; done|].
        exists [], post. by rewrite Hs at 1.
      * destruct (IH x) as [Hsep (pre & post' & ->)]; [by right|].
        split; [done|]. by exists (c :: pre), post'.
Qed.

(** Every character of the string is a separator or lies in a piece. *)
Lemma split_covers sep s c :
  c ∈ s → c = sep ∨ ∃ x, x ∈ Routes.split sep s ∧ c ∈ x.
Proof.
  induction s as [|a s IH]; [by intros ?%elem_of_nil|].
  rewrite split_cons. destruct (split_head sep s) as (r & rs & post & Hr & Hs).
  rewrite Hr in IH |- *.
  intros [->|Hc]%elem_of_cons.
  - destruct (N.eqb_spec a sep) as [->|Ha]; [by left|right].
    exists (a :: r). split; left.
  - destruct (IH Hc) as [->|(x & Hx & Hcx)]; [by left|right].
    destruct (a =? sep)%N.
    + exists x. split; [by right|done].
    + apply elem_of_cons in Hx as [->|Hx].
      * exists (a :: r). split; [left|by right].
      * exists x. split; [by right|done].
Qed.

Lemma spaces_infix (x pre post : jstring) :
  Derived.spaces (pre ++ x ++ post) → Derived.spaces x.
Proof. by intros [_ [? _]%Forall_app]%Forall_app. Qed.

Lemma subjectsList_entry (subjects x : jstring) :
  x ∈ Routes.subjectsList subjects →
  x ≠ [] ∧ trim x = x ∧ (0x2C%N ∉ x)
  ∧ (∃ pre post, subjects = pre ++ x ++ post).
Proof.
  unfold Routes.subjectsList.
  intros [Hne (y & -> & Hy)%list_elem_of_fmap]%list_elem_of_filter.
  apply split_piece in Hy as [Hsep (pre & post & ->)].
  destruct (trim_decompose y) as (a & b & Hy & _ & _).
  split; [exact Hne|]. split; [apply trim_idemp|]. split.
  - intros Hin. apply Hsep. rewrite Hy. set_solver.
  - exists (pre ++ a), (b ++ post). rewrite Hy at 1. by rewrite <- !app_assoc.
Qed.

(** X9. The list of subjects of the exam planner: every entry is
    non-empty, trimmed, without a comma and a contiguous part of the
    [subjects] string; the list is empty exactly when the string holds
    commas and whitespace only (such a string passes the check for missing
    fields when it is not empty). *)
Theorem subjects_list (subjects : jstring) :
  (∀ x, x ∈ Routes.subjectsList subjects →
        x ≠ [] ∧ trim x = x ∧ (0x2C%N ∉ x)
        ∧ (∃ pre post, subjects = pre ++ x ++ post))
  ∧ (Routes.subjectsList subjects = [] ↔
     Forall (λ c, c = 0x2C%N ∨ isSpace c = true) subjects).
Proof.
  split; [intros x; apply subjectsList_entry|].
  unfold Routes.subjectsList. rewrite Forall_forall. split.
  - intros Hnil c Hc.
    destruct (split_covers 0x2C%N subjects c) as [->|(x & Hx & Hcx)];
      [done|by left|right].
    assert (trim x = []) as Ht.
    { destruct (decide (trim x = [])) as [|Hne]; [done|].
      assert (trim x ∈ @nil jstring) as []%elem_of_nil. rewrite <- Hnil.
      apply list_elem_of_filter. split; [done|].
      apply list_elem_of_fmap. eauto. }
    apply trim_nil in Ht. rewrite Forall_forall in Ht. by apply Ht.
  - intros Hall. apply elem_of_nil_inv.
    intros x [Hne (y & -> & Hy)%list_elem_of_fmap]%list_elem_of_filter.
    apply Hne, trim_nil, Forall_forall. intros c Hc.
    apply split_piece in Hy as [Hsep (pre & post & ->)].
    destruct (Hall c) as [->|]; [|done..].
    apply elem_of_app. right. apply elem_of_app. by left.
Qed.

(** ** Replies with and without markers *)

Lemma search_lit_None fl w r pre s :
  ignoreCase fl = true → Derived.mentions w s = false →
  search fl (Seq (lit w) r) pre s = None.
Proof.
  intros Hi. revert pre. induction s as [|c s IH]; intros pre; simpl.
  - rewrite orb_false_r. intros Hm. unfold exec. simpl.
    by rewrite matcher_lit, Hm.
  - intros [Hm Hs]%orb_false_iff. unfold exec. simpl.
    rewrite matcher_lit, Hm by done. by apply IH.
Qed.

Lemma cutMarkerLine_no_mention w s :
  Derived.mentions w s = false → cutMarkerLine w s = s.
Proof.
  induction s as [|c s IH]; simpl.
  - rewrite orb_false_r. by intros ->.
  - intros [-> Hs]%orb_false_iff. by rewrite IH.
Qed.

Lemma skipLine_sublist s : skipLine s `sublist_of` s.
Proof.
  induction s as [|c s IH]; simpl; [done|].
  destruct (isLineTerminator c); [done|]. by apply sublist_cons.
Qed.

Lemma cutMarkerLine_sublist w s : cutMarkerLine w s `sublist_of` s.
Proof.
  induction s as [|c s IH]; simpl.
  - destruct (startsWithCI w []); [|done]. rewrite drop_nil. done.
  - destruct (startsWithCI w (c :: s)).
    + etrans; [apply skipLine_sublist|]. apply sublist_drop.
    + by apply sublist_skip.
Qed.

Lemma trim_sublist s : trim s `sublist_of` s.
Proof.
  destruct (trim_decompose s) as (pre & post & Hs & _).
  rewrite Hs at 2. apply sublist_inserts_l, sublist_inserts_r. done.
Qed.

(** What the group of [/Ask-Me-Back:\s*(.+)/i] takes: a run of characters
    of one line of the text. *)
Lemma ask_capture_line t rest cap :
  Den flags_i reAskMeBack t None rest cap →
  ∃ before g, cap = Some g ∧ t = before ++ g ++ rest
              ∧ Forall (λ c, isLineTerminator c = false) g.
Proof.
  unfold reAskMeBack. intros H.
  apply den_seq in H as (s1 & cap1 & H1 & H).
  apply den_seq in H as (s2 & cap2 & H2 & H).
  apply den_group in H as [-> [c H]].
  apply den_lit in H1 as [_ (x0 & -> & _)]; [|done].
  inversion H2; subst. inversion H; subst.
  exists (x0 ++ ws), (x :: ws0). split_and!.
  - f_equal. apply (take_consumed (x :: ws0) rest).
  - by rewrite <- !app_assoc.
  - constructor.
    + by apply negb_true_iff.
    + apply Forall_forall. intros a Ha. apply negb_true_iff.
      match goal with
      | Hf : forallb _ ws0 = true |- _ =>
          rewrite forallb_forall in Hf; apply Hf
      end.
      by apply list_elem_of_In.
Qed.

(** X7. A reply that mentions neither marker, in any mix of cases, comes
    back trimmed and otherwise as it is, without confidence and without
    question. *)
Theorem parse_without_markers (text : jstring) :
  Derived.mentions (js "Confidence:") text = false →
  Derived.mentions (js "Ask-Me-Back:") text = false →
  parseAIResponse text
  = Ret {| p_content := trim text; p_confidence := None;
           p_askBackQuestion := None |}.
Proof.
  intros Hc Ha. unfold parseAIResponse, str_match.
  unfold reConfidence, reAskMeBack.
  rewrite !search_lit_None by done. simpl.
  change reConfidenceLine with (Seq (lit (js "Confidence:")) (Seq (Star CDot) Eol)).
  change reAskMeBackLine with (Seq (lit (js "Ask-Me-Back:")) (Seq (Star CDot) Eol)).
  rewrite !replace_marker_line.
  rewrite (cutMarkerLine_no_mention _ text Hc).
  rewrite (cutMarkerLine_no_mention _ text Ha). done.
Qed.

Lemma parse_without_markers_witness :
  parseAIResponse (js "  Plants make sugar from light. ")
  = Ret {| p_content := trim (js "  Plants make sugar from light. ");
           p_confidence := None; p_askBackQuestion := None |}.
Proof.
  apply (parse_without_markers (js "  Plants make sugar from light. "));
    vm_compute; reflexivity.
Defined.

(** X8. [parseAIResponse] only takes away: the content is a subsequence
    of the reply, and a question is a contiguous part of one line of the
    reply, trimmed. *)
Theorem parse_takes_from_text (text : jstring) :
  ∃ p, parseAIResponse text = Ret p
    ∧ p_content p `sublist_of` text
    ∧ (∀ q, p_askBackQuestion p = Some q →
            (∃ pre post, text = pre ++ q ++ post)
            ∧ Forall (λ c, isLineTerminator c = false) q
            ∧ trim q = q).
Proof.
  assert (∀ m, str_match flags_i reAskMeBack text = Some m →
               ∃ g, m_group1 m = Some g
                    ∧ (∃ pre post, text = pre ++ trim g ++ post)
                    ∧ Forall (λ c, isLineTerminator c = false) (trim g)) as Hask.
  { intros m (skipped & t & -> & _ & HD)%search_sound.
    apply ask_capture_line in HD as (before & g & -> & -> & Hg).
    exists g. split; [done|].
    destruct (trim_decompose g) as (a & b & Hab & _ & _). split.
    - exists (skipped ++ before ++ a), (b ++ m_after m).
      rewrite Hab at 1. by rewrite <- !app_assoc.
    - rewrite Hab in Hg. by apply Forall_app in Hg as [_ [? _]%Forall_app]. }
  assert (trim (str_replace_empty flags_im reAskMeBackLine
                  (str_replace_empty flags_im reConfidenceLine text))
          `sublist_of` text) as Hcontent.
  { change reConfidenceLine with (Seq (lit (js "Confidence:")) (Seq (Star CDot) Eol)).
    change reAskMeBackLine with (Seq (lit (js "Ask-Me-Back:")) (Seq (Star CDot) Eol)).
    rewrite !replace_marker_line.
    etrans; [apply trim_sublist|]. etrans; apply cutMarkerLine_sublist. }
  destruct (parseAIResponse_returns text) as [p Hp]. exists p. split; [done|].
  unfold parseAIResponse in Hp.
  destruct (group1_apply toLowerCase _) as [conf|]; [|done].
  destruct (str_match flags_i reAskMeBack text) as [m|] eqn:Hm; simpl in Hp.
  - destruct (Hask m eq_refl) as (g & Hg & Hin & Hlt). rewrite Hg in Hp.
    injection Hp as <-. simpl. split; [done|].
    intros q [= <-]. split_and!; [done..|apply trim_idemp].
  - injection Hp as <-. simpl. split; [done|]. done.
Qed.

(** ** What stays in the transcript *)

Lemma kept_refl ms : Derived.kept ms ms.
Proof. split; [done|]. by intros i m Hm _. Qed.

Lemma kept_trans ms1 ms2 ms3 :
  Derived.kept ms1 ms2 → Derived.kept ms2 ms3 → Derived.kept ms1 ms3.
Proof.
  intros [Hl1 H1] [Hl2 H2]. split; [lia|].
  intros i m Hm Hc. apply H2; [by apply H1|].
  destruct Hc as [Hu|Hi]; [by left|right; lia].
Qed.

Lemma kept_app ms extra : Derived.kept ms (ms ++ extra).
Proof.
  split; [rewrite length_app; lia|].
  intros i m Hm _. by apply lookup_app_l_Some.
Qed.

Lemma kept_insert_last ms lastMsg new :
  ms !! (length ms - 1)%nat = Some lastMsg → isAssistant lastMsg = true →
  Derived.kept ms (<[(length ms - 1)%nat := new]> ms).
Proof.
  intros Hlast Ha. split; [by rewrite length_insert|].
  intros i m Hm [Hu|Hi].
  - destruct (decide (i = length ms - 1)%nat) as [->|Hne].
    + rewrite Hlast in Hm. injection Hm as ->.
      unfold isUser, isAssistant in *. by destruct (role m).
    + by rewrite list_lookup_insert_ne.
  - rewrite list_lookup_insert_ne; [done|lia].
Qed.

Lemma kept_chunkUpdate acc ms ms' :
  chunkUpdate acc ms = Some ms' → Derived.kept ms ms'.
Proof.
  unfold chunkUpdate.
  destruct (ms !! (length ms - 1)%nat) as [lastMsg|] eqn:Hlast; [|done].
  destruct (isAssistant lastMsg) eqn:Ha; simpl.
  - destruct (isNormal lastMsg); intros [= <-];
      [by eapply kept_insert_last|apply kept_refl].
  - intros [= <-]. apply kept_refl.
Qed.

Lemma kept_finalUpdate parsed ms ms' :
  finalUpdate parsed ms = Some ms' → Derived.kept ms ms'.
Proof.
  unfold finalUpdate.
  destruct (ms !! (length ms - 1)%nat) as [lastMsg|] eqn:Hlast; [|done].
  destruct (isAssistant lastMsg) eqn:Ha; intros [= <-];
    [by eapply kept_insert_last|apply kept_refl].
Qed.

Lemma chat_step_kept s e s' :
  Derived.keepsTranscript e = true → ChatPage.step s e = Some s' →
  Derived.kept (ChatPage.messages s) (ChatPage.messages s').
Proof.
  intros He Hstep. destruct s as [ms inp ld sid cs ts].
  destruct e; try discriminate He; simpl in Hstep; chat_unfold.
  all: repeat first [case_match | progress simplify_option_eq].
  all: eauto using kept_refl, kept_app, kept_chunkUpdate.
  all: try (eapply kept_trans; [by eapply kept_chunkUpdate|]).
  all: eauto using kept_refl, kept_app, kept_finalUpdate.
Qed.

(** X2. On the streaming chat page, as long as no event hands the transcript
    to the reset hook, starts a new chat or loads the stored messages, the
    transcript never gets shorter, every user message stays at its index
    unchanged, and so does every message that is not the last one: only an
    assistant message at the end of the transcript is ever rewritten. *)
Theorem transcript_kept s es s' :
  forallb Derived.keepsTranscript es = true →
  ChatPage.run s es = Some s' →
  Derived.kept (ChatPage.messages s) (ChatPage.messages s').
Proof.
  revert s. induction es as [|e es IH]; intros s Hes Hrun; simpl in *.
  - injection Hrun as <-. apply kept_refl.
  - apply andb_true_iff in Hes as [He Hes].
    destruct (ChatPage.step s e) as [s1|] eqn:Hstep; [|done].
    eapply kept_trans; [by eapply chat_step_kept|by apply IH].
Qed.

Lemma transcript_kept_witness :
  ∃ s', ChatPage.run Scenario.oneExchange
          (ChatPage.sendAndStream 3 4 5 [js "Pho"; js "to"]
           ++ [ChatPage.Settled 0; ChatPage.Concept 6]) = Some s'
        ∧ Derived.kept (ChatPage.messages Scenario.oneExchange)
            (ChatPage.messages s').
Proof.
  eexists. split; [vm_compute; reflexivity|].
  apply (transcript_kept Scenario.oneExchange
           (ChatPage.sendAndStream 3 4 5 [js "Pho"; js "to"]
            ++ [ChatPage.Settled 0; ChatPage.Concept 6]));
    [reflexivity | vm_compute; reflexivity].
Defined.

Lemma hist_step_prefix env s e s' :
  Derived.keepsHistory e = true → HistoryPage.step env s e = Some s' →
  HistoryPage.messages s `prefix_of` HistoryPage.messages s'.
Proof.
  intros He Hstep. destruct e; try discriminate He; simpl in Hstep.
  all: repeat case_match; simplify_eq; rewrite ?effects_messages.
  all: hist_unfold; repeat case_match; simpl; try done.
  all: by apply prefix_app_r.
Qed.

(** X3. On the chat page with history, as long as no new chat, reset,
    delete-all or answer of a load happens, the transcript only grows at
    its end: the earlier transcript is a prefix of every later one. *)
Theorem history_transcript_grows env s es s' :
  forallb Derived.keepsHistory es = true →
  HistoryPage.run env s es = Some s' →
  HistoryPage.messages s `prefix_of` HistoryPage.messages s'.
Proof.
  revert s. induction es as [|e es IH]; intros s Hes Hrun; simpl in *.
  - by injection Hrun as <-.
  - apply andb_true_iff in Hes as [He Hes].
    destruct (HistoryPage.step env s e) as [s1|] eqn:Hstep; [|done].
    etrans; [by eapply hist_step_prefix|by apply IH].
Qed.

Lemma history_transcript_grows_witness :
  ∃ s', HistoryPage.run Scenario.signedIn Cases.askedOnce
          [HistoryPage.SelectChat (js "chat-0") (js "Old");
           HistoryPage.SendOk 0 (js "hello") 2; HistoryPage.Concept 3] = Some s'
        ∧ HistoryPage.messages Cases.askedOnce `prefix_of` HistoryPage.messages s'.
Proof.
  eexists. split; [vm_compute; reflexivity|].
  apply (history_transcript_grows Scenario.signedIn Cases.askedOnce
           [HistoryPage.SelectChat (js "chat-0") (js "Old");
            HistoryPage.SendOk 0 (js "hello") 2; HistoryPage.Concept 3]);
    [reflexivity | vm_compute; reflexivity].
Defined.

(** ** The topic of a concept request *)

Lemma chat_step_topics s e s' :
  Forall (λ c, c ≠ ChatPage.ConceptAwaiting []) (ChatPage.calls s) →
  ChatPage.step s e = Some s' →
  Forall (λ c, c ≠ ChatPage.ConceptAwaiting []) (ChatPage.calls s').
Proof.
  intros Hinv Hstep. destruct s as [ms inp ld sid cs ts]. simpl in Hinv.
  destruct e; simpl in Hstep; chat_unfold.
  all: repeat first [case_match | progress simplify_option_eq].
  all: try done.
  all: try (apply Forall_app; split; [done|]; constructor; [|done]).
  all: try (apply Forall_insert; [done|]).
  all: try by apply Forall_delete.
  all: try congruence.
  all: try (apply bool_decide_eq_false in H; congruence).
Qed.

Lemma chat_run_topics s es s' :
  Forall (λ c, c ≠ ChatPage.ConceptAwaiting []) (ChatPage.calls s) →
  ChatPage.run s es = Some s' →
  Forall (λ c, c ≠ ChatPage.ConceptAwaiting []) (ChatPage.calls s').
Proof.
  revert s. induction es as [|e es IH]; intros s Hinv Hrun; simpl in *.
  - by injection Hrun as <-.
  - destruct (ChatPage.step s e) as [s1|] eqn:Hstep; [|done].
    apply (IH s1); [|done]. by eapply chat_step_topics.
Qed.

Lemma concept_topic_accepted supabase llm stringify topic language firstName :
  topic ≠ [] →
  Routes.status
    (Routes.conceptPOST supabase llm stringify
       (Derived.conceptRequest topic language firstName)) ≠ 400%Z.
Proof.
  intros Ht. unfold Routes.conceptPOST. simpl.
  destruct topic; [done|]. by repeat case_match.
Qed.

(** X4. Whatever happens on the streaming chat page, the topic of a
    2-minute-concept request in flight is never empty, so the route never
    answers such a request with 400 [Topic is required]. *)
Theorem concept_topic_never_missing sessionId es s' topic :
  ChatPage.run (ChatPage.initial sessionId) es = Some s' →
  ChatPage.ConceptAwaiting topic ∈ ChatPage.calls s' →
  topic ≠ []
  ∧ ∀ supabase llm stringify language firstName,
      Routes.status
        (Routes.conceptPOST supabase llm stringify
           (Derived.conceptRequest topic language firstName)) ≠ 400%Z.
Proof.
  intros Hrun Hin.
  assert (topic ≠ []) as Ht.
  { apply chat_run_topics in Hrun; [|by constructor].
    rewrite Forall_forall in Hrun. intros ->. by apply (Hrun _ Hin). }
  split; [done|]. intros. by apply concept_topic_accepted.
Qed.

Lemma concept_topic_never_missing_witness :
  js "osmosis" ≠ []
  ∧ ∀ supabase llm stringify language firstName,
      Routes.status
        (Routes.conceptPOST supabase llm stringify
           (Derived.conceptRequest (js "osmosis") language firstName)) ≠ 400%Z.
Proof.
  apply (concept_topic_never_missing (js "s1")
           [ChatPage.Concept 1; ChatPage.Typed (js " osmosis ");
            ChatPage.Concept 2]
           {| ChatPage.messages := [noTopicMessage 1];
              ChatPage.input := js " osmosis "; ChatPage.loading := true;
              ChatPage.sessionIdRef := js "s1";
              ChatPage.calls := [ChatPage.ConceptAwaiting (js "osmosis")];
              ChatPage.timers := [] |});
    [vm_compute; reflexivity|left].
Defined.

Lemma effects_topics env before b s :
  Forall (λ c, c ≠ HistoryPage.ConceptAwaiting []) (HistoryPage.calls s) →
  Forall (λ c, c ≠ HistoryPage.ConceptAwaiting [])
    (HistoryPage.calls (HistoryPage.effects env before b s)).
Proof.
  intros H. hist_unfold. repeat case_match; simpl; try done.
  all: repeat (apply Forall_app; split; [|by repeat constructor]); done.
Qed.

Lemma hist_step_topics env s e s' :
  Forall (λ c, c ≠ HistoryPage.ConceptAwaiting []) (HistoryPage.calls s) →
  HistoryPage.step env s e = Some s' →
  Forall (λ c, c ≠ HistoryPage.ConceptAwaiting []) (HistoryPage.calls s').
Proof.
  intros Hinv Hstep. destruct e; simpl in Hstep.
  all: repeat case_match; simplify_eq; try apply effects_topics.
  all: hist_unfold; repeat case_match; simpl; try done.
  all: try (apply Forall_app; split; [done|]; constructor; [|done]).
  all: try by apply Forall_delete.
  all: try (apply bool_decide_eq_false in H; congruence).
  all: try congruence.
  all: try done.
Qed.

(** X5. The same on the chat page with history: the topic of a concept
    request in flight is never empty, and the route never answers it with
    400. *)
Theorem history_concept_topic_never_missing env sessionId es s' topic :
  HistoryPage.run env (HistoryPage.initial sessionId) es = Some s' →
  HistoryPage.ConceptAwaiting topic ∈ HistoryPage.calls s' →
  topic ≠ []
  ∧ ∀ supabase llm stringify language firstName,
      Routes.status
        (Routes.conceptPOST supabase llm stringify
           (Derived.conceptRequest topic language firstName)) ≠ 400%Z.
Proof.
  intros Hrun Hin.
  assert (Forall (λ c, c ≠ HistoryPage.ConceptAwaiting []) (HistoryPage.calls s'))
    as Hall.
  { assert (Forall (λ c, c ≠ HistoryPage.ConceptAwaiting [])
              (HistoryPage.calls (HistoryPage.initial sessionId))) as Hinit
      by constructor.
    revert Hrun Hinit. generalize (HistoryPage.initial sessionId).
    induction es as [|e es IH]; intros s Hrun Hinv; simpl in *.
    - by injection Hrun as <-.
    - destruct (HistoryPage.step env s e) as [s1|] eqn:Hstep; [|done].
      apply (IH s1); [done|]. by eapply hist_step_topics. }
  assert (topic ≠ []) as Ht.
  { rewrite Forall_forall in Hall. intros ->. by apply (Hall _ Hin). }
  split; [done|]. intros. by apply concept_topic_accepted.
Qed.

Lemma history_concept_topic_never_missing_witness :
  js "hi" ≠ []
  ∧ ∀ supabase llm stringify language firstName,
      Routes.status
        (Routes.conceptPOST supabase llm stringify
           (Derived.conceptRequest (js "hi") language firstName)) ≠ 400%Z.
Proof.
  apply (history_concept_topic_never_missing Scenario.signedIn (js "chat-1")
           [HistoryPage.Typed (js "hi"); HistoryPage.Submit 1;
            HistoryPage.SendFailed 0 (js "offline") 2; HistoryPage.Concept 3]
           {| HistoryPage.messages :=
                [userMessage (js "hi") 1; errorMessage (js "offline") 2];
              HistoryPage.input := []; HistoryPage.loading := true;
              HistoryPage.currentSessionId := js "chat-1";
              HistoryPage.currentTitle := js "New Chat";
              HistoryPage.hasGeneratedTitle := true;
              HistoryPage.calls :=
                [HistoryPage.TitleAwaiting; HistoryPage.ConceptAwaiting (js "hi")];
              HistoryPage.titleCalls := [(js "hi", 7%Z)] |});
    [vm_compute; reflexivity|right; left].
Defined.

(** ** The selection of the history list *)

Lemma all_selected_length (sel ids : list jstring) :
  NoDup sel → NoDup ids → sel ⊆ ids →
  (∀ x, x ∈ ids → x ∈ sel) ↔ length sel = length ids.
Proof.
  intros Hsel Hids Hsub. split.
  - intros Hall. apply Permutation_length, NoDup_Permutation; [done..|].
    intros x. split; [apply Hsub|apply Hall].
  - intros Hlen x Hx.
    assert (sel ≡ₚ ids) as Hp.
    { apply submseteq_length_Permutation; [by apply NoDup_submseteq|lia]. }
    by rewrite Hp.
Qed.

Lemma filtered_ids_NoDup (P : ProfileHistory.HistoryItem → Prop)
    `{!∀ x, Decision (P x)} (l : list ProfileHistory.HistoryItem) :
  NoDup (ProfileHistory.session_id <$> l) →
  NoDup (ProfileHistory.session_id <$> filter P l).
Proof.
  intros Hnd. eapply sublist_NoDup; [exact Hnd|].
  apply fmap_sublist, sublist_filter.
Qed.

Lemma nothing_selected_consistent (history : list ProfileHistory.HistoryItem) :
  NoDup (ProfileHistory.session_id <$> history) →
  ProfileHistory.consistent
    {| ProfileHistory.history := history; ProfileHistory.selectedItems := [];
       ProfileHistory.selectAll := false |}.
Proof.
  intros Hnd. split_and!; simpl; [done|constructor|set_solver|].
  split; [done|]. intros [Hne Hall]. destruct history as [|item h]; [done|].
  specialize (Hall item ltac:(left)). by apply elem_of_nil in Hall.
Qed.

Lemma all_listed (history : list ProfileHistory.HistoryItem) (sel : list jstring) :
  (∀ item, item ∈ history → ProfileHistory.session_id item ∈ sel)
  ↔ (∀ x, x ∈ ProfileHistory.session_id <$> history → x ∈ sel).
Proof.
  split.
  - intros H x (item & -> & Hi)%list_elem_of_fmap. by apply H.
  - intros H item Hi. apply H, list_elem_of_fmap. eauto.
Qed.

Lemma toggle_consistent sessionId s :
  ProfileHistory.consistent s →
  sessionId ∈ ProfileHistory.session_id <$> ProfileHistory.history s →
  ProfileHistory.consistent (ProfileHistory.handleToggleSelect sessionId s).
Proof.
  intros (Hids & Hsel & Hsub & Hall) Hin.
  destruct s as [history sel all]. simpl in *.
  assert (history ≠ []) as Hne by (by intros ->; apply elem_of_nil in Hin).
  unfold ProfileHistory.handleToggleSelect, ProfileHistory.isSelected. simpl.
  case_bool_decide as Hs.
  - assert (NoDup (filter (λ x, x ≠ sessionId) sel)) as Hnd by by apply NoDup_filter.
    assert (filter (λ x, x ≠ sessionId) sel
            ⊆ ProfileHistory.session_id <$> history) as Hsub'.
    { intros x [_ Hx]%list_elem_of_filter. by apply Hsub. }
    split_and!; simpl; [done..|].
    rewrite andb_true_iff, !bool_decide_eq_true.
    rewrite all_listed.
    rewrite all_selected_length, length_fmap by done.
    split; [by intros [? _]|]. intros [_ Hlen]. exfalso.
    pose proof (length_filter_lt (λ x, x ≠ sessionId) sel sessionId Hs) as Hlt.
    assert (length sel ≤ length history)%nat.
    { rewrite <- (length_fmap ProfileHistory.session_id history).
      by apply submseteq_length, NoDup_submseteq. }
    specialize (Hlt ltac:(by intros ?)). lia.
  - assert (NoDup (sel ++ [sessionId])) as Hnd.
    { apply NoDup_app. split_and!; [done| |apply NoDup_singleton].
      intros x Hx ->%list_elem_of_singleton. done. }
    assert (sel ++ [sessionId] ⊆ ProfileHistory.session_id <$> history) as Hsub'.
    { intros x [Hx| ->%list_elem_of_singleton]%elem_of_app; [by apply Hsub|done]. }
    split_and!; simpl; [done..|].
    rewrite bool_decide_eq_true.
    rewrite all_listed.
    rewrite all_selected_length, length_fmap by done.
    split; [by intros ?|by intros [_ ?]].
Qed.

Lemma list_step_consistent s e s' :
  ProfileHistory.leavesSelection e = false →
  ProfileHistory.consistent s → ProfileHistory.step s e = Some s' →
  ProfileHistory.consistent s'.
Proof.
  intros He Hc Hstep. destruct e; try discriminate He; simpl in Hstep.
  - (* select all *)
    case_bool_decide as Hne; [done|]. injection Hstep as <-.
    destruct Hc as (Hids & Hsel & Hsub & Hall).
    unfold ProfileHistory.handleSelectAll.
    destruct (ProfileHistory.selectAll s); [by apply nothing_selected_consistent|].
    split_and!; simpl; [done..|]. split; [|done]. intros _. split; [done|].
    intros item Hi. apply list_elem_of_fmap. eauto.
  - case_bool_decide as Hin; [|done]. injection Hstep as <-.
    by apply toggle_consistent.
  - case_match; [done|]. injection Hstep as <-.
    unfold ProfileHistory.deleteSelectedDone.
    destruct (forallb _ results); [|done].
    apply nothing_selected_consistent, filtered_ids_NoDup, Hc.
  - injection Hstep as <-. unfold ProfileHistory.clearModuleDone.
    destruct success; [|done].
    apply nothing_selected_consistent, filtered_ids_NoDup, Hc.
  - case_match; [|done]. injection Hstep as <-.
    unfold ProfileHistory.resetAllDone.
    destruct (forallb _ results); [|done].
    apply nothing_selected_consistent. constructor.
Qed.

(** X15. The selection of the history list: starting from a list of
    distinct sessions with a consistent selection, select-all, toggling,
    delete-selected, clear-module and reset-all keep the selection
    consistent: every selected session is listed, none is selected twice,
    and the select-all box is checked exactly when the list is not empty and
    every item is selected.  (Deleting a single item and reloading the list
    leave the selection as it is, see [single_delete_keeps_selection].) *)
Theorem selection_consistent s es s' :
  ProfileHistory.consistent s →
  forallb (λ e, negb (ProfileHistory.leavesSelection e)) es = true →
  ProfileHistory.run s es = Some s' →
  ProfileHistory.consistent s'.
Proof.
  revert s. induction es as [|e es IH]; intros s Hc Hes Hrun; simpl in *.
  - by injection Hrun as <-.
  - apply andb_true_iff in Hes as [He%negb_true_iff Hes].
    destruct (ProfileHistory.step s e) as [s1|] eqn:Hstep; [|done].
    apply (IH s1); [|done..]. by eapply list_step_consistent.
Qed.

Lemma selection_consistent_witness :
  ∃ s', ProfileHistory.run Cases.twoChats
          [ProfileHistory.Toggle (js "s1"); ProfileHistory.Toggle (js "s2");
           ProfileHistory.Toggle (js "s1"); ProfileHistory.SelectAll;
           ProfileHistory.DeleteSelectedDone [js "s1"; js "s2"] [true; true]]
        = Some s'
        ∧ ProfileHistory.consistent s'.
Proof.
  eexists. split; [vm_compute; reflexivity|].
  apply (selection_consistent Cases.twoChats
           [ProfileHistory.Toggle (js "s1"); ProfileHistory.Toggle (js "s2");
            ProfileHistory.Toggle (js "s1"); ProfileHistory.SelectAll;
            ProfileHistory.DeleteSelectedDone [js "s1"; js "s2"] [true; true]]);
    [|reflexivity|vm_compute; reflexivity].
  apply nothing_selected_consistent.
  apply (bool_decide_unpack _). vm_compute. exact I.
Defined.

(** Deleting one item leaves the selection as it is: a deleted session can
    stay selected, and the select-all box unchecked over a list of which
    every item is selected. *)
Example single_delete_keeps_selection :
  (λ s, (ProfileHistory.session_id <$> ProfileHistory.history s,
         ProfileHistory.selectedItems s, ProfileHistory.selectAll s))
    <$> ProfileHistory.run Cases.twoChats
          [ProfileHistory.Toggle (js "s1");
           ProfileHistory.DeleteItemDone (js "s2") true]
  = Some ([js "s1"], [js "s1"], false)
  ∧ (λ s, (ProfileHistory.session_id <$> ProfileHistory.history s,
           ProfileHistory.selectedItems s))
      <$> ProfileHistory.run Cases.twoChats
            [ProfileHistory.Toggle (js "s1");
             ProfileHistory.DeleteItemDone (js "s1") true]
    = Some ([js "s2"], [js "s1"]).
Proof. vm_compute. done. Qed.

(** X16. Toggling the box of a listed item twice gives back the list, the
    selected sessions (in the same order when the item was not selected
    before, up to order otherwise) and the state of the select-all box. *)
Theorem toggle_twice sessionId s :
  ProfileHistory.consistent s →
  sessionId ∈ ProfileHistory.session_id <$> ProfileHistory.history s →
  let s2 :=
    ProfileHistory.handleToggleSelect sessionId
      (ProfileHistory.handleToggleSelect sessionId s) in
  ProfileHistory.history s2 = ProfileHistory.history s
  ∧ ProfileHistory.selectedItems s2 ≡ₚ ProfileHistory.selectedItems s
  ∧ ProfileHistory.selectAll s2 = ProfileHistory.selectAll s
  ∧ (sessionId ∉ ProfileHistory.selectedItems s →
     ProfileHistory.selectedItems s2 = ProfileHistory.selectedItems s).
Proof.
  intros Hc Hin.
  pose proof (toggle_consistent sessionId s Hc Hin) as Hc1.
  assert (sessionId ∈ ProfileHistory.session_id
            <$> ProfileHistory.history (ProfileHistory.handleToggleSelect sessionId s))
    as Hin1.
  { unfold ProfileHistory.handleToggleSelect. by case_match. }
  pose proof (toggle_consistent sessionId _ Hc1 Hin1) as Hc2.
  destruct Hc as (Hids & Hsel & Hsub & Hall).
  destruct Hc2 as (_ & Hsel2 & Hsub2 & Hall2). clear Hc1 Hin1.
  destruct s as [history sel all].
  unfold ProfileHistory.handleToggleSelect, ProfileHistory.isSelected in *.
  simpl in *.
  assert (filter (λ x, x ≠ sessionId) (sel ++ [sessionId])
          = filter (λ x, x ≠ sessionId) sel) as Hfa.
  { rewrite filter_app. rewrite (filter_cons _ sessionId), filter_nil.
    rewrite decide_False by (by intros ?). apply app_nil_r. }
  assert (sessionId ∉ filter (λ x, x ≠ sessionId) sel) as Hnf.
  { by intros [? _]%list_elem_of_filter. }
  assert (sessionId ∉ sel → filter (λ x, x ≠ sessionId) sel = sel) as Hid.
  { intros Hn. clear -Hn. induction sel as [|x sel IH]; [done|].
    rewrite filter_cons. apply not_elem_of_cons in Hn as [Hx Hn].
    rewrite decide_True by done. by rewrite IH. }
  assert (sessionId ∈ sel → filter (λ x, x ≠ sessionId) sel ++ [sessionId] ≡ₚ sel)
    as Hperm.
  { intros Hs. apply NoDup_Permutation; [|done|].
    - apply NoDup_app. split_and!; [by apply NoDup_filter| |apply NoDup_singleton].
      intros x [Hx _]%list_elem_of_filter ->%list_elem_of_singleton. done.
    - intros x. rewrite elem_of_app, list_elem_of_filter, list_elem_of_singleton.
      split; [intros [[_ ?]| ->]; done|].
      intros Hx. destruct (decide (x = sessionId)); [by right|by left]. }
  assert (∀ a b, (a = true ↔ b = true) → a = b) as Hbool.
  { intros [] [] [H1 H2]; try done;
      [discriminate (H1 eq_refl)|discriminate (H2 eq_refl)]. }
  destruct (decide (sessionId ∈ sel)) as [Hs|Hs].
  - rewrite (bool_decide_eq_true_2 _ Hs) in *. simpl in *.
    rewrite (bool_decide_eq_false_2 _ Hnf) in *. simpl in *.
    split_and!; [done|by apply Hperm| |done].
    apply Hbool. rewrite Hall2, Hall. rewrite !all_listed.
    split; intros [Hne Hx]; (split; [done|]); intros x Hxi;
      specialize (Hx x Hxi); [by rewrite <- Hperm|by rewrite Hperm].
  - rewrite (bool_decide_eq_false_2 _ Hs) in *. simpl in *.
    assert (sessionId ∈ sel ++ [sessionId]) as Hs'
      by (apply elem_of_app; right; left).
    rewrite (bool_decide_eq_true_2 _ Hs') in *. simpl in *.
    rewrite Hfa, (Hid Hs) in *.
    split_and!; [done|done| |done].
    apply Hbool. rewrite Hall2, Hall. done.
Qed.

Lemma toggle_twice_witness :
  ProfileHistory.selectedItems
    (ProfileHistory.handleToggleSelect (js "s2")
       (ProfileHistory.handleToggleSelect (js "s2") Cases.twoChats))
  ≡ₚ ProfileHistory.selectedItems Cases.twoChats.
Proof.
  refine (proj1 (proj2 (toggle_twice (js "s2") Cases.twoChats _ _))).
  - apply nothing_selected_consistent.
    apply (bool_decide_unpack _). vm_compute. exact I.
  - apply (bool_decide_unpack _). vm_compute. exact I.
Defined.

(** ** The answers of the routes, and the form pages *)

Lemma messageOr_not_nil message fallback :
  fallback ≠ [] → Routes.messageOr message fallback ≠ [].
Proof. by destruct message. Qed.

Ltac answers_tac :=
  unfold Derived.answers, Routes.json;
  cbn [Routes.status Routes.body Derived.isPlan Derived.isRoadmap
       Derived.isConcept Derived.isStream];
  split; [repeat first [by left | right]|];
  split; [done|];
  first
    [ done
    | intros _; eexists; (split; [reflexivity|]);
      first [discriminate | by apply messageOr_not_nil] ].

Lemma examPlannerPOST_answers supabase clock llm request :
  Derived.answers Derived.isPlan (Routes.examPlannerPOST supabase clock llm request).
Proof.
  unfold Routes.examPlannerPOST. repeat case_match; answers_tac.
Qed.

Lemma careerPOST_answers supabase llm request :
  Derived.answers Derived.isRoadmap (Routes.careerPOST supabase llm request).
Proof.
  unfold Routes.careerPOST. repeat case_match; answers_tac.
Qed.

Lemma conceptPOST_answers supabase llm stringify request :
  Derived.answers Derived.isConcept
    (Routes.conceptPOST supabase llm stringify request).
Proof.
  unfold Routes.conceptPOST. repeat case_match; answers_tac.
Qed.

Lemma chatPOST_answers supabase llm request :
  Derived.answers Derived.isStream (Routes.chatPOST supabase llm request).
Proof.
  unfold Routes.chatPOST. repeat case_match; answers_tac.
Qed.

(** X12. Each of the four routes answers with 200, 400, 401 or 500; with
    200 the body is the success body of the route, and with every other
    status it is an [error] that is not empty, so that the pages' test of
    [data.error] sees every failure. *)
Theorem route_answers :
  (∀ supabase clock llm request,
      Derived.answers Derived.isPlan
        (Routes.examPlannerPOST supabase clock llm request))
  ∧ (∀ supabase llm request,
      Derived.answers Derived.isRoadmap (Routes.careerPOST supabase llm request))
  ∧ (∀ supabase llm stringify request,
      Derived.answers Derived.isConcept
        (Routes.conceptPOST supabase llm stringify request))
  ∧ (∀ supabase llm request,
      Derived.answers Derived.isStream (Routes.chatPOST supabase llm request)).
Proof.
  split_and!; intros.
  - apply examPlannerPOST_answers.
  - apply careerPOST_answers.
  - apply conceptPOST_answers.
  - apply chatPOST_answers.
Qed.

Lemma truthy_JStr x : x ≠ [] → Routes.truthy (Routes.JStr x) = true.
Proof. intros Hx. simpl. by rewrite bool_decide_eq_false_2. Qed.

(** X13. A submit of the exam planner form, with the answer of the route:
    [loading] is cleared and the form kept; on 200 the plan of the answer
    is shown and no error; on any other status the error of the answer is
    shown and no plan.  With the four required inputs filled, a 400 is the
    one about the exam date. *)
Theorem planner_round_trip supabase clock llm s :
  FormPages.loading (FormPages.plannerRoundTrip supabase clock llm s) = false
  ∧ FormPages.formData (FormPages.plannerRoundTrip supabase clock llm s)
    = FormPages.formData s
  ∧ (Routes.status (FormPages.plannerResponse supabase clock llm s) = 200%Z →
     ∃ plan,
       Routes.body (FormPages.plannerResponse supabase clock llm s)
       = Routes.PlanBody plan
       ∧ FormPages.studyPlan (FormPages.plannerRoundTrip supabase clock llm s)
         = Routes.JStr plan
       ∧ FormPages.error (FormPages.plannerRoundTrip supabase clock llm s) = [])
  ∧ (Routes.status (FormPages.plannerResponse supabase clock llm s) ≠ 200%Z →
     ∃ e,
       Routes.body (FormPages.plannerResponse supabase clock llm s)
       = Routes.ErrorBody e
       ∧ e ≠ []
       ∧ FormPages.studyPlan (FormPages.plannerRoundTrip supabase clock llm s)
         = Routes.JStr []
       ∧ FormPages.error (FormPages.plannerRoundTrip supabase clock llm s) = e)
  ∧ (FormPages.plannerFilled (FormPages.formData s) →
     Routes.status (FormPages.plannerResponse supabase clock llm s) = 400%Z →
     FormPages.error (FormPages.plannerRoundTrip supabase clock llm s)
     = js "Exam date must be in the future").
Proof.
  unfold FormPages.plannerRoundTrip.
  assert (∀ r : Routes.Response,
            Routes.status r ≠ 200%Z →
            Derived.answers Derived.isPlan r →
            ∃ e, Routes.body r = Routes.ErrorBody e ∧ e ≠ []
                 ∧ FormPages.studyPlan
                     (FormPages.plannerSettle r (FormPages.plannerSubmit s))
                   = Routes.JStr []
                 ∧ FormPages.error
                     (FormPages.plannerSettle r (FormPages.plannerSubmit s)) = e)
    as Herr.
  { intros r Hst (_ & _ & Hne). destruct (Hne Hst) as (e & He & Hnil).
    exists e. unfold FormPages.plannerSettle. rewrite He.
    destruct e as [|c e]; [done|]. done. }
  pose proof (examPlannerPOST_answers supabase clock llm
                (FormPages.plannerRequest (FormPages.formData s))) as Hans.
  fold (FormPages.plannerResponse supabase clock llm s) in Hans.
  split_and!.
  - unfold FormPages.plannerSettle. by repeat case_match.
  - unfold FormPages.plannerSettle. by repeat case_match.
  - intros Hst. destruct Hans as (_ & Hplan & _). specialize (Hplan Hst).
    unfold FormPages.plannerSettle.
    destruct (Routes.body _) as [|plan| | |]; try done. by exists plan.
  - intros Hst. by apply Herr.
  - intros (H1 & H2 & H3 & H4) Hst.
    destruct (Herr _ ltac:(by rewrite Hst) Hans) as (e & He & _ & _ & ->).
    revert Hst He. unfold FormPages.plannerResponse, Routes.examPlannerPOST.
    cbn [FormPages.plannerRequest Routes.examName Routes.examDate
         Routes.subjects Routes.dailyHours].
    rewrite !truthy_JStr by done. cbn [negb orb].
    unfold Routes.json.
    repeat case_match; cbn [Routes.status Routes.body]; try done.
    all: by intros _ [= <-].
Qed.

(** X14. A submit of the career form, with the answer of the route: on
    200 the roadmap is shown, without an error unless the page is signed in
    and saving to the memory throws, in which case the error is shown beside
    the roadmap; on any other status the error of the answer is shown and
    no roadmap.  With the three required inputs filled the answer is never
    400. *)
Theorem career_round_trip supabase llm signedIn saved s :
  FormPages.c_loading (FormPages.careerRoundTrip supabase llm signedIn saved s)
  = false
  ∧ (Routes.status (FormPages.careerResponse supabase llm s) = 200%Z →
     ∃ roadmap,
       Routes.body (FormPages.careerResponse supabase llm s)
       = Routes.RoadmapBody roadmap
       ∧ FormPages.c_roadmap
           (FormPages.careerRoundTrip supabase llm signedIn saved s)
         = Routes.JStr roadmap
       ∧ (signedIn = false ∨ saved = Ret () →
          FormPages.c_error
            (FormPages.careerRoundTrip supabase llm signedIn saved s) = [])
       ∧ (∀ message, signedIn = true → saved = Thrown message →
          FormPages.c_error
            (FormPages.careerRoundTrip supabase llm signedIn saved s) ≠ []))
  ∧ (Routes.status (FormPages.careerResponse supabase llm s) ≠ 200%Z →
     ∃ e,
       Routes.body (FormPages.careerResponse supabase llm s) = Routes.ErrorBody e
       ∧ e ≠ []
       ∧ FormPages.c_roadmap
           (FormPages.careerRoundTrip supabase llm signedIn saved s)
         = Routes.JStr []
       ∧ FormPages.c_error
           (FormPages.careerRoundTrip supabase llm signedIn saved s) = e)
  ∧ (FormPages.careerFilled (FormPages.c_formData s) →
     Routes.status (FormPages.careerResponse supabase llm s) ≠ 400%Z).
Proof.
  unfold FormPages.careerRoundTrip.
  pose proof (careerPOST_answers supabase llm
                (FormPages.careerRequest (FormPages.c_formData s)))
    as (_ & Hok & Hne).
  fold (FormPages.careerResponse supabase llm s) in Hok, Hne.
  split_and!.
  - unfold FormPages.careerSettle. by repeat case_match.
  - intros Hst. specialize (Hok Hst). unfold FormPages.careerSettle.
    destruct (Routes.body _) as [| |roadmap| |]; try done.
    exists roadmap. cbn. split_and!; [done..| |].
    + intros [->| ->]; [done|by destruct signedIn].
    + intros message -> ->. by apply messageOr_not_nil.
  - intros Hst. destruct (Hne Hst) as (e & He & Hnil).
    exists e. unfold FormPages.careerSettle. rewrite He.
    destruct e as [|c e]; [done|]. done.
  - intros (H1 & H2 & H3).
    unfold FormPages.careerResponse, Routes.careerPOST.
    cbn [FormPages.careerRequest Routes.currentEducation Routes.interests
         Routes.strengths].
    rewrite !truthy_JStr by done. cbn [negb orb]. unfold Routes.json.
    repeat case_match; cbn [Routes.status]; done.
Qed.

(** ** The days until the exam *)

Lemma offsetStartOfDay_day offset t :
  Derived.offsetStartOfDay offset t
  = (Routes.msPerDay * Derived.dayNumber offset t - offset)%Z.
Proof.
  unfold Derived.offsetStartOfDay, Derived.dayNumber, Routes.utcStartOfDay,
    Routes.msPerDay.
  pose proof (Z.div_mod (t + offset) (1000 * 60 * 60 * 24) ltac:(lia)). lia.
Qed.

Lemma ceilDiv_days k : Routes.ceilDiv (Routes.msPerDay * k) Routes.msPerDay = k.
Proof.
  unfold Routes.ceilDiv, Routes.msPerDay.
  replace (- (1000 * 60 * 60 * 24 * k))%Z with ((- k) * (1000 * 60 * 60 * 24))%Z
    by lia.
  rewrite Z.div_mul by lia. lia.
Qed.

Lemma days_until_exam_calendar_aux clock offset examDate t :
  (∀ x, Routes.startOfLocalDay clock x = Derived.offsetStartOfDay offset x) →
  Routes.dateOf clock examDate = Some t →
  Routes.daysUntilExam clock examDate
  = Some (Derived.dayNumber offset t
          - Derived.dayNumber offset (Routes.now clock))%Z.
Proof.
  intros Hday Ht. unfold Routes.daysUntilExam. rewrite Ht. simpl. f_equal.
  rewrite !Hday, !offsetStartOfDay_day.
  rewrite <- (ceilDiv_days (Derived.dayNumber offset t
                           - Derived.dayNumber offset (Routes.now clock))).
  f_equal. lia.
Qed.

(** X10. On a server whose local time is UTC plus a fixed offset, the
    days until the exam are the number of the local day of the exam date
    minus the number of today's local day. *)
Theorem days_until_exam_calendar clock offset examDate t :
  (∀ x, Routes.startOfLocalDay clock x = Derived.offsetStartOfDay offset x) →
  Routes.dateOf clock examDate = Some t →
  Routes.daysUntilExam clock examDate
  = Some (Derived.dayNumber offset t
          - Derived.dayNumber offset (Routes.now clock))%Z.
Proof. apply days_until_exam_calendar_aux. Qed.

Lemma days_until_exam_calendar_witness :
  Routes.daysUntilExam Scenario.clockWest (Routes.JStr (js "2026-11-03"))
  = Some (Derived.dayNumber (-18000000) 1793664000000
          - Derived.dayNumber (-18000000) (Routes.now Scenario.clockWest))%Z.
Proof.
  apply (days_until_exam_calendar Scenario.clockWest (-18000000)
           (Routes.JStr (js "2026-11-03")) 1793664000000);
    [intros x; reflexivity|vm_compute; reflexivity].
Defined.

(** West of UTC, by less than a day, the date-only string of tomorrow is
    never accepted: [new Date] reads it as the UTC midnight that starts the
    day with the number of tomorrow, and that instant lies in the server's
    today. *)
Lemma date_only_tomorrow_west supabase clock offset llm request subjects :
  (∀ x, Routes.startOfLocalDay clock x = Derived.offsetStartOfDay offset x) →
  (- Routes.msPerDay ≤ offset < 0)%Z →
  Routes.dateOf clock (Routes.examDate request)
  = Some (Routes.msPerDay
          * (Derived.dayNumber offset (Routes.now clock) + 1))%Z →
  supabase ≠ Routes.Configured None →
  Routes.truthy (Routes.examName request) = true →
  Routes.truthy (Routes.examDate request) = true →
  Routes.subjects request = Routes.JStr subjects → subjects ≠ [] →
  Routes.truthy (Routes.dailyHours request) = true →
  Routes.daysUntilExam clock (Routes.examDate request) = Some 0%Z
  ∧ Routes.examPlannerPOST supabase clock llm request
    = Routes.json (Routes.ErrorBody (js "Exam date must be in the future")) 400.
Proof.
  intros Hday Hoff Ht Hauth H1 H2 Hs Hne H4.
  assert (Routes.daysUntilExam clock (Routes.examDate request) = Some 0%Z)
    as Hdays.
  { rewrite (days_until_exam_calendar_aux clock offset _ _ Hday Ht). f_equal.
    unfold Derived.dayNumber at 1. unfold Routes.msPerDay in *.
    assert (((1000 * 60 * 60 * 24
               * (Derived.dayNumber offset (Routes.now clock) + 1) + offset)
             `div` (1000 * 60 * 60 * 24))%Z
            = Derived.dayNumber offset (Routes.now clock)) as ->; [|lia].
    symmetry. apply (Z.div_unique _ _ _ (1000 * 60 * 60 * 24 + offset)); lia. }
  split; [done|].
  unfold Routes.examPlannerPOST. rewrite H1, H2, H4, Hs, Hdays. simpl.
  rewrite bool_decide_eq_false_2 by done. simpl.
  by destruct supabase as [|[|]].
Qed.

(** X11. The exam planner asks for a completion only with a prompt of at
    least one day until the exam (or not a number), non-empty trimmed
    subjects and the other values present: two completions that agree on
    such prompts give the same answer to every request. *)
Theorem planner_consults_completion supabase clock llm1 llm2 request :
  (∀ p, Derived.promptOk p → llm1 p = llm2 p) →
  Routes.examPlannerPOST supabase clock llm1 request
  = Routes.examPlannerPOST supabase clock llm2 request.
Proof.
  intros Hllm. unfold Routes.examPlannerPOST.
  destruct (negb (Routes.truthy (Routes.examName request)) || _ || _ || _)
    eqn:Hfields; [done|].
  destruct (Routes.lessThanOne _) eqn:Hdays; [done|].
  destruct (Routes.subjects request) as [| | | |subjects| |] eqn:Hs; try done.
  rewrite Hllm; [done|].
  repeat (apply orb_false_iff in Hfields as [Hfields ?]).
  unfold Derived.promptOk. simpl. split_and!; try by apply negb_false_iff.
  - intros n Hn. rewrite Hn in Hdays. simpl in Hdays.
    apply Z.ltb_ge in Hdays. lia.
  - apply Forall_forall. intros x Hx.
    destruct (subjectsList_entry subjects x Hx) as (? & ? & _). done.
Qed.

Lemma planner_consults_completion_witness :
  Routes.examPlannerPOST Routes.Unconfigured Scenario.clock Scenario.planner
    (Scenario.examRequest "2026-11-03")
  = Routes.examPlannerPOST Routes.Unconfigured Scenario.clock
      Cases.plannerForFuture (Scenario.examRequest "2026-11-03").
Proof.
  apply (planner_consults_completion Routes.Unconfigured Scenario.clock
           Scenario.planner Cases.plannerForFuture
           (Scenario.examRequest "2026-11-03")).
  intros p (Hd & _). unfold Scenario.planner, Cases.plannerForFuture.
  destruct (Routes.ep_daysUntilExam p) as [n|]; simpl; [|done].
  specialize (Hd n eq_refl). destruct (Z.ltb_spec n 1); [lia|done].
Defined.

(** ** The guard of a send *)


(** ** The auto-send of a voice transcript *)




(** ** Selecting a chat *)

Lemma delete_snoc2 {A} (l : list A) x y :
  delete (S (length l)) (l ++ [x; y]) = l ++ [x].
Proof. induction l as [|a l IH]; simpl; [done|]. by rewrite IH. Qed.

Lemma select_chat_state env s sid title :
  is_Some (HistoryPage.user env) → HistoryPage.supabase env = true →
  sid ≠ HistoryPage.currentSessionId s →
  HistoryPage.effects env s false (HistoryPage.handleSelectChat env sid title s)
  = HistoryPage.setCalls
      (λ cs, cs ++ [HistoryPage.LoadAwaiting (HistoryPage.currentSessionId s);
                    HistoryPage.LoadAwaiting sid])
      (HistoryPage.setFlag true
         (HistoryPage.setCurrentTitle title
            (HistoryPage.setCurrentSessionId sid s))).
Proof.
  intros Hu Hsb Hne. destruct s as [ms inp ld cur ttl flag cs tcs]. simpl in Hne.
  unfold HistoryPage.effects, HistoryPage.handleSelectChat,
    HistoryPage.loadCurrentSession.
  rewrite (bool_decide_eq_true_2 _ Hu), Hsb. simpl.
  rewrite (bool_decide_eq_false_2 _ Hne).
  hist_unfold. by rewrite <- app_assoc.
Qed.

Lemma loaded_step env s i sessionId item :
  HistoryPage.calls s !! i = Some (HistoryPage.LoadAwaiting sessionId) →
  ∃ s1 extra,
    HistoryPage.step env s (HistoryPage.Loaded i (Some item)) = Some s1
    ∧ HistoryPage.messages s1 = item.1
    ∧ HistoryPage.currentSessionId s1 = HistoryPage.currentSessionId s
    ∧ HistoryPage.calls s1 = delete i (HistoryPage.calls s) ++ extra.
Proof.
  intros Hi. simpl. rewrite Hi.
  destruct (effects_calls env s true (HistoryPage.loaded i (Some item) s))
    as [extra Hextra].
  eexists _, extra. split; [done|].
  rewrite effects_messages, effects_session, Hextra.
  destruct item as [ms title]. done.
Qed.

(** X19. Selecting another chat, for a signed-in user with a client,
    switches the identifier and the title at once, keeps the transcript
    and starts two loads: the one of the handler, for the session that was
    current before the switch, and the one of the effect, for the selected
    session.  When the answer for the earlier session arrives last, its
    stored messages are the transcript, under the identifier of the selected
    session. *)
Theorem select_chat_two_loads env s sid title s' :
  is_Some (HistoryPage.user env) → HistoryPage.supabase env = true →
  sid ≠ HistoryPage.currentSessionId s →
  HistoryPage.step env s (HistoryPage.SelectChat sid title) = Some s' →
  HistoryPage.currentSessionId s' = sid
  ∧ HistoryPage.currentTitle s' = title
  ∧ HistoryPage.messages s' = HistoryPage.messages s
  ∧ HistoryPage.calls s'
    = HistoryPage.calls s
      ++ [HistoryPage.LoadAwaiting (HistoryPage.currentSessionId s);
          HistoryPage.LoadAwaiting sid]
  ∧ ∀ earlier selected,
      ∃ s2, HistoryPage.run env s'
              [HistoryPage.Loaded (S (length (HistoryPage.calls s))) (Some selected);
               HistoryPage.Loaded (length (HistoryPage.calls s)) (Some earlier)]
            = Some s2
            ∧ HistoryPage.messages s2 = earlier.1
            ∧ HistoryPage.currentSessionId s2 = sid.
Proof.
  intros Hu Hsb Hne Hstep.
  assert (HistoryPage.currentSessionId s' = sid
          ∧ HistoryPage.currentTitle s' = title
          ∧ HistoryPage.messages s' = HistoryPage.messages s
          ∧ HistoryPage.calls s'
            = HistoryPage.calls s
              ++ [HistoryPage.LoadAwaiting (HistoryPage.currentSessionId s);
                  HistoryPage.LoadAwaiting sid]) as (Hsid & Htitle & Hms & Hcs).
  { cbn [HistoryPage.step] in Hstep. rewrite select_chat_state in Hstep by done.
    injection Hstep as <-. done. }
  split_and!; [done..|]. intros earlier selected.
  destruct (loaded_step env s' (S (length (HistoryPage.calls s))) sid selected)
    as (s1 & extra & Hstep1 & _ & Hsid1 & Hcs1).
  { rewrite Hcs, lookup_app_r by lia.
    by replace (S (length (HistoryPage.calls s)) - length (HistoryPage.calls s))%nat
      with 1%nat by lia. }
  rewrite Hcs, delete_snoc2 in Hcs1.
  destruct (loaded_step env s1 (length (HistoryPage.calls s))
              (HistoryPage.currentSessionId s) earlier)
    as (s2 & _ & Hstep2 & Hms2 & Hsid2 & _).
  { rewrite Hcs1, <- app_assoc, lookup_app_r, Nat.sub_diag by done. done. }
  exists s2. cbn [HistoryPage.run]. rewrite Hstep1. cbn [mbind option_bind].
  rewrite Hstep2. cbn [mbind option_bind].
  split; [done|]. split; [done|]. by rewrite Hsid2, Hsid1.
Qed.

Lemma select_chat_two_loads_witness :
  ∃ s2, HistoryPage.run Scenario.signedIn Cases.switched
          [HistoryPage.Loaded 2 (Some ([userMessage (js "old question") 0], js "Old"));
           HistoryPage.Loaded 1 (Some ([userMessage (js "hi") 1], []))]
        = Some s2
        ∧ HistoryPage.messages s2 = [userMessage (js "hi") 1]
        ∧ HistoryPage.currentSessionId s2 = js "chat-0".
Proof.
  destruct (select_chat_two_loads Scenario.signedIn Cases.askedOnce
              (js "chat-0") (js "Old") Cases.switched)
    as (_ & _ & _ & _ & H).
  - by eexists.
  - reflexivity.
  - vm_compute. discriminate.
  - vm_compute. reflexivity.
  - exact (H ([userMessage (js "hi") 1], [])
             ([userMessage (js "old question") 0], js "Old")).
Defined.

(** ** A chunk on an empty transcript *)

Lemma finalUpdate_None parsed prev : finalUpdate parsed prev = None ↔ prev = [].
Proof.
  unfold finalUpdate. split; [|by intros ->].
  destruct (prev !! (length prev - 1)%nat) eqn:H; [by repeat case_match|].
  intros _. apply lookup_ge_None in H. destruct prev; [done|simpl in H; lia].
Qed.

Lemma chunkUpdate_length acc prev new :
  chunkUpdate acc prev = Some new → length new = length prev.
Proof.
  unfold chunkUpdate. repeat case_match; intros; simplify_eq; [|done].
  apply length_insert.
Qed.

(** X20. While a stream is read, a chunk or the end of the stream throws
    in its updater (the last message of an empty array is undefined)
    exactly when the transcript is empty at that moment, as it is after New
    Chat has been pressed during the stream; on a transcript that is not
    empty neither of them throws. *)
Theorem chunk_on_empty_transcript s i acc chunkValue now :
  ChatPage.calls s !! i = Some (ChatPage.SendStreaming acc) →
  (ChatPage.step s (ChatPage.SendChunk i chunkValue) = None
   ↔ ChatPage.messages s = [])
  ∧ (ChatPage.step s (ChatPage.SendDone i now) = None
     ↔ ChatPage.messages s = []).
Proof.
  intros Hi. simpl. rewrite Hi. split.
  - unfold ChatPage.sendChunk. rewrite <- (chunkUpdate_None (acc ++ chunkValue)).
    by destruct (chunkUpdate _ _).
  - unfold ChatPage.sendDone. rewrite <- (chunkUpdate_None ((acc ++ []))).
    destruct (chunkUpdate _ _) as [new|] eqn:Hnew; simpl; [|done].
    split; [|done].
    destruct (parseAIResponse_returns (acc ++ [])) as [p ->].
    destruct (finalUpdate p new) as [final|] eqn:Hfinal; simpl; [done|].
    intros _. exfalso.
    apply finalUpdate_None in Hfinal as ->.
    pose proof (chunkUpdate_length _ _ _ Hnew) as Hlen.
    destruct (ChatPage.messages s); [done|]. done.
Qed.

Lemma chunk_on_empty_transcript_witness :
  ChatPage.run (ChatPage.initial (js "s1"))
    [ChatPage.Typed (js "hi"); ChatPage.Submit 1; ChatPage.SendOpened 0 2;
     ChatPage.NewChat (js "s2")]
  = Some Cases.clearedWhileStreaming
  ∧ ChatPage.step Cases.clearedWhileStreaming (ChatPage.SendChunk 0 (js "Hel"))
    = None.
Proof.
  split; [vm_compute; reflexivity|].
  apply (chunk_on_empty_transcript Cases.clearedWhileStreaming 0 [] (js "Hel") 3
           eq_refl).
  reflexivity.
Defined.
